(** * AWSQ-asteroids: entities, collisions and the game state machine

    A shallow embedding of [src/game-objects.ts] (classes [GameObject],
    [Ship], [Asteroid], [Bullet]), [src/game.ts] (class [Game]),
    [src/input-manager.ts], [src/high-score-manager.ts] and the star field
    of [src/vector-renderer.ts].

    Conventions of the embedding:
    - a JavaScript [number] that holds a coordinate, a speed, an angle or a
      time is a real number ([R]): rounding, infinities and NaN are left
      out; [Math.sqrt], [Math.sin], [Math.cos], [Math.PI], [Math.abs],
      [Math.min] and [Math.max] are [sqrt], [sin], [cos], [PI], [Rabs],
      [Rmin] and [Rmax];
    - the counters [score], [lives] and [level] are integers ([Z]);
    - objects are records and every method takes the receiver last and
      returns the updated receiver (explicit state passing);
    - [Math.random()] is a sequence [random : nat -> R]; its [k]-th call
      returns [random k], and the number of calls made so far is threaded
      through the code that draws;
    - the DOM text of the score bar and the drawing calls are not part of
      the state; the status text and [localStorage], whose calls may
      throw, are; the size of the canvas is given to the functions that
      read it, and a session carries it along, since a resize of the
      window changes it. *)

From Stdlib Require Import String Reals Lra Lia ZArith Bool List.
From Stdlib Require Import Sorted Permutation.
Import ListNotations.

Open Scope R_scope.

(** ** Comparisons of numbers as booleans *)

Definition Rltb (a b : R) : bool := if Rlt_dec a b then true else false.
Definition Rleb (a b : R) : bool := if Rle_dec a b then true else false.
Definition Rgtb (a b : R) : bool := Rltb b a.

Notation "a <? b" := (Rltb a b) : R_scope.
Notation "a <=? b" := (Rleb a b) : R_scope.
Notation "a >? b" := (Rgtb a b) : R_scope.

(** ** vector-renderer.ts: [Vector2D] *)

Record Vector2D : Type := mkVector2D { x : R; y : R }.

(** ** vector-renderer.ts: shapes, stars and the renderer *)

Module VectorShape.

Record t : Type := mk {
  points : list Vector2D;
  closed : bool;
  color : string;
  lineWidth : R
}.

End VectorShape.

Module Star.

Record t : Type := mk {
  x : R;
  y : R;
  brightness : R;
  twinkle : R
}.

End Star.

Module VectorRenderer.

(** A [fillStyle]: a colour by name, or the [rgba(...)] text built for a
    star. *)
Inductive FillStyle : Type :=
| Named (name : string)
| Rgba (red green blue : Z) (alpha : R).

(** What [clear] puts on the canvas: the background rectangle and, for
    the stars, discs ([arc] over the full circle, then [fill]). *)
Inductive Paint : Type :=
| FillRect (style : FillStyle) (px py w h : R)
| FillDisc (style : FillStyle) (cx cy radius : R).

(** The calls that the game makes on its renderer; [rotation] and [scale]
    of [drawShape] default to 0 and 1. *)
Inductive Call : Type :=
| Clear (deltaTime : R)
| DrawShape (shape : VectorShape.t) (position : Vector2D)
    (rotation scale : R)
| DrawText (text : string) (position : Vector2D) (color : string)
    (size : R).

Section Canvas.

Variable random : nat -> R.
(** [canvas.width] and [canvas.height] *)
Variable canvasSize : Vector2D.

(** The [for] loop of [generateStarfield] with [n] rounds to go; [k] is
    the number of [Math.random()] calls made so far. *)
Fixpoint pushStars (n : nat) (stars : list Star.t) (k : nat)
    : list Star.t * nat :=
  match n with
  | O => (stars, k)
  | S n' =>
      let star :=
        {| Star.x := random k * x canvasSize;
           Star.y := random (k + 1) * y canvasSize;
           Star.brightness := random (k + 2) * (8 / 10) + 2 / 10;
           Star.twinkle := random (k + 3) * PI * 2 |} in
      pushStars n' (stars ++ [star]) (k + 4)
  end.

(** [generateStarfield()] *)
Definition generateStarfield (k : nat) : list Star.t * nat :=
  let numStars := 150%nat in
  pushStars numStars [] k.

(** What one round of the loop of [drawStarfield] paints for a star whose
    [twinkle] has been advanced. *)
Definition paintStar (star : Star.t) : list Paint :=
  let twinkleFactor := sin (Star.twinkle star) * (3 / 10) + 7 / 10 in
  let alpha := Star.brightness star * twinkleFactor in
  FillDisc (Rgba 0 255 0 (alpha * (8 / 10))) (Star.x star) (Star.y star) 1
  :: (if Star.brightness star >? 7 / 10
      then [FillDisc (Rgba 255 255 255 (alpha * (4 / 10)))
                     (Star.x star) (Star.y star) (5 / 10)]
      else []).

(** [drawStarfield(deltaTime)]: the stars afterwards and what is
    painted. *)
Fixpoint drawStarfield (deltaTime : R) (stars : list Star.t)
    : list Star.t * list Paint :=
  match stars with
  | [] => ([], [])
  | star :: rest =>
      let star1 :=
        {| Star.x := Star.x star; Star.y := Star.y star;
           Star.brightness := Star.brightness star;
           Star.twinkle := Star.twinkle star + deltaTime * 2 |} in
      let (rest1, painted) := drawStarfield deltaTime rest in
      (star1 :: rest1, paintStar star1 ++ painted)
  end.

(** [clear(deltaTime)] *)
Definition clear (deltaTime : R) (stars : list Star.t)
    : list Star.t * list Paint :=
  let (stars1, painted) := drawStarfield deltaTime stars in
  (stars1,
   FillRect (Named "#000") 0 0 (x canvasSize) (y canvasSize) :: painted).

End Canvas.

(** [setupCanvas()]: the size that the canvas is given, from
    [window.innerWidth] and [window.innerHeight]. A canvas does not take a
    negative height: for a window less than 40 high the browser gives it
    a height of its own choice, which is what this function gives for
    another [innerHeight]. *)
Definition setupCanvas (innerWidth innerHeight : R) : Vector2D :=
  mkVector2D innerWidth (innerHeight - 40).

(** [resize()]: the new canvas size, the new stars and the number of
    [Math.random()] calls made afterwards. *)
Definition resize (random : nat -> R) (innerWidth innerHeight : R)
    (k : nat) : Vector2D * list Star.t * nat :=
  let canvasSize := setupCanvas innerWidth innerHeight in
  let (stars, k') := generateStarfield random canvasSize k in
  (canvasSize, stars, k').

End VectorRenderer.

(** ** game-objects.ts *)

Module GameObject.

(** The fields every [GameObject] has. *)
Record t : Type := mk {
  position : Vector2D;
  velocity : Vector2D;
  rotation : R;
  scale : R;
  active : bool
}.

(** [constructor(x, y)] *)
Definition new (px py : R) : t :=
  {| position := mkVector2D px py;
     velocity := mkVector2D 0 0;
     rotation := 0;
     scale := 1;
     active := true |}.

Definition set_position (p : Vector2D) (o : t) : t :=
  {| position := p; velocity := velocity o; rotation := rotation o;
     scale := scale o; active := active o |}.

Definition set_velocity (v : Vector2D) (o : t) : t :=
  {| position := position o; velocity := v; rotation := rotation o;
     scale := scale o; active := active o |}.

Definition set_rotation (r : R) (o : t) : t :=
  {| position := position o; velocity := velocity o; rotation := r;
     scale := scale o; active := active o |}.

Definition set_scale (s : R) (o : t) : t :=
  {| position := position o; velocity := velocity o; rotation := rotation o;
     scale := s; active := active o |}.

Definition set_active (a : bool) (o : t) : t :=
  {| position := position o; velocity := velocity o; rotation := rotation o;
     scale := scale o; active := a |}.

(** One axis of [wrapPosition]: the two [if]s of the source in sequence. *)
Definition wrapAxis (bound c : R) : R :=
  let c1 := if c <? 0 then bound else c in
  if c1 >? bound then 0 else c1.

(** [wrapPosition(canvasSize)] *)
Definition wrapPosition (canvasSize : Vector2D) (o : t) : t :=
  set_position
    (mkVector2D (wrapAxis (x canvasSize) (x (position o)))
                (wrapAxis (y canvasSize) (y (position o))))
    o.

(** [position += velocity * deltaTime], the step shared by the three
    [update] methods. *)
Definition integrate (deltaTime : R) (o : t) : t :=
  set_position
    (mkVector2D (x (position o) + x (velocity o) * deltaTime)
                (y (position o) + y (velocity o) * deltaTime))
    o.

End GameObject.

(** The abstract methods of [GameObject], and access to the inherited
    fields. *)
Class Entity (A : Type) : Type := {
  base : A -> GameObject.t;
  getCollisionRadius : A -> R;
  update : R -> Vector2D -> A -> A
}.

(** [collidesWith(other)] *)
Definition collidesWith {A B : Type} `{Entity A} `{Entity B}
    (this : A) (other : B) : bool :=
  let dx := x (GameObject.position (base this))
            - x (GameObject.position (base other)) in
  let dy := y (GameObject.position (base this))
            - y (GameObject.position (base other)) in
  let distance := sqrt (dx * dx + dy * dy) in
  distance <? getCollisionRadius this + getCollisionRadius other.

Module Ship.

Record t : Type := mk {
  obj : GameObject.t;
  thrust : R
}.

(** Private fields that are initialised once and never assigned. *)
Definition maxSpeed : R := 300.
Definition thrustPower : R := 400.
Definition rotationSpeed : R := 5.
Definition friction : R := 98 / 100.

Definition new (px py : R) : t :=
  {| obj := GameObject.new px py; thrust := 0 |}.

Definition with_obj (f : GameObject.t -> GameObject.t) (s : t) : t :=
  {| obj := f (obj s); thrust := thrust s |}.

Definition position (s : t) : Vector2D := GameObject.position (obj s).
Definition velocity (s : t) : Vector2D := GameObject.velocity (obj s).
Definition rotation (s : t) : R := GameObject.rotation (obj s).

(** The "Apply thrust" block. *)
Definition applyThrust (deltaTime : R) (s : t) : t :=
  if thrust s >? 0 then
    let thrustX := sin (rotation s) * thrustPower * deltaTime in
    let thrustY := - cos (rotation s) * thrustPower * deltaTime in
    with_obj (GameObject.set_velocity
                (mkVector2D (x (velocity s) + thrustX)
                            (y (velocity s) + thrustY))) s
  else s.

(** The "Limit speed" block. *)
Definition limitSpeed (s : t) : t :=
  let speed := sqrt (x (velocity s) * x (velocity s)
                     + y (velocity s) * y (velocity s)) in
  if speed >? maxSpeed then
    with_obj (GameObject.set_velocity
                (mkVector2D (x (velocity s) / speed * maxSpeed)
                            (y (velocity s) / speed * maxSpeed))) s
  else s.

(** The "Apply friction" block. *)
Definition applyFriction (s : t) : t :=
  with_obj (GameObject.set_velocity
              (mkVector2D (x (velocity s) * friction)
                          (y (velocity s) * friction))) s.

(** [update(deltaTime, canvasSize)] *)
Definition update (deltaTime : R) (canvasSize : Vector2D) (s : t) : t :=
  let s1 := applyThrust deltaTime s in
  let s2 := limitSpeed s1 in
  let s3 := applyFriction s2 in
  let s4 := with_obj (GameObject.integrate deltaTime) s3 in
  with_obj (GameObject.wrapPosition canvasSize) s4.

(** [setThrust(thrust)] *)
Definition setThrust (level : R) (s : t) : t :=
  {| obj := obj s; thrust := Rmax 0 (Rmin 1 level) |}.

(** [rotate(direction)] *)
Definition rotate (direction : R) (s : t) : t :=
  with_obj (GameObject.set_rotation
              (rotation s + direction * rotationSpeed * (1 / 60))) s.

(** [getShape()] *)
Definition getShape (s : t) : VectorShape.t :=
  {| VectorShape.points :=
       [ mkVector2D 0 (-15); mkVector2D (-8) 10; mkVector2D (-4) 6;
         mkVector2D 4 6; mkVector2D 8 10 ];
     VectorShape.closed := true;
     VectorShape.color := "#00ff00";
     VectorShape.lineWidth := 2 |}.

#[global] Instance entity : Entity t := {
  base := obj;
  getCollisionRadius := fun _ => 12;
  update := update
}.

End Ship.

Inductive AsteroidSize : Type := large | medium | small.

Module Asteroid.

Record t : Type := mk {
  obj : GameObject.t;
  rotationSpeed : R;
  size : AsteroidSize
}.

Definition with_obj (f : GameObject.t -> GameObject.t) (a : t) : t :=
  {| obj := f (obj a); rotationSpeed := rotationSpeed a; size := size a |}.

Definition position (a : t) : Vector2D := GameObject.position (obj a).
Definition velocity (a : t) : Vector2D := GameObject.velocity (obj a).

(** The [switch] of the constructor. *)
Definition scaleOf (sz : AsteroidSize) : R :=
  match sz with
  | large => 1
  | medium => 6 / 10
  | small => 3 / 10
  end.

Section Random.
Variable random : nat -> R.

(** [constructor(x, y, size)]: three calls of [Math.random()], the
    first of them call number [k]; the result comes with the number of
    calls made afterwards. *)
Definition new (px py : R) (sz : AsteroidSize) (k : nat) : t * nat :=
  let rotSpeed := (random k - 5 / 10) * 2 in
  let angle := random (k + 1) * PI * 2 in
  let speed := 50 + random (k + 2) * 100 in
  let o := GameObject.set_scale (scaleOf sz)
             (GameObject.set_velocity
                (mkVector2D (cos angle * speed) (sin angle * speed))
                (GameObject.new px py)) in
  ({| obj := o; rotationSpeed := rotSpeed; size := sz |}, (k + 3)%nat).
End Random.

(** [update(deltaTime, canvasSize)] *)
Definition update (deltaTime : R) (canvasSize : Vector2D) (a : t) : t :=
  let a1 := with_obj (GameObject.set_rotation
                        (GameObject.rotation (obj a)
                         + rotationSpeed a * deltaTime)) a in
  let a2 := with_obj (GameObject.integrate deltaTime) a1 in
  with_obj (GameObject.wrapPosition canvasSize) a2.

Definition getSize (a : t) : AsteroidSize := size a.

(** [getShape()] *)
Definition getShape (a : t) : VectorShape.t :=
  {| VectorShape.points :=
       [ mkVector2D 20 (-5); mkVector2D 15 (-15); mkVector2D 5 (-20);
         mkVector2D (-10) (-18); mkVector2D (-20) (-8); mkVector2D (-18) 5;
         mkVector2D (-12) 15; mkVector2D 0 20; mkVector2D 12 18;
         mkVector2D 18 8 ];
     VectorShape.closed := true;
     VectorShape.color := "#00ff00";
     VectorShape.lineWidth := 15 / 10 |}.

#[global] Instance entity : Entity t := {
  base := obj;
  getCollisionRadius := fun a => 20 * GameObject.scale (obj a);
  update := update
}.

End Asteroid.

Module Bullet.

Record t : Type := mk {
  obj : GameObject.t;
  lifeTime : R
}.

Definition maxLifeTime : R := 2.

Definition with_obj (f : GameObject.t -> GameObject.t) (b : t) : t :=
  {| obj := f (obj b); lifeTime := lifeTime b |}.

Definition position (b : t) : Vector2D := GameObject.position (obj b).
Definition velocity (b : t) : Vector2D := GameObject.velocity (obj b).
Definition active (b : t) : bool := GameObject.active (obj b).

(** [constructor(x, y, angle)] *)
Definition new (px py angle : R) : t :=
  let speed := 400 in
  {| obj := GameObject.set_velocity
              (mkVector2D (sin angle * speed) (- cos angle * speed))
              (GameObject.new px py);
     lifeTime := 0 |}.

(** [update(deltaTime, canvasSize)] *)
Definition update (deltaTime : R) (canvasSize : Vector2D) (b : t) : t :=
  let b1 := {| obj := obj b; lifeTime := lifeTime b + deltaTime |} in
  if lifeTime b1 >? maxLifeTime then
    with_obj (GameObject.set_active false) b1
  else
    let b2 := with_obj (GameObject.integrate deltaTime) b1 in
    with_obj (GameObject.wrapPosition canvasSize) b2.

(** [getShape()] *)
Definition getShape (b : t) : VectorShape.t :=
  {| VectorShape.points := [ mkVector2D 0 (-2); mkVector2D 0 2 ];
     VectorShape.closed := false;
     VectorShape.color := "#ffffff";
     VectorShape.lineWidth := 2 |}.

#[global] Instance entity : Entity t := {
  base := obj;
  getCollisionRadius := fun _ => 2;
  update := update
}.

End Bullet.

(** ** high-score-manager.ts *)

Module HighScoreManager.

Record HighScoreEntry : Type := mkEntry {
  score : Z;
  date : string;
  level : Z
}.

Definition MAX_SCORES : nat := 10.

(** [Array.prototype.sort((a, b) => b.score - a.score)] is a stable sort
    by descending score; [key] reads the score of an element. *)
Fixpoint insertDesc {A : Type} (key : A -> Z) (e : A) (l : list A) : list A :=
  match l with
  | [] => [e]
  | h :: rest =>
      if (key h <=? key e)%Z then e :: l else h :: insertDesc key e rest
  end.

Definition sortDesc {A : Type} (key : A -> Z) (l : list A) : list A :=
  fold_right (insertDesc key) [] l.

(** [localStorage] as the manager meets it. What is kept under
    [STORAGE_KEY]: nothing, a text that the [try] block of [getHighScores]
    cannot turn into a sorted list ([JSON.parse] or [sort] throws on it),
    or the text of a list of entries. And whether [getItem], [setItem] and
    [removeItem] throw, as they do when the browser denies storage or its
    quota is used up. *)
Inductive Item : Type :=
| Absent
| Unreadable
| Scores (entries : list HighScoreEntry).

Record Storage : Type := mkStorage {
  item : Item;
  getItemThrows : bool;
  setItemThrows : bool;
  removeItemThrows : bool
}.

(** [localStorage.setItem(STORAGE_KEY, JSON.stringify(entries))] and
    [localStorage.removeItem(STORAGE_KEY)] when they do not throw. *)
Definition setItem (entries : list HighScoreEntry) (storage : Storage)
    : Storage :=
  {| item := Scores entries;
     getItemThrows := getItemThrows storage;
     setItemThrows := setItemThrows storage;
     removeItemThrows := removeItemThrows storage |}.

Definition removeItem (storage : Storage) : Storage :=
  {| item := Absent;
     getItemThrows := getItemThrows storage;
     setItemThrows := setItemThrows storage;
     removeItemThrows := removeItemThrows storage |}.

(** [getHighScores()]: the empty list when nothing is stored and when the
    [try] block throws. *)
Definition getHighScores (storage : Storage) : list HighScoreEntry :=
  if getItemThrows storage then []
  else
    match item storage with
    | Absent => []
    | Unreadable => []
    | Scores scores => sortDesc score scores
    end.

(** [addScore(score, level)]: the storage afterwards and the returned
    flag; when [setItem] throws nothing is stored and the flag is
    [false]. The new entry carries the mark [true], which stands for its
    object identity in [topScores.includes(newEntry)]. *)
Definition addScore (today : string) (sc lv : Z) (storage : Storage)
    : Storage * bool :=
  let scores := map (fun e => (e, false)) (getHighScores storage) in
  let newEntry := {| score := sc; level := lv; date := today |} in
  let pushed := scores ++ [(newEntry, true)] in
  let sorted := sortDesc (fun p => score (fst p)) pushed in
  let topScores := firstn MAX_SCORES sorted in
  if setItemThrows storage then (storage, false)
  else (setItem (map fst topScores) storage, existsb snd topScores).

(** [getHighScore()] *)
Definition getHighScore (storage : Storage) : Z :=
  match getHighScores storage with
  | [] => 0%Z
  | e :: _ => score e
  end.

(** [isHighScore(score)] *)
Definition isHighScore (sc : Z) (storage : Storage) : bool :=
  let scores := getHighScores storage in
  (length scores <? MAX_SCORES)%nat
  || match nth_error scores (length scores - 1) with
     | Some e => (score e <? sc)%Z
     | None => false
     end.

(** [clearHighScores()]: the storage afterwards. *)
Definition clearHighScores (storage : Storage) : Storage :=
  if removeItemThrows storage then storage else removeItem storage.

End HighScoreManager.

(** ** input-manager.ts *)

Module InputManager.

(** The [Set<string>] of the codes of the keys that are down. *)
Definition t : Type := list string.

Definition isKeyPressed (key : string) (keys : t) : bool :=
  existsb (String.eqb key) keys.

(** [keys.add(code)] *)
Definition add (code : string) (keys : t) : t :=
  if isKeyPressed code keys then keys else keys ++ [code].

(** [keys.delete(code)] *)
Definition delete (code : string) (keys : t) : t :=
  filter (fun k => negb (String.eqb code k)) keys.

Definition isThrustPressed (keys : t) : bool :=
  isKeyPressed "ArrowUp" keys || isKeyPressed "KeyW" keys.

Definition isLeftPressed (keys : t) : bool :=
  isKeyPressed "ArrowLeft" keys || isKeyPressed "KeyA" keys.

Definition isRightPressed (keys : t) : bool :=
  isKeyPressed "ArrowRight" keys || isKeyPressed "KeyD" keys.

Definition isFirePressed (keys : t) : bool :=
  isKeyPressed "Space" keys.

End InputManager.

(** ** game.ts *)

Inductive GameState : Type := READY | PLAYING | GAME_OVER | PAUSED.

Definition GameState_eqb (a b : GameState) : bool :=
  match a, b with
  | READY, READY | PLAYING, PLAYING
  | GAME_OVER, GAME_OVER | PAUSED, PAUSED => true
  | _, _ => false
  end.

(** [Array.prototype.splice(i, 1)] *)
Definition splice1 {A : Type} (i : nat) (l : list A) : list A :=
  firstn i l ++ skipn (S i) l.

Module Game.

Record t : Type := mk {
  ship : Ship.t;
  asteroids : list Asteroid.t;
  bullets : list Bullet.t;
  state : GameState;
  score : Z;
  lives : Z;
  level : Z;
  lastTime : R;
  fireDelay : R;
  (** [statusElement.textContent] *)
  statusText : string;
  (** [input.keys] *)
  keys : InputManager.t;
  (** [localStorage], where the high scores are kept *)
  highScores : HighScoreManager.Storage;
  (** how many times [Math.random()] has been called *)
  randomCalls : nat
}.

Definition maxFireDelay : R := 15 / 100.

Definition set_ship (v : Ship.t) (g : t) : t :=
  mk v (asteroids g) (bullets g) (state g) (score g) (lives g) (level g)
     (lastTime g) (fireDelay g) (statusText g) (keys g) (highScores g)
     (randomCalls g).
Definition set_asteroids (v : list Asteroid.t) (g : t) : t :=
  mk (ship g) v (bullets g) (state g) (score g) (lives g) (level g)
     (lastTime g) (fireDelay g) (statusText g) (keys g) (highScores g)
     (randomCalls g).
Definition set_bullets (v : list Bullet.t) (g : t) : t :=
  mk (ship g) (asteroids g) v (state g) (score g) (lives g) (level g)
     (lastTime g) (fireDelay g) (statusText g) (keys g) (highScores g)
     (randomCalls g).
Definition set_state (v : GameState) (g : t) : t :=
  mk (ship g) (asteroids g) (bullets g) v (score g) (lives g) (level g)
     (lastTime g) (fireDelay g) (statusText g) (keys g) (highScores g)
     (randomCalls g).
Definition set_score (v : Z) (g : t) : t :=
  mk (ship g) (asteroids g) (bullets g) (state g) v (lives g) (level g)
     (lastTime g) (fireDelay g) (statusText g) (keys g) (highScores g)
     (randomCalls g).
Definition set_lives (v : Z) (g : t) : t :=
  mk (ship g) (asteroids g) (bullets g) (state g) (score g) v (level g)
     (lastTime g) (fireDelay g) (statusText g) (keys g) (highScores g)
     (randomCalls g).
Definition set_level (v : Z) (g : t) : t :=
  mk (ship g) (asteroids g) (bullets g) (state g) (score g) (lives g) v
     (lastTime g) (fireDelay g) (statusText g) (keys g) (highScores g)
     (randomCalls g).
Definition set_lastTime (v : R) (g : t) : t :=
  mk (ship g) (asteroids g) (bullets g) (state g) (score g) (lives g)
     (level g) v (fireDelay g) (statusText g) (keys g) (highScores g)
     (randomCalls g).
Definition set_fireDelay (v : R) (g : t) : t :=
  mk (ship g) (asteroids g) (bullets g) (state g) (score g) (lives g)
     (level g) (lastTime g) v (statusText g) (keys g) (highScores g)
     (randomCalls g).
Definition set_statusText (v : string) (g : t) : t :=
  mk (ship g) (asteroids g) (bullets g) (state g) (score g) (lives g)
     (level g) (lastTime g) (fireDelay g) v (keys g) (highScores g)
     (randomCalls g).
Definition set_keys (v : InputManager.t) (g : t) : t :=
  mk (ship g) (asteroids g) (bullets g) (state g) (score g) (lives g)
     (level g) (lastTime g) (fireDelay g) (statusText g) v (highScores g)
     (randomCalls g).
Definition set_highScores (v : HighScoreManager.Storage)
    (g : t) : t :=
  mk (ship g) (asteroids g) (bullets g) (state g) (score g) (lives g)
     (level g) (lastTime g) (fireDelay g) (statusText g) (keys g) v
     (randomCalls g).
Definition set_randomCalls (v : nat) (g : t) : t :=
  mk (ship g) (asteroids g) (bullets g) (state g) (score g) (lives g)
     (level g) (lastTime g) (fireDelay g) (statusText g) (keys g)
     (highScores g) v.

Section Environment.

(** The values [Math.random()] returns, in the order of the calls. *)
Variable random : nat -> R.
(** What [renderer.getCanvasSize()] returns. *)
Variable canvasSize : Vector2D.
(** What [new Date().toLocaleDateString()] returns. *)
Variable today : string.

(** The [do ... while] of [createAsteroids]: draws a point until it is
    not within 100 of the ship on both axes. [fuel] bounds the number
    of rounds; [None] when it does not suffice. The result is the point
    and the number of [Math.random()] calls made so far. *)
Fixpoint spawnPoint (fuel : nat) (shipPos : Vector2D) (k : nat)
    : option (R * R * nat) :=
  match fuel with
  | O => None
  | S fuel' =>
      let px := random k * x canvasSize in
      let py := random (k + 1) * y canvasSize in
      if (Rabs (px - x shipPos) <? 100)
         && (Rabs (py - y shipPos) <? 100)
      then spawnPoint fuel' shipPos (k + 2)
      else Some (px, py, (k + 2)%nat)
  end.

(** The [for] loop of [createAsteroids] with [n] rounds to go. *)
Fixpoint spawnAsteroids (fuel : nat) (n : nat) (g : t) : option t :=
  match n with
  | O => Some g
  | S n' =>
      match spawnPoint fuel (Ship.position (ship g)) (randomCalls g) with
      | None => None
      | Some (px, py, k) =>
          let (a, k') := Asteroid.new random px py large k in
          spawnAsteroids fuel n'
            (set_randomCalls k' (set_asteroids (asteroids g ++ [a]) g))
      end
  end.

(** [createAsteroids()] *)
Definition createAsteroids (fuel : nat) (g : t) : option t :=
  let numAsteroids := (4 + level g)%Z in
  spawnAsteroids fuel (Z.to_nat numAsteroids) (set_asteroids [] g).

(** [setupGame()]; [updateUI()] writes DOM text only. *)
Definition setupGame (fuel : nat) (g : t) : option t :=
  createAsteroids fuel
    (set_ship (Ship.new (x canvasSize / 2) (y canvasSize / 2)) g).

(** [new Game(canvas)]; [statusText0] is the text the page shows in the
    status element before the game writes to it, [stored] the browser's
    [localStorage] and [k] the number of [Math.random()]
    calls made before. The field [ship] has no value until [setupGame]
    assigns it; the record starts it at the origin. *)
Definition new (fuel : nat) (statusText0 : string)
    (stored : HighScoreManager.Storage) (k : nat) : option t :=
  setupGame fuel
    {| ship := Ship.new 0 0; asteroids := []; bullets := [];
       state := READY; score := 0; lives := 3; level := 1;
       lastTime := 0; fireDelay := 0; statusText := statusText0;
       keys := []; highScores := stored; randomCalls := k |}.

Definition startGame (g : t) : t :=
  set_statusText "PLAYING" (set_state PLAYING g).

Definition pauseGame (g : t) : t :=
  set_statusText "PAUSED" (set_state PAUSED g).

Definition resumeGame (g : t) : t :=
  set_statusText "PLAYING" (set_state PLAYING g).

Definition resetGame (fuel : nat) (g : t) : option t :=
  let g1 := set_score 0 g in
  let g2 := set_lives 3 g1 in
  let g3 := set_level 1 g2 in
  let g4 := set_state READY g3 in
  let g5 := set_statusText "READY" g4 in
  let g6 := set_bullets [] g5 in
  setupGame fuel g6.

(** The handler registered for ['Space']. *)
Definition onSpace (fuel : nat) (g : t) : option t :=
  match state g with
  | READY => Some (startGame g)
  | GAME_OVER => resetGame fuel g
  | _ => Some g
  end.

(** The handler registered for ['KeyP']. *)
Definition onKeyP (g : t) : t :=
  match state g with
  | PLAYING => pauseGame g
  | PAUSED => resumeGame g
  | _ => g
  end.

(** The [keydown] listener of the input manager: the code joins the set
    of pressed keys, then the handler registered for it runs. *)
Definition keydown (fuel : nat) (code : string) (g : t) : option t :=
  let g1 := set_keys (InputManager.add code (keys g)) g in
  if String.eqb code "Space" then onSpace fuel g1
  else if String.eqb code "KeyP" then Some (onKeyP g1)
  else Some g1.

(** The [keyup] listener. *)
Definition keyup (code : string) (g : t) : t :=
  set_keys (InputManager.delete code (keys g)) g.

(** [fireBullet()] *)
Definition fireBullet (g : t) : t :=
  let bullet := Bullet.new (x (Ship.position (ship g)))
                           (y (Ship.position (ship g)))
                           (Ship.rotation (ship g)) in
  set_bullets (bullets g ++ [bullet]) g.

(** [handleInput(deltaTime)] *)
Definition handleInput (deltaTime : R) (g : t) : t :=
  if negb (GameState_eqb (state g) PLAYING) then g else
  let g1 :=
    if InputManager.isThrustPressed (keys g)
    then set_ship (Ship.setThrust 1 (ship g)) g
    else set_ship (Ship.setThrust 0 (ship g)) g in
  let g2 :=
    if InputManager.isLeftPressed (keys g1)
    then set_ship (Ship.rotate (-1) (ship g1)) g1 else g1 in
  let g3 :=
    if InputManager.isRightPressed (keys g2)
    then set_ship (Ship.rotate 1 (ship g2)) g2 else g2 in
  let g4 := set_fireDelay (fireDelay g3 - deltaTime) g3 in
  if InputManager.isFirePressed (keys g4) && (fireDelay g4 <=? 0)
  then set_fireDelay maxFireDelay (fireBullet g4)
  else g4.

(** [updateGameObjects(deltaTime)] *)
Definition updateGameObjects (deltaTime : R) (g : t) : t :=
  if negb (GameState_eqb (state g) PLAYING) then g else
  let g1 := set_ship (Ship.update deltaTime canvasSize (ship g)) g in
  let g2 := set_asteroids
              (map (Asteroid.update deltaTime canvasSize) (asteroids g1)) g1 in
  set_bullets
    (filter Bullet.active
       (map (Bullet.update deltaTime canvasSize) (bullets g2)))
    g2.

(** [addScore(asteroidSize)] *)
Definition addScore (asteroidSize : AsteroidSize) (g : t) : t :=
  match asteroidSize with
  | large => set_score (score g + 20) g
  | medium => set_score (score g + 50) g
  | small => set_score (score g + 100) g
  end.

(** The [for] loop of [breakAsteroid] with [n] rounds to go. *)
Fixpoint pushPieces (n : nat) (px py : R) (newSize : AsteroidSize)
    (g : t) : t :=
  match n with
  | O => g
  | S n' =>
      let (newAsteroid, k) :=
        Asteroid.new random px py newSize (randomCalls g) in
      pushPieces n' px py newSize
        (set_randomCalls k
           (set_asteroids (asteroids g ++ [newAsteroid]) g))
  end.

(** [breakAsteroid(asteroid)] *)
Definition breakAsteroid (asteroid : Asteroid.t) (g : t) : t :=
  let size := Asteroid.getSize asteroid in
  let '(newSize, numPieces) :=
    match size with
    | large => (Some medium, 2%nat)
    | medium => (Some small, 2%nat)
    | small => (None, 0%nat)
    end in
  match newSize with
  | Some sz =>
      pushPieces numPieces (x (Asteroid.position asteroid))
                 (y (Asteroid.position asteroid)) sz g
  | None => g
  end.

(** [gameOver()] *)
Definition gameOver (g : t) : t :=
  let g1 := set_statusText "GAME OVER" (set_state GAME_OVER g) in
  let (stored, isNewHighScore) :=
    HighScoreManager.addScore today (score g1) (level g1)
                              (highScores g1) in
  let g2 := set_highScores stored g1 in
  if isNewHighScore then set_statusText "NEW HIGH SCORE!" g2 else g2.

(** [loseLife()] *)
Definition loseLife (g : t) : t :=
  let g1 := set_lives (lives g - 1) g in
  if (lives g1 <=? 0)%Z then gameOver g1
  else
    set_ship
      (Ship.with_obj
         (fun o =>
            GameObject.set_rotation 0
              (GameObject.set_velocity (mkVector2D 0 0)
                 (GameObject.set_position
                    (mkVector2D (x canvasSize / 2) (y canvasSize / 2))
                    o)))
         (ship g1))
      g1.

(** [nextLevel()] *)
Definition nextLevel (fuel : nat) (g : t) : option t :=
  createAsteroids fuel (set_level (level g + 1) g).

(** The inner loop of the bullet-asteroid pass for the bullet at index
    [i], about to look at the asteroid at index [j1 - 1]. An index past
    the end of the array does not occur. *)
Fixpoint scanAsteroids (bullet : Bullet.t) (i : nat) (j1 : nat) (g : t)
    : t :=
  match j1 with
  | O => g
  | S j =>
      match nth_error (asteroids g) j with
      | None => scanAsteroids bullet i j g
      | Some asteroid =>
          if collidesWith bullet asteroid then
            let g1 := set_bullets (splice1 i (bullets g)) g in
            let g2 := set_asteroids (splice1 j (asteroids g1)) g1 in
            let g3 := addScore (Asteroid.getSize asteroid) g2 in
            breakAsteroid asteroid g3
          else scanAsteroids bullet i j g
      end
  end.

(** The outer loop, about to look at the bullet at index [i1 - 1]. *)
Fixpoint scanBullets (i1 : nat) (g : t) : t :=
  match i1 with
  | O => g
  | S i =>
      match nth_error (bullets g) i with
      | None => scanBullets i g
      | Some bullet =>
          scanBullets i
            (scanAsteroids bullet i (length (asteroids g)) g)
      end
  end.

(** The ship-asteroid loop over the asteroids still to visit. *)
Fixpoint scanShip (rest : list Asteroid.t) (g : t) : t :=
  match rest with
  | [] => g
  | asteroid :: rest' =>
      if collidesWith (ship g) asteroid then loseLife g
      else scanShip rest' g
  end.

(** [checkCollisions()] *)
Definition checkCollisions (fuel : nat) (g : t) : option t :=
  if negb (GameState_eqb (state g) PLAYING) then Some g else
  let g1 := scanBullets (length (bullets g)) g in
  let g2 := scanShip (asteroids g1) g1 in
  if (length (asteroids g2) =? 0)%nat then nextLevel fuel g2
  else Some g2.

(** [update(currentTime)], one frame; drawing is left out. *)
Definition update (fuel : nat) (currentTime : R) (g : t) : option t :=
  let deltaTime := (currentTime - lastTime g) / 1000 in
  let g1 := set_lastTime currentTime g in
  let g2 := handleInput deltaTime g1 in
  let g3 := updateGameObjects deltaTime g2 in
  checkCollisions fuel g3.

(** [start()]; [now] is [performance.now()]. *)
Definition start (now : R) (g : t) : t := set_lastTime now g.

(** The handler that [setupWindowResize] registers for the window's
    [resize] event: [renderer.resize()], and nothing else. The canvas gets
    its new size and new stars, for which [Math.random()] is called; no
    entity of the game is touched. The result is the new canvas size and
    the game. *)
Definition onResize (innerWidth innerHeight : R) (g : t) : Vector2D * t :=
  let '(canvasSize', _, k) :=
    VectorRenderer.resize random innerWidth innerHeight (randomCalls g) in
  (canvasSize', set_randomCalls k g).

(** [render()]: the calls on the renderer, in order. *)
Definition render (g : t) : list VectorRenderer.Call :=
  let centre := mkVector2D (x canvasSize / 2) (y canvasSize / 2) in
  let lower := mkVector2D (x canvasSize / 2) (y canvasSize / 2 + 40) in
  [VectorRenderer.Clear (1 / 60)]
  ++ (if GameObject.active (Ship.obj (ship g))
      then [VectorRenderer.DrawShape (Ship.getShape (ship g))
              (Ship.position (ship g)) (Ship.rotation (ship g)) 1]
      else [])
  ++ map (fun asteroid =>
            VectorRenderer.DrawShape (Asteroid.getShape asteroid)
              (Asteroid.position asteroid)
              (GameObject.rotation (Asteroid.obj asteroid))
              (GameObject.scale (Asteroid.obj asteroid)))
         (asteroids g)
  ++ map (fun bullet =>
            VectorRenderer.DrawShape (Bullet.getShape bullet)
              (Bullet.position bullet)
              (GameObject.rotation (Bullet.obj bullet)) 1)
         (bullets g)
  ++ match state g with
     | READY =>
         [VectorRenderer.DrawText "PRESS SPACE TO START" centre "#00ff00" 24;
          VectorRenderer.DrawText
            "ARROW KEYS OR WASD TO MOVE • SPACE TO FIRE • P TO PAUSE"
            lower "#00ff00" 14]
     | PAUSED => [VectorRenderer.DrawText "PAUSED" centre "#ffff00" 32]
     | GAME_OVER =>
         let isHighScore :=
           HighScoreManager.isHighScore (score g) (highScores g) in
         [VectorRenderer.DrawText
            (if isHighScore then "NEW HIGH SCORE!" else "GAME OVER")
            centre (if isHighScore then "#ffff00" else "#ff0000") 32;
          VectorRenderer.DrawText "PRESS SPACE TO RESTART" lower
            "#ff0000" 18]
     | PLAYING => []
     end.

End Environment.

(** What the browser delivers to the game: key events, and animation
    frames with their time stamp. *)
Inductive Event : Type :=
| KeyDown (code : string)
| KeyUp (code : string)
| Frame (currentTime : R).

Section Run.

Variable random : nat -> R.
Variable canvasSize : Vector2D.
Variable today : string.

Definition step (fuel : nat) (e : Event) (g : t) : option t :=
  match e with
  | KeyDown code => keydown random canvasSize fuel code g
  | KeyUp code => Some (keyup code g)
  | Frame currentTime => update random canvasSize today fuel currentTime g
  end.

(** Consecutive animation frames at the given times. *)
Fixpoint frames (fuel : nat) (times : list R) (g : t) : option t :=
  match times with
  | [] => Some g
  | currentTime :: times' =>
      match step fuel (Frame currentTime) g with
      | None => None
      | Some g1 => frames fuel times' g1
      end
  end.

End Run.

(** The states a session goes through, each with the size that the canvas
    has then: the game as constructed and started, what the key events and
    the frames make of it, and what a resize of the window makes of it. *)
Inductive reachable (random : nat -> R)
    : Vector2D -> string -> t -> Prop :=
| reachable_start (canvasSize : Vector2D) (today : string) (fuel : nat)
    (statusText0 : string) (stored : HighScoreManager.Storage) (k : nat)
    (now : R) (g : t) :
    new random canvasSize fuel statusText0 stored k = Some g ->
    reachable random canvasSize today (start now g)
| reachable_step (canvasSize : Vector2D) (today : string) (fuel : nat)
    (e : Event) (g g' : t) :
    reachable random canvasSize today g ->
    step random canvasSize today fuel e g = Some g' ->
    reachable random canvasSize today g'
| reachable_resize (canvasSize : Vector2D) (today : string)
    (innerWidth innerHeight : R) (g : t) :
    reachable random canvasSize today g ->
    reachable random
      (fst (onResize random innerWidth innerHeight g)) today
      (snd (onResize random innerWidth innerHeight g)).

End Game.

(** ** Vocabulary of the properties *)

(** Euclidean distance between two points. *)
Definition distance (p q : Vector2D) : R :=
  sqrt ((x p - x q) * (x p - x q) + (y p - y q) * (y p - y q)).

(** The position of an entity of any kind. *)
Definition positionOf {A : Type} `{Entity A} (e : A) : Vector2D :=
  GameObject.position (base e).

(** Length of a vector. *)
Definition magnitude (v : Vector2D) : R := sqrt (x v * x v + y v * y v).

(** A point of the closed canvas rectangle. *)
Definition inBounds (canvasSize p : Vector2D) : Prop :=
  0 <= x p <= x canvasSize /\ 0 <= y p <= y canvasSize.

(** [wrapPosition] on a point. *)
Definition wrapPoint (canvasSize p : Vector2D) : Vector2D :=
  mkVector2D (GameObject.wrapAxis (x canvasSize) (x p))
             (GameObject.wrapAxis (y canvasSize) (y p)).

(** The thrust step as the specification words it: the change of velocity
    is proportional to the commanded thrust level. *)
Definition applyThrust_spec (deltaTime : R) (s : Ship.t) : Ship.t :=
  if Ship.thrust s >? 0 then
    Ship.with_obj
      (GameObject.set_velocity
         (mkVector2D
            (x (Ship.velocity s)
             + sin (Ship.rotation s) * Ship.thrustPower * Ship.thrust s
               * deltaTime)
            (y (Ship.velocity s)
             + - cos (Ship.rotation s) * Ship.thrustPower * Ship.thrust s
               * deltaTime))) s
  else s.

(** Points awarded for an asteroid of a size class. *)
Definition points (sz : AsteroidSize) : Z :=
  match sz with large => 20 | medium => 50 | small => 100 end%Z.

(** Number and size class of the pieces an asteroid breaks into. *)
Definition fragmentCount (sz : AsteroidSize) : nat :=
  match sz with large => 2 | medium => 2 | small => 0 end%nat.

Definition fragmentSize (sz : AsteroidSize) : AsteroidSize :=
  match sz with large => medium | medium => small | small => small end.

(** The point that calls [k] and [k + 1] of [Math.random()] give is far
    enough from [p] for [createAsteroids] to keep it. *)
Definition accepted (random : nat -> R) (canvasSize p : Vector2D) (k : nat)
    : Prop :=
  ~ (Rabs (random k * x canvasSize - x p) < 100
     /\ Rabs (random (k + 1)%nat * y canvasSize - y p) < 100).

(** Whenever [createAsteroids] starts to draw a point, one of the points it
    draws is kept. *)
Definition spawnsEventually (random : nat -> R) (canvasSize p : Vector2D)
    : Prop :=
  forall k : nat, exists n : nat, accepted random canvasSize p (k + 2 * n)%nat.

(** Every entity of the game is within the canvas rectangle. *)
Definition allInBounds (canvasSize : Vector2D) (g : Game.t) : Prop :=
  inBounds canvasSize (Ship.position (Game.ship g))
  /\ Forall (fun a => inBounds canvasSize (Asteroid.position a))
            (Game.asteroids g)
  /\ Forall (fun b => inBounds canvasSize (Bullet.position b))
            (Game.bullets g).

(** The frame at time [currentTime] adds a bullet in its input phase. *)
Definition spawnsBullet (currentTime : R) (g : Game.t) : Prop :=
  let deltaTime := (currentTime - Game.lastTime g) / 1000 in
  length (Game.bullets
            (Game.handleInput deltaTime (Game.set_lastTime currentTime g)))
  = S (length (Game.bullets g)).

(** The game after the bullet at index [i] has destroyed the asteroid [a]
    at index [j]: the body of the [if] in the bullet-asteroid loop. *)
Definition hitResult (random : nat -> R) (i j : nat) (a : Asteroid.t)
    (g : Game.t) : Game.t :=
  Game.breakAsteroid random a
    (Game.addScore (Asteroid.getSize a)
       (Game.set_asteroids (splice1 j (Game.asteroids g))
          (Game.set_bullets (splice1 i (Game.bullets g)) g))).

(** Points and pieces of a list of destroyed asteroids. *)
Definition totalPoints (hits : list (Bullet.t * Asteroid.t)) : Z :=
  fold_right (fun h acc => (points (Asteroid.size (snd h)) + acc)%Z) 0%Z hits.

Definition totalFragments (hits : list (Bullet.t * Asteroid.t)) : nat :=
  fold_right (fun h acc => (fragmentCount (Asteroid.size (snd h)) + acc)%nat)
             0%nat hits.

(** The states of a session during which the window is not resized: the
    canvas has the size [canvasSize] throughout. *)
Inductive reachableUnresized (random : nat -> R) (canvasSize : Vector2D)
    (today : string) : Game.t -> Prop :=
| unresized_start (fuel : nat) (statusText0 : string)
    (stored : HighScoreManager.Storage) (k : nat) (now : R) (g : Game.t) :
    Game.new random canvasSize fuel statusText0 stored k = Some g ->
    reachableUnresized random canvasSize today (Game.start now g)
| unresized_step (fuel : nat) (e : Game.Event) (g g' : Game.t) :
    reachableUnresized random canvasSize today g ->
    Game.step random canvasSize today fuel e g = Some g' ->
    reachableUnresized random canvasSize today g'.

(** The two collision passes of [checkCollisions], before the level
    check. *)
Definition afterBulletPass (random : nat -> R) (g : Game.t) : Game.t :=
  Game.scanBullets random (length (Game.bullets g)) g.

Definition afterShipPass (canvasSize : Vector2D) (today : string)
    (g : Game.t) : Game.t :=
  Game.scanShip canvasSize today (Game.asteroids g) g.

(** The game that the collision phase of the frame at [currentTime] starts
    from: [g] after the input phase and the movement of the entities. *)
Definition afterMovement (canvasSize : Vector2D) (currentTime : R)
    (g : Game.t) : Game.t :=
  let deltaTime := (currentTime - Game.lastTime g) / 1000 in
  Game.updateGameObjects canvasSize deltaTime
    (Game.handleInput deltaTime (Game.set_lastTime currentTime g)).

(** The simulated time that the frames at [times] add up to, after a frame
    at time [last]: each frame's [deltaTime] is the time since the frame
    before it, in seconds. *)
Fixpoint accumulated (last : R) (times : list R) : R :=
  match times with
  | [] => 0
  | currentTime :: times' =>
      (currentTime - last) / 1000 + accumulated currentTime times'
  end.

(** Sample data for the examples: a random source that always returns 0,
    an 800 x 600 canvas, and a game in PLAYING with the ship at the
    centre. *)
Definition zeroRandom : nat -> R := fun _ => 0.

Definition sampleCanvas : Vector2D := mkVector2D 800 600.

Definition sampleDate : string := "1/1/2026".

(** A [localStorage] that works and holds nothing. *)
Definition sampleStorage : HighScoreManager.Storage :=
  HighScoreManager.mkStorage HighScoreManager.Absent false false false.

Definition sampleAsteroid (px py : R) (sz : AsteroidSize) : Asteroid.t :=
  fst (Asteroid.new zeroRandom px py sz 0).

Definition sampleGame (asts : list Asteroid.t) (bs : list Bullet.t)
    (st : GameState) : Game.t :=
  {| Game.ship := Ship.new 400 300;
     Game.asteroids := asts;
     Game.bullets := bs;
     Game.state := st;
     Game.score := 0;
     Game.lives := 3;
     Game.level := 1;
     Game.lastTime := 0;
     Game.fireDelay := 0;
     Game.statusText := "READY";
     Game.keys := [];
     Game.highScores := sampleStorage;
     Game.randomCalls := 0 |}.

(** The two loops of the bullet-asteroid pass with the failure of the
    source made explicit: reading [asteroids[j]] or [bullets[i]] past the
    end of the array gives [undefined], and the call on it throws ([None]
    here). *)
Fixpoint scanAsteroidsStrict (random : nat -> R) (bullet : Bullet.t)
    (i j1 : nat) (g : Game.t) : option Game.t :=
  match j1 with
  | O => Some g
  | S j =>
      match nth_error (Game.asteroids g) j with
      | None => None
      | Some asteroid =>
          if collidesWith bullet asteroid
          then Some (hitResult random i j asteroid g)
          else scanAsteroidsStrict random bullet i j g
      end
  end.

Fixpoint scanBulletsStrict (random : nat -> R) (i1 : nat) (g : Game.t)
    : option Game.t :=
  match i1 with
  | O => Some g
  | S i =>
      match nth_error (Game.bullets g) i with
      | None => None
      | Some bullet =>
          match scanAsteroidsStrict random bullet i
                  (length (Game.asteroids g)) g with
          | None => None
          | Some g1 => scanBulletsStrict random i g1
          end
      end
  end.

(** A random source that returns 0, 0, 0.99, 0.99, 0, 0, ...: of two
    points drawn one after the other, one is at the left edge of the canvas
    and the other near the right edge. *)
Definition fairRandom : nat -> R :=
  fun k => if Nat.even (k / 2) then 0 else 99 / 100.



(** ** Vocabulary of the high-score properties *)

(** Descending order of the keys. *)
Definition descending {A : Type} (key : A -> Z) (a b : A) : Prop :=
  (key b <= key a)%Z.

(** The stored scores that are at least [sc], and those below it. *)
Definition atLeast (sc : Z) (l : list HighScoreManager.HighScoreEntry)
    : list HighScoreManager.HighScoreEntry :=
  filter (fun e => (sc <=? HighScoreManager.score e)%Z) l.

Definition below (sc : Z) (l : list HighScoreManager.HighScoreEntry)
    : list HighScoreManager.HighScoreEntry :=
  filter (fun e => (HighScoreManager.score e <? sc)%Z) l.

(** A board as the game keeps it: at most ten entries, best first. *)
Definition board (l : list HighScoreManager.HighScoreEntry) : Prop :=
  (length l <= HighScoreManager.MAX_SCORES)%nat
  /\ StronglySorted (descending HighScoreManager.score) l.

(** ** Vocabulary of the session invariants *)

(** What holds of the counters, the state and the field between events. *)
Definition sessionOk (g : Game.t) : Prop :=
  (1 <= Game.level g)%Z
  /\ (0 <= Game.score g)%Z
  /\ (exists n : Z, Game.score g = 10 * n)%Z
  /\ (Game.state g = GAME_OVER -> Game.lives g = 0%Z)
  /\ (Game.state g <> GAME_OVER -> (1 <= Game.lives g <= 3)%Z)
  /\ Game.asteroids g <> []
  /\ (Game.state g = PLAYING -> Game.statusText g = "PLAYING"%string)
  /\ (Game.state g = PAUSED -> Game.statusText g = "PAUSED"%string)
  /\ (Game.state g = GAME_OVER ->
      Game.statusText g = "GAME OVER"%string
      \/ Game.statusText g = "NEW HIGH SCORE!"%string).

(** What holds of every ship, asteroid and bullet between events. *)
Definition shipOk (s : Ship.t) : Prop :=
  magnitude (Ship.velocity s) <= 294
  /\ 0 <= Ship.thrust s <= 1
  /\ GameObject.active (Ship.obj s) = true
  /\ GameObject.scale (Ship.obj s) = 1.

Definition asteroidOk (a : Asteroid.t) : Prop :=
  GameObject.scale (Asteroid.obj a) = Asteroid.scaleOf (Asteroid.size a)
  /\ getCollisionRadius a
     = match Asteroid.size a with large => 20 | medium => 12 | small => 6 end
  /\ 50 <= magnitude (Asteroid.velocity a) < 150
  /\ -1 <= Asteroid.rotationSpeed a < 1
  /\ GameObject.active (Asteroid.obj a) = true.

Definition bulletOk (b : Bullet.t) : Prop :=
  Bullet.active b = true
  /\ Bullet.lifeTime b <= 2
  /\ magnitude (Bullet.velocity b) = 400.

Definition entitiesOk (g : Game.t) : Prop :=
  shipOk (Game.ship g)
  /\ Forall asteroidOk (Game.asteroids g)
  /\ Forall bulletOk (Game.bullets g).

(** ** Vocabulary of the score accounting *)

(** The points that an asteroid and all the pieces it breaks into are
    worth, and the number of hits it takes to clear them. *)
Definition worth (sz : AsteroidSize) : Z :=
  match sz with large => 520 | medium => 250 | small => 100 end%Z.

Definition hitsToClear (sz : AsteroidSize) : nat :=
  match sz with large => 7 | medium => 3 | small => 1 end%nat.

Definition totalWorth (l : list Asteroid.t) : Z :=
  fold_right (fun a acc => (worth (Asteroid.size a) + acc)%Z) 0%Z l.

Definition totalHitsToClear (l : list Asteroid.t) : nat :=
  fold_right (fun a acc => (hitsToClear (Asteroid.size a) + acc)%nat) 0%nat l.

(** ** Vocabulary of the drawing *)

(** The stars after the [clear] calls of the frames with the given
    [deltaTime]s. *)
Fixpoint clears (canvasSize : Vector2D) (deltas : list R)
    (stars : list Star.t) : list Star.t :=
  match deltas with
  | [] => stars
  | deltaTime :: rest =>
      clears canvasSize rest
        (fst (VectorRenderer.clear canvasSize deltaTime stars))
  end.

(** A disc of a star: within the canvas, with an opacity from 0.064 up
    to 0.8. *)
Definition starDisc (canvasSize : Vector2D) (p : VectorRenderer.Paint)
    : Prop :=
  exists (red green blue : Z) (alpha cx cy radius : R),
    p = VectorRenderer.FillDisc (VectorRenderer.Rgba red green blue alpha)
          cx cy radius
    /\ 64 / 1000 <= alpha < 8 / 10
    /\ 0 <= cx <= x canvasSize /\ 0 <= cy <= y canvasSize
    /\ 0 < radius <= 1.

(** The banner that [render] draws in the middle of the canvas. *)
Definition banner (canvasSize : Vector2D) (text color : string)
    : VectorRenderer.Call :=
  VectorRenderer.DrawText text
    (mkVector2D (x canvasSize / 2) (y canvasSize / 2)) color 32.

(** ** Vocabulary of the sessions *)

(** The events of a list, one after the other. *)
Fixpoint run (random : nat -> R) (canvasSize : Vector2D) (today : string)
    (fuel : nat) (events : list Game.Event) (g : Game.t) : option Game.t :=
  match events with
  | [] => Some g
  | e :: rest =>
      match Game.step random canvasSize today fuel e g with
      | None => None
      | Some g1 => run random canvasSize today fuel rest g1
      end
  end.

(** What a restart keeps of the game before: the time of the last frame,
    the fire delay and the pressed keys. *)
Definition carriedOver (old g : Game.t) : Game.t :=
  Game.set_lastTime (Game.lastTime old)
    (Game.set_fireDelay (Game.fireDelay old)
       (Game.set_keys (Game.keys old) g)).

(** ** Vocabulary of the motion *)

(** The point that an entity at [p] with velocity [v] reaches in
    [deltaTime] when nothing wraps. *)
Definition ahead (p v : Vector2D) (deltaTime : R) : Vector2D :=
  mkVector2D (x p + x v * deltaTime) (y p + y v * deltaTime).

(** ** Vocabulary of the star field *)

(** A star as [generateStarfield] makes it: within the canvas, with a
    brightness from 0.2 up to 1. *)
Definition starOk (canvasSize : Vector2D) (s : Star.t) : Prop :=
  0 <= Star.x s <= x canvasSize
  /\ 0 <= Star.y s <= y canvasSize
  /\ 2 / 10 <= Star.brightness s < 1.

(** What of a star does not change: its place and its brightness. *)
Definition fixedPart (s : Star.t) : R * R * R :=
  (Star.x s, Star.y s, Star.brightness s).

(** * Properties *)

(** ** Comparisons *)

Lemma Rltb_true (a b : R) : (a <? b) = true <-> a < b.
Proof. unfold Rltb; destruct (Rlt_dec a b); split; intros; congruence || lra. Qed.

Lemma Rltb_false (a b : R) : (a <? b) = false <-> b <= a.
Proof. unfold Rltb; destruct (Rlt_dec a b); split; intros; congruence || lra. Qed.

Lemma Rleb_true (a b : R) : (a <=? b) = true <-> a <= b.
Proof. unfold Rleb; destruct (Rle_dec a b); split; intros; congruence || lra. Qed.

Lemma Rleb_false (a b : R) : (a <=? b) = false <-> b < a.
Proof. unfold Rleb; destruct (Rle_dec a b); split; intros; congruence || lra. Qed.

Lemma Rgtb_true (a b : R) : (a >? b) = true <-> a > b.
Proof. unfold Rgtb; rewrite Rltb_true; lra. Qed.

Lemma Rgtb_false (a b : R) : (a >? b) = false <-> a <= b.
Proof. unfold Rgtb; rewrite Rltb_false; lra. Qed.

(** Case analysis on every comparison of reals that the goal tests. *)
Ltac Rcases :=
  repeat match goal with
  | |- context [Rltb ?a ?b] =>
      let E := fresh "E" in
      destruct (Rltb a b) eqn:E;
      [apply Rltb_true in E | apply Rltb_false in E]
  | |- context [Rleb ?a ?b] =>
      let E := fresh "E" in
      destruct (Rleb a b) eqn:E;
      [apply Rleb_true in E | apply Rleb_false in E]
  end.

(** ** Screen wrap *)

Lemma wrapAxis_cases (bound c : R) :
  GameObject.wrapAxis bound c
  = if c <? 0 then bound else if c >? bound then 0 else c.
Proof.
  unfold GameObject.wrapAxis, Rgtb. Rcases; try reflexivity; lra.
Qed.

Lemma wrapAxis_in_bounds (bound c : R) :
  0 <= bound -> 0 <= GameObject.wrapAxis bound c <= bound.
Proof.
  intros Hb. rewrite wrapAxis_cases. unfold Rgtb. Rcases; lra.
Qed.

(** C7. Screen wrap, one axis at a time, for a bound that is a size
    ([0 <= bound]): a coordinate below 0 becomes the bound, a coordinate
    above the bound becomes 0, a coordinate within [[0, bound]] (so 0 and
    the bound themselves) stays; -1 goes to the bound and bound + 1 goes to
    0, where a modulo would give bound - 1 and 1. [wrapPosition] applies
    this rule to [x] with the width and to [y] with the height and touches
    nothing else. *)
Theorem wrapPosition_rule (bound c : R) (canvasSize : Vector2D)
    (o : GameObject.t) :
  0 <= bound ->
  (c < 0 -> GameObject.wrapAxis bound c = bound) /\
  (c > bound -> GameObject.wrapAxis bound c = 0) /\
  (0 <= c <= bound -> GameObject.wrapAxis bound c = c) /\
  GameObject.wrapAxis bound 0 = 0 /\
  GameObject.wrapAxis bound bound = bound /\
  GameObject.wrapAxis bound (-1) = bound /\
  GameObject.wrapAxis bound (bound + 1) = 0 /\
  GameObject.wrapPosition canvasSize o
  = GameObject.mk
      (mkVector2D
         (GameObject.wrapAxis (x canvasSize) (x (GameObject.position o)))
         (GameObject.wrapAxis (y canvasSize) (y (GameObject.position o))))
      (GameObject.velocity o) (GameObject.rotation o) (GameObject.scale o)
      (GameObject.active o).
Proof.
  intros Hb.
  repeat split; try intros Hc; rewrite ?wrapAxis_cases; unfold Rgtb;
    Rcases; try reflexivity; lra.
Qed.

(** On an axis of size 800: -1 goes to 800 and 801 goes to 0. *)
Lemma wrapPosition_rule_witness :
  0 <= 800 /\
  GameObject.wrapAxis 800 (-1) = 800 /\
  GameObject.wrapAxis 800 (800 + 1) = 0.
Proof.
  split; [lra|].
  pose proof (wrapPosition_rule 800 0 (mkVector2D 800 600)
                (GameObject.new 0 0) ltac:(lra)) as H.
  split; apply H.
Defined.

(** ** Collision test *)

Lemma collidesWith_iff {A B : Type} `{Entity A} `{Entity B}
    (this : A) (other : B) :
  collidesWith this other = true
  <-> distance (positionOf this) (positionOf other)
      < getCollisionRadius this + getCollisionRadius other.
Proof.
  unfold collidesWith, distance, positionOf. apply Rltb_true.
Qed.

Lemma distance_sym (p q : Vector2D) : distance p q = distance q p.
Proof. unfold distance. f_equal. ring. Qed.

Lemma collidesWith_sym {A B : Type} `{Entity A} `{Entity B}
    (this : A) (other : B) :
  collidesWith this other = collidesWith other this.
Proof.
  destruct (collidesWith this other) eqn:E1;
    destruct (collidesWith other this) eqn:E2; try reflexivity.
  - apply collidesWith_iff in E1. rewrite distance_sym, Rplus_comm in E1.
    apply collidesWith_iff in E1. congruence.
  - apply collidesWith_iff in E2. rewrite distance_sym, Rplus_comm in E2.
    apply collidesWith_iff in E2. congruence.
Qed.

Lemma asteroid_new_radius (random : nat -> R) (px py : R)
    (sz : AsteroidSize) (k : nat) :
  getCollisionRadius (fst (Asteroid.new random px py sz k))
  = match sz with large => 20 | medium => 12 | small => 6 end.
Proof. destruct sz; simpl; lra. Qed.

(** C6. Two entities of any kinds collide exactly when the distance between
    their positions is below the sum of their radii; at a distance equal
    to that sum they do not. The radius is 12 for the ship, 20 times its
    scale for an asteroid, which is 20, 12 and 6 for a large, a medium and
    a small asteroid as the constructor makes them, and 2 for a bullet. *)
Theorem collidesWith_strict_distance :
  (forall (A B : Type) (EA : Entity A) (EB : Entity B) (this : A) (other : B),
      (collidesWith this other = true
       <-> distance (positionOf this) (positionOf other)
           < getCollisionRadius this + getCollisionRadius other)
      /\ (distance (positionOf this) (positionOf other)
          = getCollisionRadius this + getCollisionRadius other
          -> collidesWith this other = false)) /\
  (forall s : Ship.t, getCollisionRadius s = 12) /\
  (forall a : Asteroid.t,
      getCollisionRadius a = 20 * GameObject.scale (Asteroid.obj a)) /\
  (forall random px py sz k,
      getCollisionRadius (fst (Asteroid.new random px py sz k))
      = match sz with large => 20 | medium => 12 | small => 6 end) /\
  (forall b : Bullet.t, getCollisionRadius b = 2).
Proof.
  split; [|split; [|split; [|split]]].
  - intros A B EA EB this other. split.
    + apply collidesWith_iff.
    + intros Heq. destruct (collidesWith this other) eqn:E; [|reflexivity].
      apply collidesWith_iff in E. lra.
  - reflexivity.
  - reflexivity.
  - apply asteroid_new_radius.
  - reflexivity.
Qed.

(** A bullet 14 units to the right of a medium asteroid (radii 2 and 12)
    touches it and does not collide; one unit closer it does. *)
Example collidesWith_touching :
  let a := fst (Asteroid.new (fun _ => 0) 100 100 medium 0) in
  collidesWith (Bullet.new 114 100 0) a = false
  /\ collidesWith (Bullet.new 113 100 0) a = true.
Proof.
  split.
  - apply Rltb_false. simpl.
    replace ((114 - 100) * (114 - 100) + (100 - 100) * (100 - 100))
      with (14 * 14) by ring.
    rewrite sqrt_square; lra.
  - apply Rltb_true. simpl.
    replace ((113 - 100) * (113 - 100) + (100 - 100) * (100 - 100))
      with (13 * 13) by ring.
    rewrite sqrt_square; lra.
Qed.

(** ** Ship kinematics *)

Lemma magnitude_sqr (v : Vector2D) :
  magnitude v * magnitude v = x v * x v + y v * y v.
Proof. unfold magnitude. apply sqrt_sqrt. nra. Qed.

Lemma magnitude_le (v : Vector2D) (m : R) :
  0 <= m -> x v * x v + y v * y v <= m * m -> magnitude v <= m.
Proof.
  intros Hm Hle. unfold magnitude.
  rewrite <- (sqrt_square m Hm). apply sqrt_le_1_alt. exact Hle.
Qed.

Lemma rescale_magnitude (v : Vector2D) (m : R) :
  0 <= m -> magnitude v > 0 ->
  magnitude (mkVector2D (x v / magnitude v * m) (y v / magnitude v * m)) = m.
Proof.
  intros Hm Hs. unfold magnitude at 1. simpl.
  pose proof (magnitude_sqr v) as Hsq.
  set (sp := magnitude v) in *.
  replace (x v / sp * m * (x v / sp * m) + y v / sp * m * (y v / sp * m))
    with (m * m).
  - apply sqrt_square. exact Hm.
  - field_simplify_eq; [|lra]. rewrite <- (Rmult_1_r (m ^ 2 * sp ^ 2)).
    replace (sp ^ 2) with (x v * x v + y v * y v) by (rewrite <- Hsq; ring).
    ring.
Qed.

Lemma limitSpeed_velocity (s : Ship.t) :
  Ship.velocity (Ship.limitSpeed s)
  = if magnitude (Ship.velocity s) >? Ship.maxSpeed
    then mkVector2D
           (x (Ship.velocity s) / magnitude (Ship.velocity s) * Ship.maxSpeed)
           (y (Ship.velocity s) / magnitude (Ship.velocity s) * Ship.maxSpeed)
    else Ship.velocity s.
Proof.
  unfold Ship.limitSpeed, magnitude.
  destruct (_ >? Ship.maxSpeed); reflexivity.
Qed.

Lemma limitSpeed_bound (s : Ship.t) :
  magnitude (Ship.velocity (Ship.limitSpeed s)) <= Ship.maxSpeed.
Proof.
  rewrite limitSpeed_velocity.
  destruct (magnitude (Ship.velocity s) >? Ship.maxSpeed) eqn:E.
  - apply Rgtb_true in E. unfold Ship.maxSpeed in *.
    rewrite rescale_magnitude; lra.
  - apply Rgtb_false in E. exact E.
Qed.

Lemma Ship_update_velocity (deltaTime : R) (canvasSize : Vector2D)
    (s : Ship.t) :
  Ship.velocity (Ship.update deltaTime canvasSize s)
  = mkVector2D
      (x (Ship.velocity (Ship.limitSpeed (Ship.applyThrust deltaTime s)))
       * Ship.friction)
      (y (Ship.velocity (Ship.limitSpeed (Ship.applyThrust deltaTime s)))
       * Ship.friction).
Proof. reflexivity. Qed.

Lemma Ship_update_position (deltaTime : R) (canvasSize : Vector2D)
    (s : Ship.t) :
  Ship.position (Ship.update deltaTime canvasSize s)
  = wrapPoint canvasSize
      (mkVector2D
         (x (Ship.position (Ship.limitSpeed (Ship.applyThrust deltaTime s)))
          + x (Ship.velocity (Ship.update deltaTime canvasSize s))
            * deltaTime)
         (y (Ship.position (Ship.limitSpeed (Ship.applyThrust deltaTime s)))
          + y (Ship.velocity (Ship.update deltaTime canvasSize s))
            * deltaTime)).
Proof. reflexivity. Qed.

Lemma limitSpeed_keeps (s : Ship.t) :
  Ship.position (Ship.limitSpeed s) = Ship.position s
  /\ Ship.rotation (Ship.limitSpeed s) = Ship.rotation s
  /\ Ship.thrust (Ship.limitSpeed s) = Ship.thrust s.
Proof.
  unfold Ship.limitSpeed. destruct (_ >? Ship.maxSpeed); repeat split.
Qed.

Lemma applyThrust_keeps (deltaTime : R) (s : Ship.t) :
  Ship.position (Ship.applyThrust deltaTime s) = Ship.position s
  /\ Ship.rotation (Ship.applyThrust deltaTime s) = Ship.rotation s
  /\ Ship.thrust (Ship.applyThrust deltaTime s) = Ship.thrust s.
Proof.
  unfold Ship.applyThrust. destruct (_ >? 0); repeat split.
Qed.

(** C1, as the code has it. With a commanded thrust above 0 the velocity
    first gains (sin rotation, -cos rotation) * thrustPower * deltaTime,
    whatever the level (which is the announced change scaled by the level
    only when the level is 1); then a speed above maxSpeed is rescaled to
    maxSpeed, dividing by a speed that is positive; then the velocity is
    multiplied once by the friction constant, which is below 1 and does not
    depend on deltaTime; then the position gains velocity * deltaTime and
    is wrapped. Rotation and thrust level are not changed. *)
Theorem Ship_update_steps (deltaTime : R) (canvasSize : Vector2D)
    (s : Ship.t) :
  Ship.thrust s > 0 ->
  let v1 :=
    mkVector2D
      (x (Ship.velocity s)
       + sin (Ship.rotation s) * Ship.thrustPower * deltaTime)
      (y (Ship.velocity s)
       + - cos (Ship.rotation s) * Ship.thrustPower * deltaTime) in
  let s' := Ship.update deltaTime canvasSize s in
  exists v2 : Vector2D,
    (magnitude v1 > Ship.maxSpeed ->
       magnitude v1 > 0
       /\ v2 = mkVector2D (x v1 / magnitude v1 * Ship.maxSpeed)
                          (y v1 / magnitude v1 * Ship.maxSpeed)
       /\ magnitude v2 = Ship.maxSpeed)
    /\ (magnitude v1 <= Ship.maxSpeed -> v2 = v1)
    /\ Ship.velocity s'
       = mkVector2D (x v2 * Ship.friction) (y v2 * Ship.friction)
    /\ Ship.friction < 1
    /\ Ship.position s'
       = wrapPoint canvasSize
           (mkVector2D
              (x (Ship.position s) + x (Ship.velocity s') * deltaTime)
              (y (Ship.position s) + y (Ship.velocity s') * deltaTime))
    /\ Ship.rotation s' = Ship.rotation s
    /\ Ship.thrust s' = Ship.thrust s
    /\ (Ship.thrust s = 1 ->
        Ship.applyThrust deltaTime s = applyThrust_spec deltaTime s).
Proof.
  intros Ht v1 s'.
  assert (Hv1 : Ship.velocity (Ship.applyThrust deltaTime s) = v1).
  { unfold Ship.applyThrust. apply Rgtb_true in Ht. rewrite Ht. reflexivity. }
  exists (Ship.velocity (Ship.limitSpeed (Ship.applyThrust deltaTime s))).
  rewrite limitSpeed_velocity, Hv1.
  split; [|split; [|split; [|split; [|split; [|split; [|split]]]]]].
  - intros Hgt. pose proof Hgt as Hgt'. apply Rgtb_true in Hgt'.
    rewrite Hgt'. unfold Ship.maxSpeed in *.
    split; [lra|]. split; [reflexivity|].
    apply rescale_magnitude; lra.
  - intros Hle. apply Rgtb_false in Hle. rewrite Hle. reflexivity.
  - subst s'. rewrite Ship_update_velocity, limitSpeed_velocity, Hv1.
    reflexivity.
  - unfold Ship.friction. lra.
  - subst s'. rewrite Ship_update_position.
    destruct (limitSpeed_keeps (Ship.applyThrust deltaTime s)) as [-> _].
    destruct (applyThrust_keeps deltaTime s) as [-> _]. reflexivity.
  - subst s'.
    change (Ship.rotation (Ship.limitSpeed (Ship.applyThrust deltaTime s))
            = Ship.rotation s).
    destruct (limitSpeed_keeps (Ship.applyThrust deltaTime s))
      as (_ & -> & _).
    apply applyThrust_keeps.
  - subst s'.
    change (Ship.thrust (Ship.limitSpeed (Ship.applyThrust deltaTime s))
            = Ship.thrust s).
    destruct (limitSpeed_keeps (Ship.applyThrust deltaTime s))
      as (_ & _ & ->).
    apply applyThrust_keeps.
  - intros H1. unfold Ship.applyThrust, applyThrust_spec.
    rewrite H1. replace (1 >? 0) with true
      by (symmetry; apply Rgtb_true; lra).
    unfold Ship.with_obj. do 3 f_equal; ring.
Qed.

Lemma setThrust_level (level : R) (s : Ship.t) :
  0 <= level <= 1 -> Ship.thrust (Ship.setThrust level s) = level.
Proof.
  intros Hl. simpl. unfold Rmax, Rmin.
  destruct (Rle_dec 1 level); destruct (Rle_dec 0 _); lra.
Qed.

(** A ship at the centre of an 800 x 600 canvas with full thrust, over one
    sixtieth of a second. *)
Lemma Ship_update_steps_witness :
  let s := Ship.setThrust 1 (Ship.new 400 300) in
  Ship.thrust s > 0
  /\ Ship.rotation (Ship.update (1 / 60) (mkVector2D 800 600) s)
     = Ship.rotation s.
Proof.
  intros s.
  assert (Ht : Ship.thrust s > 0).
  { unfold s. rewrite setThrust_level; lra. }
  split; [exact Ht|].
  destruct (Ship_update_steps (1 / 60) (mkVector2D 800 600) s Ht)
    as (v2 & _ & _ & _ & _ & _ & Hrot & _).
  exact Hrot.
Defined.

(** C1 as announced fails at thrust level 1/2: a ship at rest that faces up
    gains, in half a second, the velocity (0, -200) and not the (0, -100)
    that a change proportional to the level would give; after the whole
    update its velocity is (0, -196), not (0, -98). *)
Lemma Ship_thrust_not_proportional :
  let s := Ship.setThrust (1 / 2) (Ship.new 400 300) in
  Ship.thrust s > 0
  /\ Ship.velocity (Ship.applyThrust (1 / 2) s) = mkVector2D 0 (-200)
  /\ Ship.velocity (applyThrust_spec (1 / 2) s) = mkVector2D 0 (-100)
  /\ Ship.applyThrust (1 / 2) s <> applyThrust_spec (1 / 2) s
  /\ Ship.velocity (Ship.update (1 / 2) (mkVector2D 800 600) s)
     = mkVector2D 0 (-196).
Proof.
  intros s.
  assert (Ht : Ship.thrust s = 1 / 2).
  { unfold s. apply setThrust_level. lra. }
  assert (Hgt : (Ship.thrust s >? 0) = true) by (apply Rgtb_true; lra).
  assert (Hc : Ship.velocity (Ship.applyThrust (1 / 2) s)
               = mkVector2D 0 (-200)).
  { unfold Ship.applyThrust. rewrite Hgt. unfold s. cbn.
    rewrite sin_0, cos_0. unfold Ship.thrustPower. f_equal; lra. }
  assert (Hs : Ship.velocity (applyThrust_spec (1 / 2) s)
               = mkVector2D 0 (-100)).
  { unfold applyThrust_spec. rewrite Hgt, Ht. unfold s. cbn.
    rewrite sin_0, cos_0. unfold Ship.thrustPower. f_equal; lra. }
  split; [lra|]. split; [exact Hc|]. split; [exact Hs|]. split.
  - intros Heq. rewrite Heq, Hs in Hc. injection Hc as Hc. lra.
  - rewrite Ship_update_velocity, limitSpeed_velocity, Hc.
    replace (magnitude (mkVector2D 0 (-200)) >? Ship.maxSpeed) with false.
    + cbn. unfold Ship.friction. f_equal; lra.
    + symmetry. apply Rgtb_false. unfold Ship.maxSpeed.
      apply magnitude_le; simpl; lra.
Qed.

(** ** Bullet and asteroid kinematics *)

Lemma Bullet_update_cases (deltaTime : R) (canvasSize : Vector2D)
    (b : Bullet.t) :
  Bullet.update deltaTime canvasSize b
  = if Bullet.lifeTime b + deltaTime >? Bullet.maxLifeTime
    then Bullet.mk (GameObject.set_active false (Bullet.obj b))
                   (Bullet.lifeTime b + deltaTime)
    else Bullet.mk
           (GameObject.wrapPosition canvasSize
              (GameObject.integrate deltaTime (Bullet.obj b)))
           (Bullet.lifeTime b + deltaTime).
Proof.
  unfold Bullet.update. cbn. destruct (_ >? Bullet.maxLifeTime); reflexivity.
Qed.

Lemma Bullet_update_active (deltaTime : R) (canvasSize : Vector2D)
    (b : Bullet.t) :
  Bullet.active (Bullet.update deltaTime canvasSize b) = true
  <-> Bullet.active b = true /\ Bullet.lifeTime b + deltaTime <= 2.
Proof.
  rewrite Bullet_update_cases. unfold Bullet.maxLifeTime.
  destruct (_ >? 2) eqn:E;
    [apply Rgtb_true in E | apply Rgtb_false in E]; cbn.
  - split; [discriminate | intros [_ Hle]; lra].
  - unfold Bullet.active. tauto.
Qed.

Lemma wrapPoint_in_bounds (canvasSize p : Vector2D) :
  0 <= x canvasSize -> 0 <= y canvasSize ->
  inBounds canvasSize (wrapPoint canvasSize p).
Proof.
  intros Hx Hy. split; simpl; apply wrapAxis_in_bounds; assumption.
Qed.

Lemma Ship_update_in_bounds (deltaTime : R) (canvasSize : Vector2D)
    (s : Ship.t) :
  0 <= x canvasSize -> 0 <= y canvasSize ->
  inBounds canvasSize (Ship.position (Ship.update deltaTime canvasSize s)).
Proof.
  intros Hx Hy. rewrite Ship_update_position.
  apply wrapPoint_in_bounds; assumption.
Qed.

Lemma Asteroid_update_in_bounds (deltaTime : R) (canvasSize : Vector2D)
    (a : Asteroid.t) :
  0 <= x canvasSize -> 0 <= y canvasSize ->
  inBounds canvasSize
    (Asteroid.position (Asteroid.update deltaTime canvasSize a)).
Proof.
  intros Hx Hy.
  change (Asteroid.position (Asteroid.update deltaTime canvasSize a))
    with (wrapPoint canvasSize
            (mkVector2D
               (x (Asteroid.position a) + x (Asteroid.velocity a) * deltaTime)
               (y (Asteroid.position a) + y (Asteroid.velocity a) * deltaTime))).
  apply wrapPoint_in_bounds; assumption.
Qed.

Lemma Bullet_update_in_bounds (deltaTime : R) (canvasSize : Vector2D)
    (b : Bullet.t) :
  0 <= x canvasSize -> 0 <= y canvasSize ->
  inBounds canvasSize (Bullet.position b) ->
  inBounds canvasSize
    (Bullet.position (Bullet.update deltaTime canvasSize b)).
Proof.
  intros Hx Hy Hb. rewrite Bullet_update_cases.
  destruct (_ >? Bullet.maxLifeTime).
  - exact Hb.
  - apply (wrapPoint_in_bounds canvasSize
             (mkVector2D _ _) Hx Hy).
Qed.

(** Unfolds the field updates of the game record. *)
Ltac unfold_setters :=
  cbv [Game.set_ship Game.set_asteroids Game.set_bullets Game.set_state
       Game.set_score Game.set_lives Game.set_level Game.set_lastTime
       Game.set_fireDelay Game.set_statusText Game.set_keys
       Game.set_highScores Game.set_randomCalls
       Game.ship Game.asteroids Game.bullets Game.state Game.score Game.lives
       Game.level Game.lastTime Game.fireDelay Game.statusText Game.keys
       Game.highScores Game.randomCalls] in *.

(** ** The asteroid field *)

Section Field.

Variable random : nat -> R.
Variable canvasSize : Vector2D.

Lemma tooClose_false (p : Vector2D) (k : nat) :
  (Rabs (random k * x canvasSize - x p) <? 100)
  && (Rabs (random (k + 1) * y canvasSize - y p) <? 100) = false
  <-> accepted random canvasSize p k.
Proof.
  unfold accepted. rewrite andb_false_iff, !Rltb_false. split.
  - intros [H | H] [H1 H2]; lra.
  - intros H.
    destruct (Rlt_dec (Rabs (random k * x canvasSize - x p)) 100);
      [|left; lra].
    destruct (Rlt_dec (Rabs (random (k + 1) * y canvasSize - y p)) 100);
      [|right; lra].
    exfalso. apply H. split; assumption.
Qed.

Lemma spawnPoint_some (fuel : nat) (p : Vector2D) (k : nat)
    (px py : R) (k' : nat) :
  Game.spawnPoint random canvasSize fuel p k = Some (px, py, k') ->
  exists m : nat,
    (k <= m)%nat /\ k' = (m + 2)%nat
    /\ px = random m * x canvasSize
    /\ py = random (m + 1) * y canvasSize
    /\ accepted random canvasSize p m.
Proof.
  revert k. induction fuel as [|fuel IH]; intros k; simpl; [discriminate|].
  destruct (_ && _) eqn:E.
  - intros H. destruct (IH _ H) as (m & Hm & Hrest).
    exists m. split; [lia | exact Hrest].
  - intros H. injection H as <- <- <-. apply tooClose_false in E.
    exists k. repeat split; [lia | exact E].
Qed.

Lemma spawnPoint_mono (fuel fuel' : nat) (p : Vector2D) (k : nat)
    (r : R * R * nat) :
  Game.spawnPoint random canvasSize fuel p k = Some r ->
  (fuel <= fuel')%nat ->
  Game.spawnPoint random canvasSize fuel' p k = Some r.
Proof.
  revert fuel' k. induction fuel as [|fuel IH]; intros fuel' k; simpl;
    [discriminate|].
  intros H Hle. destruct fuel' as [|fuel']; [lia|]. simpl.
  destruct (_ && _); [|exact H]. apply IH; [exact H | lia].
Qed.

Lemma spawnPoint_terminates (p : Vector2D) (n k : nat) :
  accepted random canvasSize p (k + 2 * n) ->
  exists fuel r, Game.spawnPoint random canvasSize fuel p k = Some r.
Proof.
  revert k. induction n as [|n IH]; intros k Hacc.
  - replace (k + 2 * 0)%nat with k in Hacc by lia.
    apply tooClose_false in Hacc.
    exists 1%nat. simpl. rewrite Hacc. eexists. reflexivity.
  - destruct ((Rabs (random k * x canvasSize - x p) <? 100)
              && (Rabs (random (k + 1) * y canvasSize - y p) <? 100)) eqn:E.
    + destruct (IH (k + 2)%nat) as (fuel & r & Hr).
      { replace (k + 2 + 2 * n)%nat with (k + 2 * S n)%nat by lia.
        exact Hacc. }
      exists (S fuel), r. simpl. rewrite E. exact Hr.
    + exists 1%nat. simpl. rewrite E. eexists. reflexivity.
Qed.

(** What [spawnAsteroids] leaves alone: every field but the asteroids and
    the count of random calls. *)
Lemma spawnAsteroids_frame (fuel n : nat) (g g' : Game.t) :
  Game.spawnAsteroids random canvasSize fuel n g = Some g' ->
  Game.set_randomCalls (Game.randomCalls g)
    (Game.set_asteroids (Game.asteroids g) g') = g.
Proof.
  revert g. induction n as [|n IH]; intros g; simpl.
  - intros H. injection H as <-. destruct g; reflexivity.
  - destruct (Game.spawnPoint _ _ _ _ _) as [[[px py] k]|]; [|discriminate].
    intros H. apply IH in H. destruct g, g'. unfold_setters.
    injection H as -> -> -> -> -> -> -> -> -> -> ->. reflexivity.
Qed.

(** The asteroids [spawnAsteroids] adds: [n] large ones, each at a point
    drawn in the canvas and kept. *)
Lemma spawnAsteroids_field (fuel n : nat) (g g' : Game.t) :
  Game.spawnAsteroids random canvasSize fuel n g = Some g' ->
  exists field : list Asteroid.t,
    Game.asteroids g' = Game.asteroids g ++ field
    /\ length field = n
    /\ Forall
         (fun a =>
            Asteroid.size a = large
            /\ exists m : nat,
                 Asteroid.position a
                 = mkVector2D (random m * x canvasSize)
                              (random (m + 1) * y canvasSize)
                 /\ accepted random canvasSize
                      (Ship.position (Game.ship g)) m)
         field.
Proof.
  revert g. induction n as [|n IH]; intros g; simpl.
  - intros H. injection H as <-. exists []. rewrite app_nil_r.
    repeat split. constructor.
  - destruct (Game.spawnPoint _ _ _ _ _) as [[[px py] k]|] eqn:E;
      [|discriminate].
    intros H. apply IH in H. destruct H as (field & Hf & Hlen & Hall).
    cbn in Hf, Hall. rewrite <- app_assoc in Hf.
    eexists. split; [exact Hf|]. split; [simpl; lia|].
    constructor; [|exact Hall].
    split; [reflexivity|].
    apply spawnPoint_some in E. destruct E as (m & _ & _ & -> & -> & Hacc).
    exists m. split; [reflexivity | exact Hacc].
Qed.

Lemma spawnAsteroids_mono (fuel fuel' n : nat) (g g' : Game.t) :
  Game.spawnAsteroids random canvasSize fuel n g = Some g' ->
  (fuel <= fuel')%nat ->
  Game.spawnAsteroids random canvasSize fuel' n g = Some g'.
Proof.
  revert g. induction n as [|n IH]; intros g; simpl; [tauto|].
  destruct (Game.spawnPoint _ _ fuel _ _) as [[[px py] k]|] eqn:E;
    [|discriminate].
  intros H Hle. rewrite (spawnPoint_mono _ _ _ _ _ E Hle).
  apply IH; assumption.
Qed.

Lemma spawnAsteroids_terminates (n : nat) (g : Game.t) :
  spawnsEventually random canvasSize (Ship.position (Game.ship g)) ->
  exists fuel g',
    Game.spawnAsteroids random canvasSize fuel n g = Some g'.
Proof.
  intros Hev. revert g Hev. induction n as [|n IH]; intros g Hev.
  - exists 0%nat, g. reflexivity.
  - destruct (Hev (Game.randomCalls g)) as (m & Hm).
    destruct (spawnPoint_terminates _ _ _ Hm) as (f1 & [[px py] k] & H1).
    set (g1 := Game.set_randomCalls
                 (snd (Asteroid.new random px py large k))
                 (Game.set_asteroids
                    (Game.asteroids g
                     ++ [fst (Asteroid.new random px py large k)]) g)).
    destruct (IH g1 Hev) as (f2 & g' & H2).
    exists (Nat.max f1 f2), g'. simpl.
    rewrite (spawnPoint_mono _ (Nat.max f1 f2) _ _ _ H1) by lia.
    apply (spawnAsteroids_mono f2); [exact H2 | lia].
Qed.

Lemma createAsteroids_terminates (g : Game.t) :
  spawnsEventually random canvasSize (Ship.position (Game.ship g)) ->
  exists fuel g', Game.createAsteroids random canvasSize fuel g = Some g'.
Proof.
  intros Hev. unfold Game.createAsteroids.
  apply spawnAsteroids_terminates. exact Hev.
Qed.

(** [createAsteroids], when it returns: the field is replaced by
    [4 + level] large asteroids, each at a point drawn in the canvas and
    kept, and nothing else changes but the count of random calls. *)
Lemma createAsteroids_some (fuel : nat) (g g' : Game.t) :
  Game.createAsteroids random canvasSize fuel g = Some g' ->
  Game.set_randomCalls (Game.randomCalls g)
    (Game.set_asteroids (Game.asteroids g) g') = g
  /\ length (Game.asteroids g') = Z.to_nat (4 + Game.level g)
  /\ Forall
       (fun a =>
          Asteroid.size a = large
          /\ exists m : nat,
               Asteroid.position a
               = mkVector2D (random m * x canvasSize)
                            (random (m + 1) * y canvasSize)
               /\ accepted random canvasSize (Ship.position (Game.ship g)) m)
       (Game.asteroids g').
Proof.
  unfold Game.createAsteroids. intros H.
  pose proof (spawnAsteroids_frame _ _ _ _ H) as Hfr.
  apply spawnAsteroids_field in H. destruct H as (field & Hf & Hlen & Hall).
  cbn in Hf, Hall. rewrite Hf. repeat split; try assumption.
  destruct g, g'. unfold_setters.
  injection Hfr as -> -> -> -> -> -> -> -> -> -> ->. reflexivity.
Qed.

End Field.

(** ** The state machine *)

(** [frame_field H proj as Hf] reads off the field [proj] from an equation
    [H] between two game states. *)
Tactic Notation "frame_field" constr(H) constr(proj) "as" ident(Hf) :=
  pose proof (f_equal proj H) as Hf;
  cbn [Game.set_ship Game.set_asteroids Game.set_bullets Game.set_state
       Game.set_score Game.set_lives Game.set_level Game.set_lastTime
       Game.set_fireDelay Game.set_statusText Game.set_keys
       Game.set_highScores Game.set_randomCalls
       Game.ship Game.asteroids Game.bullets Game.state Game.score Game.lives
       Game.level Game.lastTime Game.fireDelay Game.statusText Game.keys
       Game.highScores Game.randomCalls] in Hf.

Section StateMachine.

Variable random : nat -> R.
Variable canvasSize : Vector2D.
Variable today : string.


Lemma keydown_KeyP (fuel : nat) (g : Game.t) :
  Game.keydown random canvasSize fuel "KeyP" g
  = Some (Game.onKeyP
            (Game.set_keys (InputManager.add "KeyP" (Game.keys g)) g)).
Proof. reflexivity. Qed.


Lemma resetGame_terminates (g : Game.t) :
  spawnsEventually random canvasSize
    (mkVector2D (x canvasSize / 2) (y canvasSize / 2)) ->
  exists fuel g', Game.resetGame random canvasSize fuel g = Some g'.
Proof.
  intros Hev. unfold Game.resetGame, Game.setupGame.
  apply createAsteroids_terminates. exact Hev.
Qed.

Lemma new_terminates (statusText0 : string)
    (stored : HighScoreManager.Storage) (k : nat) :
  spawnsEventually random canvasSize
    (mkVector2D (x canvasSize / 2) (y canvasSize / 2)) ->
  exists fuel g,
    Game.new random canvasSize fuel statusText0 stored k = Some g.
Proof.
  intros Hev. unfold Game.new, Game.setupGame.
  apply createAsteroids_terminates. exact Hev.
Qed.

(** Outside PLAYING the three phases of a frame do nothing. *)
Lemma idle_phases (fuel : nat) (deltaTime : R) (g : Game.t) :
  Game.state g <> PLAYING ->
  Game.handleInput deltaTime g = g
  /\ Game.updateGameObjects canvasSize deltaTime g = g
  /\ Game.checkCollisions random canvasSize today fuel g = Some g.
Proof.
  intros Hs.
  unfold Game.handleInput, Game.updateGameObjects, Game.checkCollisions.
  destruct (Game.state g); try contradiction; repeat split.
Qed.

Lemma idle_update (fuel : nat) (currentTime : R) (g : Game.t) :
  Game.state g <> PLAYING ->
  Game.update random canvasSize today fuel currentTime g
  = Some (Game.set_lastTime currentTime g).
Proof.
  intros Hs. unfold Game.update.
  destruct (idle_phases fuel ((currentTime - Game.lastTime g) / 1000)
              (Game.set_lastTime currentTime g) Hs) as (-> & -> & ->).
  reflexivity.
Qed.


End StateMachine.

(** ** Bullet-asteroid pass *)

Lemma splice1_length {A : Type} (i : nat) (l : list A) (e : A) :
  nth_error l i = Some e -> S (length (splice1 i l)) = length l.
Proof.
  intros H. unfold splice1.
  assert (Hi : (i < length l)%nat) by (apply nth_error_Some; congruence).
  rewrite length_app, length_firstn, length_skipn. lia.
Qed.

(** [splice1 i] takes out the element at index [i] and shifts the later
    ones down by one. *)
Lemma splice1_nth_error {A : Type} (i k : nat) (l : list A) :
  (i < length l)%nat ->
  nth_error (splice1 i l) k
  = if (k <? i)%nat then nth_error l k else nth_error l (S k).
Proof.
  intros Hi. unfold splice1.
  destruct (k <? i)%nat eqn:E;
    [apply Nat.ltb_lt in E | apply Nat.ltb_ge in E].
  - rewrite nth_error_app1 by (rewrite length_firstn; lia).
    rewrite nth_error_firstn.
    replace (k <? i)%nat with true by (symmetry; apply Nat.ltb_lt; exact E).
    reflexivity.
  - rewrite nth_error_app2 by (rewrite length_firstn; lia).
    rewrite length_firstn, nth_error_skipn. f_equal. lia.
Qed.

Lemma splice1_In {A : Type} (i : nat) (l : list A) (e : A) :
  In e (splice1 i l) -> In e l.
Proof.
  unfold splice1. intros H. apply in_app_or in H.
  rewrite <- (firstn_skipn i l). apply in_or_app.
  destruct H as [H | H]; [left; exact H|].
  right. rewrite <- (firstn_skipn 1 (skipn i l)). apply in_or_app. right.
  rewrite skipn_skipn. exact H.
Qed.

Section Collisions.

Variable random : nat -> R.
Variable canvasSize : Vector2D.
Variable today : string.

Lemma pushPieces_spec (n : nat) (px py : R) (sz : AsteroidSize)
    (g : Game.t) :
  exists frags : list Asteroid.t,
    Game.pushPieces random n px py sz g
    = Game.set_randomCalls (Game.randomCalls g + 3 * n)
        (Game.set_asteroids (Game.asteroids g ++ frags) g)
    /\ length frags = n
    /\ Forall (fun f => Asteroid.position f = mkVector2D px py
                        /\ Asteroid.size f = sz) frags.
Proof.
  revert g. induction n as [|n IH]; intros g.
  - exists []. simpl. rewrite app_nil_r, Nat.add_0_r.
    destruct g. repeat split. constructor.
  - cbn [Game.pushPieces].
    destruct (Asteroid.new random px py sz (Game.randomCalls g))
      as [a k] eqn:Ea.
    destruct (IH (Game.set_randomCalls k
                    (Game.set_asteroids (Game.asteroids g ++ [a]) g)))
      as (frags & Heq & Hlen & Hall).
    exists (a :: frags). rewrite Heq. unfold_setters.
    rewrite <- app_assoc. unfold Asteroid.new in Ea.
    injection Ea as <- <-. split; [|split].
    + f_equal. lia.
    + simpl. lia.
    + constructor; [split; reflexivity | exact Hall].
Qed.

Lemma breakAsteroid_spec (a : Asteroid.t) (g : Game.t) :
  exists frags : list Asteroid.t,
    Game.breakAsteroid random a g
    = Game.set_randomCalls
        (Game.randomCalls g + 3 * fragmentCount (Asteroid.size a))
        (Game.set_asteroids (Game.asteroids g ++ frags) g)
    /\ length frags = fragmentCount (Asteroid.size a)
    /\ Forall (fun f => Asteroid.position f = Asteroid.position a
                        /\ Asteroid.size f = fragmentSize (Asteroid.size a))
              frags.
Proof.
  unfold Game.breakAsteroid, Asteroid.getSize.
  destruct (Asteroid.size a); cbn [fragmentCount fragmentSize].
  - destruct (pushPieces_spec 2 (x (Asteroid.position a))
                (y (Asteroid.position a)) medium g) as (frags & H1 & H2 & H3).
    exists frags. repeat split; try assumption.
    eapply Forall_impl; [|exact H3]. intros f [Hp Hs].
    split; [|exact Hs]. rewrite Hp. destruct (Asteroid.position a).
    reflexivity.
  - destruct (pushPieces_spec 2 (x (Asteroid.position a))
                (y (Asteroid.position a)) small g) as (frags & H1 & H2 & H3).
    exists frags. repeat split; try assumption.
    eapply Forall_impl; [|exact H3]. intros f [Hp Hs].
    split; [|exact Hs]. rewrite Hp. destruct (Asteroid.position a).
    reflexivity.
  - exists []. rewrite app_nil_r, Nat.add_0_r. destruct g.
    repeat split. constructor.
Qed.

Lemma addScore_spec (sz : AsteroidSize) (g : Game.t) :
  Game.addScore sz g = Game.set_score (Game.score g + points sz) g.
Proof. destruct sz; reflexivity. Qed.

(** What a hit does to the game. *)
Lemma hitResult_spec (i j : nat) (a : Asteroid.t) (g : Game.t) :
  exists frags : list Asteroid.t,
    hitResult random i j a g
    = Game.set_randomCalls
        (Game.randomCalls g + 3 * fragmentCount (Asteroid.size a))
        (Game.set_asteroids (splice1 j (Game.asteroids g) ++ frags)
           (Game.set_score (Game.score g + points (Asteroid.size a))
              (Game.set_bullets (splice1 i (Game.bullets g)) g)))
    /\ length frags = fragmentCount (Asteroid.size a)
    /\ Forall (fun f => Asteroid.position f = Asteroid.position a
                        /\ Asteroid.size f = fragmentSize (Asteroid.size a))
              frags.
Proof.
  unfold hitResult. rewrite addScore_spec.
  destruct (breakAsteroid_spec a
              (Game.set_score
                 (Game.score
                    (Game.set_asteroids (splice1 j (Game.asteroids g))
                       (Game.set_bullets (splice1 i (Game.bullets g)) g))
                  + points (Asteroid.getSize a))
                 (Game.set_asteroids (splice1 j (Game.asteroids g))
                    (Game.set_bullets (splice1 i (Game.bullets g)) g))))
    as (frags & Heq & Hlen & Hall).
  exists frags. rewrite Heq. repeat split; assumption.
Qed.

(** The inner loop either finds no colliding asteroid below index [j1] and
    changes nothing, or stops at the highest such index with a hit. *)
Lemma scanAsteroids_first_hit (bullet : Bullet.t) (i j1 : nat) (g : Game.t) :
  (Game.scanAsteroids random bullet i j1 g = g
   /\ forall j a, (j < j1)%nat -> nth_error (Game.asteroids g) j = Some a ->
                  collidesWith bullet a = false)
  \/ exists j a,
       (j < j1)%nat
       /\ nth_error (Game.asteroids g) j = Some a
       /\ collidesWith bullet a = true
       /\ (forall j' a', (j < j' < j1)%nat ->
                         nth_error (Game.asteroids g) j' = Some a' ->
                         collidesWith bullet a' = false)
       /\ Game.scanAsteroids random bullet i j1 g = hitResult random i j a g.
Proof.
  induction j1 as [|j IH].
  - left. split; [reflexivity|]. intros j a Hj. lia.
  - cbn [Game.scanAsteroids].
    destruct (nth_error (Game.asteroids g) j) as [a|] eqn:Ea.
    + destruct (collidesWith bullet a) eqn:Ec.
      * right. exists j, a. split; [lia|]. split; [exact Ea|].
        split; [exact Ec|]. split; [intros j' a' Hj'; lia | reflexivity].
      * destruct IH as [[Heq Hno] | (j0 & a0 & Hj0 & Ha0 & Hc0 & Hno & Heq)].
        -- left. split; [exact Heq|]. intros j' a' Hj' Ha'.
           destruct (Nat.eq_dec j' j) as [-> | Hne].
           ++ congruence.
           ++ apply (Hno j'); [lia | exact Ha'].
        -- right. exists j0, a0. split; [lia|]. split; [exact Ha0|].
           split; [exact Hc0|]. split; [|exact Heq].
           intros j' a' Hj' Ha'.
           destruct (Nat.eq_dec j' j) as [-> | Hne].
           ++ congruence.
           ++ apply (Hno j'); [lia | exact Ha'].
    + destruct IH as [[Heq Hno] | (j0 & a0 & Hj0 & Ha0 & Hc0 & Hno & Heq)].
      * left. split; [exact Heq|]. intros j' a' Hj' Ha'.
        destruct (Nat.eq_dec j' j) as [-> | Hne].
        -- congruence.
        -- apply (Hno j'); [lia | exact Ha'].
      * right. exists j0, a0. split; [lia|]. split; [exact Ha0|].
        split; [exact Hc0|]. split; [|exact Heq].
        intros j' a' Hj' Ha'.
        destruct (Nat.eq_dec j' j) as [-> | Hne].
        -- congruence.
        -- apply (Hno j'); [lia | exact Ha'].
Qed.

Lemma scanAsteroids_hit (bullet : Bullet.t) (i j : nat) (g : Game.t)
    (a : Asteroid.t) :
  nth_error (Game.asteroids g) j = Some a ->
  collidesWith bullet a = true ->
  Game.scanAsteroids random bullet i (S j) g = hitResult random i j a g.
Proof.
  intros Ha Hc. cbn [Game.scanAsteroids]. rewrite Ha, Hc. reflexivity.
Qed.

Lemma scanBullets_step (i : nat) (g : Game.t) (bullet : Bullet.t) :
  nth_error (Game.bullets g) i = Some bullet ->
  Game.scanBullets random (S i) g
  = Game.scanBullets random i
      (Game.scanAsteroids random bullet i (length (Game.asteroids g)) g).
Proof.
  intros Hb. cbn [Game.scanBullets]. rewrite Hb. reflexivity.
Qed.

(** The loops never read past the end of an array: started within range,
    as [checkCollisions] starts them, the strict loops do not fail and give
    the same game. *)
Lemma scanAsteroids_in_range (bullet : Bullet.t) (i j1 : nat) (g : Game.t) :
  (j1 <= length (Game.asteroids g))%nat ->
  scanAsteroidsStrict random bullet i j1 g
  = Some (Game.scanAsteroids random bullet i j1 g).
Proof.
  induction j1 as [|j IH]; intros Hj; [reflexivity|].
  cbn [scanAsteroidsStrict Game.scanAsteroids].
  destruct (nth_error (Game.asteroids g) j) as [a|] eqn:Ea.
  - destruct (collidesWith bullet a); [reflexivity|]. apply IH. lia.
  - apply nth_error_None in Ea. lia.
Qed.

Lemma scanAsteroids_bullets (bullet : Bullet.t) (i j1 : nat) (g : Game.t) :
  (i < length (Game.bullets g))%nat ->
  (i <= length (Game.bullets (Game.scanAsteroids random bullet i j1 g)))%nat.
Proof.
  intros Hi.
  destruct (scanAsteroids_first_hit bullet i j1 g)
    as [[-> _] | (j & a & _ & _ & _ & _ & ->)]; [lia|].
  destruct (hitResult_spec i j a g) as (frags & -> & _).
  cbn [Game.bullets Game.set_randomCalls Game.set_asteroids Game.set_score
       Game.set_bullets].
  unfold splice1. rewrite length_app, length_firstn. lia.
Qed.

Lemma scanBullets_in_range (i1 : nat) (g : Game.t) :
  (i1 <= length (Game.bullets g))%nat ->
  scanBulletsStrict random i1 g = Some (Game.scanBullets random i1 g).
Proof.
  revert g. induction i1 as [|i IH]; intros g Hi; [reflexivity|].
  cbn [scanBulletsStrict Game.scanBullets].
  destruct (nth_error (Game.bullets g) i) as [bullet|] eqn:Eb.
  - rewrite scanAsteroids_in_range by lia.
    apply IH. apply scanAsteroids_bullets. lia.
  - apply nth_error_None in Eb. lia.
Qed.

(** The whole pass: a list [hits] of the (bullet, asteroid) pairs that were
    destroyed accounts for every change. *)
Lemma scanBullets_summary (i1 : nat) (g : Game.t) :
  exists hits : list (Bullet.t * Asteroid.t),
    Forall (fun h => In (fst h) (Game.bullets g)
                     /\ collidesWith (fst h) (snd h) = true) hits
    /\ (length (Game.bullets (Game.scanBullets random i1 g)) + length hits
        = length (Game.bullets g))%nat
    /\ (forall b, In b (Game.bullets (Game.scanBullets random i1 g)) ->
                  In b (Game.bullets g))
    /\ Game.score (Game.scanBullets random i1 g)
       = (Game.score g + totalPoints hits)%Z
    /\ (length (Game.asteroids (Game.scanBullets random i1 g)) + length hits
        = length (Game.asteroids g) + totalFragments hits)%nat
    /\ Game.set_randomCalls (Game.randomCalls g)
         (Game.set_asteroids (Game.asteroids g)
            (Game.set_score (Game.score g)
               (Game.set_bullets (Game.bullets g)
                  (Game.scanBullets random i1 g)))) = g.
Proof.
  revert g. induction i1 as [|i IH]; intros g.
  - exists []. cbn [Game.scanBullets length totalPoints totalFragments
                    fold_right].
    rewrite Z.add_0_r, !Nat.add_0_r. repeat split; auto.
    destruct g; reflexivity.
  - cbn [Game.scanBullets].
    destruct (nth_error (Game.bullets g) i) as [bullet|] eqn:Eb;
      [|apply IH].
    destruct (scanAsteroids_first_hit bullet i
                (length (Game.asteroids g)) g)
      as [[Heq _] | (j & a & Hj & Ha & Hc & _ & Heq)]; rewrite Heq;
      [apply IH|].
    destruct (hitResult_spec i j a g) as (frags & Hh & Hlen & _).
    destruct (IH (hitResult random i j a g))
      as (hits & Hall & Hb & Hin & Hs & Has & Hfr).
    set (g' := Game.scanBullets random i (hitResult random i j a g)) in *.
    assert (Hbul : Game.bullets (hitResult random i j a g)
                   = splice1 i (Game.bullets g)) by (rewrite Hh; reflexivity).
    assert (Hast : Game.asteroids (hitResult random i j a g)
                   = splice1 j (Game.asteroids g) ++ frags)
      by (rewrite Hh; reflexivity).
    assert (Hsco : Game.score (hitResult random i j a g)
                   = (Game.score g + points (Asteroid.size a))%Z)
      by (rewrite Hh; reflexivity).
    pose proof (splice1_length _ _ _ Eb) as Hlb.
    pose proof (splice1_length _ _ _ Ha) as Hla.
    exists ((bullet, a) :: hits).
    cbn [length totalPoints totalFragments fold_right snd fst].
    fold (totalPoints hits). fold (totalFragments hits).
    split; [|split; [|split; [|split; [|split]]]].
    + constructor.
      * split; [|exact Hc]. cbn [fst]. eapply nth_error_In. exact Eb.
      * eapply Forall_impl; [|exact Hall]. intros h [Hh1 Hh2].
        split; [|exact Hh2]. rewrite Hbul in Hh1.
        eapply splice1_In. exact Hh1.
    + rewrite Hbul in Hb. lia.
    + intros b Hb'. apply Hin in Hb'. rewrite Hbul in Hb'.
      eapply splice1_In. exact Hb'.
    + rewrite Hs, Hsco. lia.
    + rewrite Hast, length_app in Has. lia.
    + rewrite Hh in Hfr. destruct g, g'. unfold_setters.
      injection Hfr as -> -> -> -> -> -> -> -> ->. reflexivity.
Qed.

End Collisions.

(** ** Ship-asteroid pass and level clear *)

Section ShipPass.

Variable random : nat -> R.
Variable canvasSize : Vector2D.
Variable today : string.

(** [gameOver] changes the state, the status text and the stored scores. *)
Lemma gameOver_frame (g : Game.t) :
  Game.state (Game.gameOver today g) = GAME_OVER
  /\ Game.set_highScores (Game.highScores g)
       (Game.set_statusText (Game.statusText g)
          (Game.set_state (Game.state g) (Game.gameOver today g))) = g.
Proof.
  unfold Game.gameOver.
  destruct (HighScoreManager.addScore _ _ _ _) as [stored isNew].
  destruct isNew; split; try reflexivity; destruct g; reflexivity.
Qed.

(** [loseLife] takes one life; with none left the game is over, and else
    the ship goes back to the centre of the canvas, at rest, facing up. *)
Lemma loseLife_spec (g : Game.t) :
  Game.lives (Game.loseLife canvasSize today g) = (Game.lives g - 1)%Z
  /\ Game.asteroids (Game.loseLife canvasSize today g) = Game.asteroids g
  /\ Game.bullets (Game.loseLife canvasSize today g) = Game.bullets g
  /\ Game.score (Game.loseLife canvasSize today g) = Game.score g
  /\ Game.level (Game.loseLife canvasSize today g) = Game.level g
  /\ Game.lastTime (Game.loseLife canvasSize today g) = Game.lastTime g
  /\ Game.fireDelay (Game.loseLife canvasSize today g) = Game.fireDelay g
  /\ Game.keys (Game.loseLife canvasSize today g) = Game.keys g
  /\ ((0 < Game.lives g - 1)%Z ->
      Game.loseLife canvasSize today g
      = Game.set_ship
          (Ship.mk
             (GameObject.mk
                (mkVector2D (x canvasSize / 2) (y canvasSize / 2))
                (mkVector2D 0 0) 0
                (GameObject.scale (Ship.obj (Game.ship g)))
                (GameObject.active (Ship.obj (Game.ship g))))
             (Ship.thrust (Game.ship g)))
          (Game.set_lives (Game.lives g - 1) g))
  /\ ((Game.lives g - 1 <= 0)%Z ->
      Game.loseLife canvasSize today g
      = Game.gameOver today (Game.set_lives (Game.lives g - 1) g)).
Proof.
  unfold Game.loseLife. cbn [Game.lives Game.set_lives].
  destruct (Game.lives g - 1 <=? 0)%Z eqn:E;
    [apply Z.leb_le in E | apply Z.leb_gt in E].
  - destruct (gameOver_frame (Game.set_lives (Game.lives g - 1) g))
      as [_ Hfr].
    frame_field Hfr Game.lives as H1.
    frame_field Hfr Game.asteroids as H2.
    frame_field Hfr Game.bullets as H3.
    frame_field Hfr Game.score as H4.
    frame_field Hfr Game.level as H5.
    frame_field Hfr Game.lastTime as H6.
    frame_field Hfr Game.fireDelay as H7.
    frame_field Hfr Game.keys as H8.
    repeat (split; [assumption|]). split; [lia | reflexivity].
  - repeat (split; [reflexivity|]). intros H. lia.
Qed.

Lemma scanShip_hit (rest : list Asteroid.t) (g : Game.t) :
  (exists a, In a rest /\ collidesWith (Game.ship g) a = true) ->
  Game.scanShip canvasSize today rest g = Game.loseLife canvasSize today g.
Proof.
  induction rest as [|a rest IH]; intros (a0 & Hin & Hc).
  - destruct Hin.
  - cbn [Game.scanShip]. destruct (collidesWith (Game.ship g) a) eqn:E;
      [reflexivity|].
    apply IH. destruct Hin as [-> | Hin]; [congruence|].
    exists a0. split; assumption.
Qed.

Lemma scanShip_miss (rest : list Asteroid.t) (g : Game.t) :
  (forall a, In a rest -> collidesWith (Game.ship g) a = false) ->
  Game.scanShip canvasSize today rest g = g.
Proof.
  induction rest as [|a rest IH]; intros Hno; [reflexivity|].
  cbn [Game.scanShip]. rewrite (Hno a (or_introl eq_refl)).
  apply IH. intros a' Hin. apply Hno. right. exact Hin.
Qed.

Lemma scanShip_cases (rest : list Asteroid.t) (g : Game.t) :
  Game.scanShip canvasSize today rest g = g
  \/ (rest <> []
      /\ Game.scanShip canvasSize today rest g
         = Game.loseLife canvasSize today g).
Proof.
  induction rest as [|a rest IH]; [left; reflexivity|].
  cbn [Game.scanShip]. destruct (collidesWith (Game.ship g) a).
  - right. split; [discriminate | reflexivity].
  - destruct IH as [IH | [_ IH]]; [left; exact IH|].
    right. split; [discriminate | exact IH].
Qed.

(** One life, whatever the number of asteroids over the ship. *)
Lemma scanShip_once (g : Game.t) :
  (exists a, In a (Game.asteroids g)
             /\ collidesWith (Game.ship g) a = true) ->
  let g' := afterShipPass canvasSize today g in
  Game.lives g' = (Game.lives g - 1)%Z
  /\ Game.asteroids g' = Game.asteroids g
  /\ Game.bullets g' = Game.bullets g
  /\ Game.score g' = Game.score g
  /\ Game.level g' = Game.level g
  /\ ((0 < Game.lives g')%Z ->
      Ship.position (Game.ship g')
      = mkVector2D (x canvasSize / 2) (y canvasSize / 2)
      /\ Ship.velocity (Game.ship g') = mkVector2D 0 0
      /\ Ship.rotation (Game.ship g') = 0
      /\ Game.state g' = Game.state g).
Proof.
  intros Hhit g'. subst g'. unfold afterShipPass.
  rewrite (scanShip_hit _ _ Hhit).
  destruct (loseLife_spec g)
    as (H1 & H2 & H3 & H4 & H5 & _ & _ & _ & Hpos & _).
  repeat (split; [assumption|]).
  rewrite H1. intros Hl. rewrite (Hpos Hl). repeat split.
Qed.

(** [checkCollisions] in PLAYING: the two passes, then the level check. *)
Lemma checkCollisions_playing (fuel : nat) (g : Game.t) :
  Game.state g = PLAYING ->
  Game.checkCollisions random canvasSize today fuel g
  = let g2 := afterShipPass canvasSize today (afterBulletPass random g) in
    match Game.asteroids g2 with
    | [] => Game.nextLevel random canvasSize fuel g2
    | _ :: _ => Some g2
    end.
Proof.
  intros Hs. unfold Game.checkCollisions. rewrite Hs. cbn [GameState_eqb negb].
  fold (afterBulletPass random g).
  fold (afterShipPass canvasSize today (afterBulletPass random g)).
  cbv zeta.
  destruct (Game.asteroids (afterShipPass canvasSize today
                              (afterBulletPass random g)));
    reflexivity.
Qed.


End ShipPass.

(** ** Input phase and fire rate *)

Lemma handleInput_idle (deltaTime : R) (g : Game.t) :
  Game.state g <> PLAYING -> Game.handleInput deltaTime g = g.
Proof.
  intros Hs. unfold Game.handleInput.
  destruct (Game.state g); try contradiction; reflexivity.
Qed.

Lemma handleInput_playing (deltaTime : R) (g : Game.t) :
  Game.state g = PLAYING ->
  let g' := Game.handleInput deltaTime g in
  let fires := InputManager.isFirePressed (Game.keys g)
               && (Game.fireDelay g - deltaTime <=? 0) in
  Game.state g' = PLAYING
  /\ Game.lastTime g' = Game.lastTime g
  /\ Game.keys g' = Game.keys g
  /\ Game.asteroids g' = Game.asteroids g
  /\ Game.score g' = Game.score g
  /\ Game.lives g' = Game.lives g
  /\ Game.level g' = Game.level g
  /\ Ship.position (Game.ship g') = Ship.position (Game.ship g)
  /\ Game.fireDelay g'
     = (if fires then Game.maxFireDelay else Game.fireDelay g - deltaTime)
  /\ Game.bullets g'
     = (if fires
        then Game.bullets g
             ++ [Bullet.new (x (Ship.position (Game.ship g)))
                            (y (Ship.position (Game.ship g)))
                            (Ship.rotation (Game.ship g'))]
        else Game.bullets g).
Proof.
  intros Hs g' fires. subst g' fires. unfold Game.handleInput.
  rewrite Hs. cbn [GameState_eqb negb].
  destruct (InputManager.isThrustPressed (Game.keys g));
    cbn [Game.keys Game.set_ship];
    destruct (InputManager.isLeftPressed (Game.keys g));
    cbn [Game.keys Game.set_ship];
    destruct (InputManager.isRightPressed (Game.keys g));
    cbn [Game.keys Game.set_ship Game.set_fireDelay Game.fireDelay];
    destruct (InputManager.isFirePressed (Game.keys g)
              && (Game.fireDelay g - deltaTime <=? 0));
    repeat split; assumption.
Qed.

Lemma spawnsBullet_iff (currentTime : R) (g : Game.t) :
  spawnsBullet currentTime g
  <-> Game.state g = PLAYING
      /\ InputManager.isFirePressed (Game.keys g) = true
      /\ Game.fireDelay g - (currentTime - Game.lastTime g) / 1000 <= 0.
Proof.
  unfold spawnsBullet. cbv zeta.
  set (dt := (currentTime - Game.lastTime g) / 1000).
  destruct (GameState_eqb (Game.state g) PLAYING) eqn:Es.
  - assert (Hs : Game.state g = PLAYING)
      by (destruct (Game.state g); try discriminate; reflexivity).
    destruct (handleInput_playing dt (Game.set_lastTime currentTime g) Hs)
      as (_ & _ & _ & _ & _ & _ & _ & _ & _ & Hb).
    rewrite Hb. cbn [Game.keys Game.set_lastTime Game.fireDelay Game.bullets].
    destruct (InputManager.isFirePressed (Game.keys g)); cbn [andb].
    + destruct (Game.fireDelay g - dt <=? 0) eqn:E;
        [apply Rleb_true in E | apply Rleb_false in E].
      * rewrite length_app. cbn [length]. split; [tauto | lia].
      * split; [lia | intros (_ & _ & H); lra].
    + split; [lia | intros (_ & H & _); discriminate].
  - assert (Hs : Game.state g <> PLAYING)
      by (intros H; rewrite H in Es; discriminate).
    rewrite handleInput_idle by exact Hs. cbn [Game.bullets Game.set_lastTime].
    split; [lia | tauto].
Qed.

Lemma updateGameObjects_frame (canvasSize : Vector2D) (deltaTime : R)
    (g : Game.t) :
  Game.set_bullets (Game.bullets g)
    (Game.set_asteroids (Game.asteroids g)
       (Game.set_ship (Game.ship g)
          (Game.updateGameObjects canvasSize deltaTime g))) = g.
Proof.
  unfold Game.updateGameObjects.
  destruct (negb _); destruct g; reflexivity.
Qed.

Section FireRate.

Variable random : nat -> R.
Variable canvasSize : Vector2D.
Variable today : string.

(** What the collision phase leaves alone, and the only way it changes the
    state. *)
Lemma checkCollisions_frame (fuel : nat) (g g' : Game.t) :
  Game.checkCollisions random canvasSize today fuel g = Some g' ->
  Game.fireDelay g' = Game.fireDelay g
  /\ Game.lastTime g' = Game.lastTime g
  /\ Game.keys g' = Game.keys g
  /\ (Game.state g' = PLAYING -> Game.state g = PLAYING).
Proof.
  destruct (GameState_eqb (Game.state g) PLAYING) eqn:Es.
  - assert (Hs : Game.state g = PLAYING)
      by (destruct (Game.state g); try discriminate; reflexivity).
    rewrite (checkCollisions_playing random canvasSize today fuel g Hs).
    cbv zeta. intros H.
    assert (H1 : Game.fireDelay (afterBulletPass random g) = Game.fireDelay g
                 /\ Game.lastTime (afterBulletPass random g) = Game.lastTime g
                 /\ Game.keys (afterBulletPass random g) = Game.keys g).
    { unfold afterBulletPass.
      destruct (scanBullets_summary random (length (Game.bullets g)) g)
        as (hits & _ & _ & _ & _ & _ & Hfr).
      frame_field Hfr Game.fireDelay as Ha.
      frame_field Hfr Game.lastTime as Hb.
      frame_field Hfr Game.keys as Hc. repeat split; assumption. }
    assert (H2 : let g2 := afterShipPass canvasSize today
                             (afterBulletPass random g) in
                 Game.fireDelay g2 = Game.fireDelay g
                 /\ Game.lastTime g2 = Game.lastTime g
                 /\ Game.keys g2 = Game.keys g).
    { cbv zeta. unfold afterShipPass.
      destruct (scanShip_cases canvasSize today
                  (Game.asteroids (afterBulletPass random g))
                  (afterBulletPass random g)) as [-> | [_ ->]];
        [exact H1|].
      destruct (loseLife_spec canvasSize today (afterBulletPass random g))
        as (_ & _ & _ & _ & _ & -> & -> & -> & _).
      exact H1. }
    cbv zeta in H2. destruct H2 as (Ha & Hb & Hc).
    destruct (Game.asteroids (afterShipPass canvasSize today
                                (afterBulletPass random g))).
    + unfold Game.nextLevel in H. apply createAsteroids_some in H.
      destruct H as (Hfr & _).
      frame_field Hfr Game.fireDelay as Ha'.
      frame_field Hfr Game.lastTime as Hb'.
      frame_field Hfr Game.keys as Hc'.
      repeat split; congruence.
    + injection H as <-. repeat split; congruence.
  - unfold Game.checkCollisions. rewrite Es. cbn [negb].
    intros H. injection H as <-. repeat split.
    intros H. rewrite H in Es. discriminate.
Qed.

(** One frame, seen from the fire cooldown. *)
Lemma update_cooldown (fuel : nat) (currentTime : R) (g g' : Game.t) :
  Game.update random canvasSize today fuel currentTime g = Some g' ->
  Game.lastTime g' = currentTime
  /\ Game.keys g' = Game.keys g
  /\ (Game.state g' = PLAYING ->
      Game.state g = PLAYING
      /\ Game.fireDelay g'
         = if InputManager.isFirePressed (Game.keys g)
              && (Game.fireDelay g - (currentTime - Game.lastTime g) / 1000
                  <=? 0)
           then Game.maxFireDelay
           else Game.fireDelay g - (currentTime - Game.lastTime g) / 1000).
Proof.
  unfold Game.update. cbv zeta.
  set (dt := (currentTime - Game.lastTime g) / 1000).
  set (g1 := Game.set_lastTime currentTime g).
  intros H. apply checkCollisions_frame in H.
  destruct H as (Hfd & Hlt & Hk & Hst).
  pose proof (updateGameObjects_frame canvasSize dt
                (Game.handleInput dt g1)) as Hfr.
  frame_field Hfr Game.fireDelay as Hfd'.
  frame_field Hfr Game.lastTime as Hlt'.
  frame_field Hfr Game.keys as Hk'.
  frame_field Hfr Game.state as Hst'.
  rewrite Hfd' in Hfd. rewrite Hlt' in Hlt. rewrite Hk' in Hk.
  rewrite Hst' in Hst.
  destruct (GameState_eqb (Game.state g) PLAYING) eqn:Es.
  - assert (Hs : Game.state g1 = PLAYING)
      by (unfold g1; cbn; destruct (Game.state g); try discriminate;
          reflexivity).
    destruct (handleInput_playing dt g1 Hs)
      as (_ & Hl & Hkk & _ & _ & _ & _ & _ & Hf & _).
    rewrite Hl in Hlt. rewrite Hkk in Hk. rewrite Hf in Hfd.
    split; [exact Hlt|]. split; [exact Hk|]. intros _.
    split; [exact Hs | exact Hfd].
  - assert (Hs : Game.state g1 <> PLAYING)
      by (unfold g1; cbn; intros H; rewrite H in Es; discriminate).
    rewrite (handleInput_idle dt g1 Hs) in *.
    split; [exact Hlt|]. split; [exact Hk|]. intros H'.
    exfalso. apply Hs. apply Hst. exact H'.
Qed.

(** The cooldown is at least what is left of 0.15 s since time [t0]. *)
Lemma frames_cooldown (fuel : nat) (t0 : R) (times : list R)
    (g g' : Game.t) :
  Game.frames random canvasSize today fuel times g = Some g' ->
  Game.state g' = PLAYING ->
  Game.fireDelay g >= Game.maxFireDelay - (Game.lastTime g - t0) / 1000 ->
  Game.state g = PLAYING
  /\ Game.keys g' = Game.keys g
  /\ Game.fireDelay g'
     >= Game.maxFireDelay - (Game.lastTime g' - t0) / 1000.
Proof.
  revert g. induction times as [|tm times IH]; intros g; cbn [Game.frames].
  - intros H. injection H as <-. auto.
  - cbn [Game.step].
    destruct (Game.update random canvasSize today fuel tm g) as [g1|] eqn:E;
      [|discriminate].
    intros H Hs' Hinv.
    apply update_cooldown in E. destruct E as (Hlt & Hk & Hst).
    assert (Hinv1 : Game.state g1 = PLAYING ->
                    Game.fireDelay g1
                    >= Game.maxFireDelay - (Game.lastTime g1 - t0) / 1000).
    { intros Hs1. destruct (Hst Hs1) as [_ Hfd]. rewrite Hfd, Hlt.
      unfold Game.maxFireDelay in *.
      destruct (InputManager.isFirePressed (Game.keys g)); cbn [andb];
        [|lra].
      destruct (_ <=? 0) eqn:E2;
        [apply Rleb_true in E2 | apply Rleb_false in E2]; lra. }
    destruct (GameState_eqb (Game.state g1) PLAYING) eqn:Es1.
    + assert (Hs1 : Game.state g1 = PLAYING)
        by (destruct (Game.state g1); try discriminate; reflexivity).
      destruct (IH g1 H Hs' (Hinv1 Hs1)) as (_ & Hk' & Hfd').
      split; [apply Hst; exact Hs1|]. split; [congruence | exact Hfd'].
    + exfalso.
      assert (Hfalse : forall ts g2 g3,
                 Game.frames random canvasSize today fuel ts g2 = Some g3 ->
                 Game.state g2 <> PLAYING -> Game.state g3 <> PLAYING).
      { clear. induction ts as [|tm ts IHts]; intros g2 g3; cbn [Game.frames].
        - intros H. injection H as <-. auto.
        - cbn [Game.step]. intros H Hs2.
          rewrite (idle_update random canvasSize today fuel tm g2 Hs2) in H.
          apply (IHts _ _ H). exact Hs2. }
      apply (Hfalse _ _ _ H); [|exact Hs'].
      intros Hc. rewrite Hc in Es1. discriminate.
Qed.

Lemma accumulated_telescopes (last : R) (times : list R) (t2 : R) :
  accumulated last (times ++ [t2]) = (t2 - last) / 1000.
Proof.
  revert last. induction times as [|tm times IH]; intros last;
    cbn [accumulated app].
  - lra.
  - rewrite IH. lra.
Qed.

(** C8. Firing and its cooldown.
    - The input phase adds a bullet only in PLAYING with the fire key down
      and the decremented cooldown at or below 0, and then sets the
      cooldown to 0.15.
    - In PLAYING the phase otherwise leaves the cooldown decremented by
      [deltaTime], whether the fire key is down or not; outside PLAYING it
      changes nothing.
    - Over consecutive frames [t0], [times], [t2], when both the frame at
      [t0] and the frame at [t2] add a bullet, the [deltaTime]s of the
      frames after [t0] up to [t2] add up to at least 0.15 s, however many
      frames there are. *)
Theorem fire_rate_limit :
  (forall deltaTime g,
     length (Game.bullets (Game.handleInput deltaTime g))
     = S (length (Game.bullets g)) ->
     Game.state g = PLAYING
     /\ InputManager.isFirePressed (Game.keys g) = true
     /\ Game.fireDelay g - deltaTime <= 0
     /\ Game.fireDelay (Game.handleInput deltaTime g) = 15 / 100)
  /\ (forall deltaTime g,
        Game.state g = PLAYING ->
        length (Game.bullets (Game.handleInput deltaTime g))
        <> S (length (Game.bullets g)) ->
        Game.bullets (Game.handleInput deltaTime g) = Game.bullets g
        /\ Game.fireDelay (Game.handleInput deltaTime g)
           = Game.fireDelay g - deltaTime)
  /\ (forall deltaTime g,
        Game.state g <> PLAYING -> Game.handleInput deltaTime g = g)
  /\ (forall fuel t0 g0 g1 times g2 t2,
        spawnsBullet t0 g0 ->
        Game.update random canvasSize today fuel t0 g0 = Some g1 ->
        Game.frames random canvasSize today fuel times g1 = Some g2 ->
        spawnsBullet t2 g2 ->
        accumulated t0 (times ++ [t2]) >= 15 / 100).
Proof.
  split; [|split; [|split]].
  - intros dt g Hlen.
    destruct (GameState_eqb (Game.state g) PLAYING) eqn:Es.
    + assert (Hs : Game.state g = PLAYING)
        by (destruct (Game.state g); try discriminate; reflexivity).
      destruct (handleInput_playing dt g Hs)
        as (_ & _ & _ & _ & _ & _ & _ & _ & Hf & Hb).
      rewrite Hb in Hlen. rewrite Hf.
      destruct (InputManager.isFirePressed (Game.keys g)); cbn [andb] in *;
        [|lia].
      destruct (Game.fireDelay g - dt <=? 0) eqn:E;
        [apply Rleb_true in E | lia].
      unfold Game.maxFireDelay. repeat split; assumption.
    + assert (Hs : Game.state g <> PLAYING)
        by (intros H; rewrite H in Es; discriminate).
      rewrite handleInput_idle in Hlen by exact Hs. lia.
  - intros dt g Hs Hlen.
    destruct (handleInput_playing dt g Hs)
      as (_ & _ & _ & _ & _ & _ & _ & _ & Hf & Hb).
    rewrite Hb in Hlen |- *. rewrite Hf.
    destruct (InputManager.isFirePressed (Game.keys g)
              && (Game.fireDelay g - dt <=? 0)).
    + exfalso. apply Hlen. rewrite length_app. cbn [length]. lia.
    + split; reflexivity.
  - apply handleInput_idle.
  - intros fuel t0 g0 g1 times g2 t2 Hsp0 Hup Hfr Hsp2.
    rewrite accumulated_telescopes.
    apply spawnsBullet_iff in Hsp0. destruct Hsp0 as (Hs0 & Hk0 & Hd0).
    apply spawnsBullet_iff in Hsp2. destruct Hsp2 as (Hs2 & Hk2 & Hd2).
    assert (Hinv1 : Game.state g1 = PLAYING ->
                    Game.fireDelay g1
                    >= Game.maxFireDelay - (Game.lastTime g1 - t0) / 1000).
    { intros Hs1. apply update_cooldown in Hup.
      destruct Hup as (Hlt & _ & Hst). destruct (Hst Hs1) as [_ Hfd].
      rewrite Hfd, Hlt, Hk0. cbn [andb].
      replace (_ <=? 0) with true by (symmetry; apply Rleb_true; exact Hd0).
      lra. }
    assert (Hs1 : Game.state g1 = PLAYING).
    { destruct (GameState_eqb (Game.state g1) PLAYING) eqn:Es1.
      - destruct (Game.state g1); try discriminate; reflexivity.
      - exfalso. revert Hfr Hs2. clear - Es1. revert g1 Es1.
        induction times as [|tm ts IHts]; intros g1 Es1; cbn [Game.frames].
        + intros H. injection H as <-. intros H. rewrite H in Es1.
          discriminate.
        + cbn [Game.step].
          rewrite (idle_update random canvasSize today fuel tm g1)
            by (intros H; rewrite H in Es1; discriminate).
          apply IHts. exact Es1. }
    destruct (frames_cooldown fuel t0 times g1 g2 Hfr Hs2 (Hinv1 Hs1))
      as (_ & _ & Hfd2).
    unfold Game.maxFireDelay in Hfd2. lra.
Qed.

End FireRate.

(** ** Life loss *)

Section LifeLoss.

Variable random : nat -> R.
Variable canvasSize : Vector2D.
Variable today : string.

(** A frame takes at most one life. *)
Lemma update_lives (fuel : nat) (currentTime : R) (g g' : Game.t) :
  Game.update random canvasSize today fuel currentTime g = Some g' ->
  Game.lives g' = Game.lives g \/ Game.lives g' = (Game.lives g - 1)%Z.
Proof.
  unfold Game.update. cbv zeta.
  set (dt := (currentTime - Game.lastTime g) / 1000).
  set (g1 := Game.set_lastTime currentTime g).
  assert (H2 : Game.lives (Game.handleInput dt g1) = Game.lives g).
  { destruct (GameState_eqb (Game.state g1) PLAYING) eqn:Es.
    - assert (Hs : Game.state g1 = PLAYING)
        by (destruct (Game.state g1); try discriminate; reflexivity).
      destruct (handleInput_playing dt g1 Hs)
        as (_ & _ & _ & _ & _ & -> & _). reflexivity.
    - rewrite handleInput_idle; [reflexivity|].
      intros H. rewrite H in Es. discriminate. }
  pose proof (updateGameObjects_frame canvasSize dt (Game.handleInput dt g1))
    as Hfr.
  frame_field Hfr Game.lives as H3. rewrite H2 in H3.
  set (g3 := Game.updateGameObjects canvasSize dt (Game.handleInput dt g1))
    in *.
  intros H. rewrite <- H3.
  destruct (GameState_eqb (Game.state g3) PLAYING) eqn:Es.
  - assert (Hs : Game.state g3 = PLAYING)
      by (destruct (Game.state g3); try discriminate; reflexivity).
    rewrite (checkCollisions_playing random canvasSize today fuel g3 Hs) in H.
    cbv zeta in H.
    assert (Hb : Game.lives (afterBulletPass random g3) = Game.lives g3).
    { unfold afterBulletPass.
      destruct (scanBullets_summary random (length (Game.bullets g3)) g3)
        as (hits & _ & _ & _ & _ & _ & Hfr').
      frame_field Hfr' Game.lives as Hl. exact Hl. }
    assert (Hp : let g2 := afterShipPass canvasSize today
                             (afterBulletPass random g3) in
                 Game.lives g2 = Game.lives g3
                 \/ Game.lives g2 = (Game.lives g3 - 1)%Z).
    { cbv zeta. unfold afterShipPass.
      destruct (scanShip_cases canvasSize today
                  (Game.asteroids (afterBulletPass random g3))
                  (afterBulletPass random g3)) as [-> | [_ ->]].
      - left. exact Hb.
      - right.
        destruct (loseLife_spec canvasSize today (afterBulletPass random g3))
          as (-> & _). rewrite Hb. reflexivity. }
    cbv zeta in Hp.
    destruct (Game.asteroids (afterShipPass canvasSize today
                                (afterBulletPass random g3))).
    + unfold Game.nextLevel in H. apply createAsteroids_some in H.
      destruct H as (Hfr' & _). frame_field Hfr' Game.lives as Hl.
      rewrite Hl. exact Hp.
    + injection H as <-. exact Hp.
  - unfold Game.checkCollisions in H. rewrite Es in H. cbn [negb] in H.
    injection H as <-. left. reflexivity.
Qed.

(** The ship-asteroid pass leaves asteroids, bullets, score and level
    alone. *)
Lemma afterShipPass_keeps (g : Game.t) :
  Game.asteroids (afterShipPass canvasSize today g) = Game.asteroids g
  /\ Game.bullets (afterShipPass canvasSize today g) = Game.bullets g
  /\ Game.score (afterShipPass canvasSize today g) = Game.score g
  /\ Game.level (afterShipPass canvasSize today g) = Game.level g.
Proof.
  unfold afterShipPass.
  destruct (scanShip_cases canvasSize today (Game.asteroids g) g)
    as [-> | [_ ->]]; [repeat split|].
  destruct (loseLife_spec canvasSize today g)
    as (_ & Ha & Hb & Hsc & Hle & _).
  repeat split; assumption.
Qed.

(** A frame in PLAYING: the input phase and the movement, then the
    bullet-asteroid pass, the ship-asteroid pass and the level check. *)
Lemma playing_tick (fuel : nat) (currentTime : R) (g : Game.t) :
  Game.state g = PLAYING ->
  let moved := afterMovement canvasSize currentTime g in
  let passed := afterBulletPass random moved in
  let g2 := afterShipPass canvasSize today passed in
  Game.state moved = PLAYING
  /\ Game.lives passed = Game.lives g
  /\ Game.level passed = Game.level g
  /\ Game.state passed = PLAYING
  /\ Game.update random canvasSize today fuel currentTime g
     = Game.checkCollisions random canvasSize today fuel moved
  /\ Game.update random canvasSize today fuel currentTime g
     = match Game.asteroids g2 with
       | [] => Game.nextLevel random canvasSize fuel g2
       | _ :: _ => Some g2
       end.
Proof.
  intros Hs. cbv zeta. unfold afterMovement. cbv zeta.
  set (dt := (currentTime - Game.lastTime g) / 1000).
  set (g1 := Game.set_lastTime currentTime g).
  destruct (handleInput_playing dt g1 Hs)
    as (Hs2 & _ & _ & _ & _ & Hli2 & Hle2 & _).
  pose proof (updateGameObjects_frame canvasSize dt (Game.handleInput dt g1))
    as Hfr.
  frame_field Hfr Game.state as Hs3. frame_field Hfr Game.lives as Hli3.
  frame_field Hfr Game.level as Hle3.
  set (g3 := Game.updateGameObjects canvasSize dt (Game.handleInput dt g1))
    in *.
  assert (Hs3' : Game.state g3 = PLAYING) by congruence.
  destruct (scanBullets_summary random (length (Game.bullets g3)) g3)
    as (hits & _ & _ & _ & _ & _ & Hfr4).
  fold (afterBulletPass random g3) in Hfr4.
  frame_field Hfr4 Game.state as Hs4. frame_field Hfr4 Game.lives as Hli4.
  frame_field Hfr4 Game.level as Hle4.
  split; [exact Hs3'|].
  split; [rewrite Hli4, Hli3, Hli2; reflexivity|].
  split; [rewrite Hle4, Hle3, Hle2; reflexivity|].
  split; [congruence|].
  split; [reflexivity|].
  unfold Game.update. cbv zeta. fold dt. fold g1. fold g3.
  rewrite (checkCollisions_playing random canvasSize today fuel g3 Hs3').
  reflexivity.
Qed.

(** C2. The bullet-asteroid pass of a frame.
    - For the bullet at index [i] the scan runs down from the last asteroid
      and either finds none that collides and changes nothing, or stops at
      the first one it finds, [a] at index [j], and destroys only that one.
    - Such a hit removes the bullet at [i] and the asteroid at [j], adds 20,
      50 or 100 to the score for a large, medium or small [a], and appends
      2 medium pieces for a large [a], 2 small pieces for a medium one and
      none for a small one, each piece at the position of [a].
    - Over the whole pass, the destroyed pairs [hits] number as many as the
      bullets that disappeared, every bullet being in at most one pair of
      colliding entities; the score grows by the sum of the points of the
      asteroids in [hits], and the asteroid count changes by the pieces
      added minus the asteroids destroyed.
    - Running down the indices, the pass reads neither array past its
      end although it removes elements on the way.
    - A frame in PLAYING runs this pass in [checkCollisions], on the game
      as the input phase and the movement of the entities leave it: the
      bullets and the score at the end of the frame are those that the
      pass leaves, and so are the asteroids unless the pass has cleared
      the field. *)
Theorem bullet_asteroid_pass (g : Game.t) :
  (forall (bullet : Bullet.t) (i : nat),
     nth_error (Game.bullets g) i = Some bullet ->
     let g' := Game.scanAsteroids random bullet i
                 (length (Game.asteroids g)) g in
     (g' = g
      /\ forall a, In a (Game.asteroids g) -> collidesWith bullet a = false)
     \/ exists j a frags,
          nth_error (Game.asteroids g) j = Some a
          /\ collidesWith bullet a = true
          /\ (forall j' a', (j < j')%nat ->
                 nth_error (Game.asteroids g) j' = Some a' ->
                 collidesWith bullet a' = false)
          /\ Game.bullets g' = splice1 i (Game.bullets g)
          /\ S (length (Game.bullets g')) = length (Game.bullets g)
          /\ Game.asteroids g' = splice1 j (Game.asteroids g) ++ frags
          /\ Game.score g'
             = (Game.score g
                + match Asteroid.size a with
                  | large => 20 | medium => 50 | small => 100
                  end)%Z
          /\ length frags
             = match Asteroid.size a with
               | large => 2 | medium => 2 | small => 0
               end%nat
          /\ Forall
               (fun f =>
                  Asteroid.position f = Asteroid.position a
                  /\ Asteroid.size f
                     = match Asteroid.size a with
                       | large => medium | _ => small
                       end)
               frags)
  /\ (let g' := afterBulletPass random g in
      exists hits : list (Bullet.t * Asteroid.t),
        Forall (fun h => In (fst h) (Game.bullets g)
                         /\ collidesWith (fst h) (snd h) = true) hits
        /\ (length (Game.bullets g') + length hits
            = length (Game.bullets g))%nat
        /\ (forall b, In b (Game.bullets g') -> In b (Game.bullets g))
        /\ Game.score g' = (Game.score g + totalPoints hits)%Z
        /\ (length (Game.asteroids g') + length hits
            = length (Game.asteroids g) + totalFragments hits)%nat
        /\ Game.ship g' = Game.ship g
        /\ Game.lives g' = Game.lives g
        /\ Game.level g' = Game.level g
        /\ Game.state g' = Game.state g)
  /\ scanBulletsStrict random (length (Game.bullets g)) g
     = Some (afterBulletPass random g)
  /\ (forall fuel currentTime g',
        Game.state g = PLAYING ->
        Game.update random canvasSize today fuel currentTime g = Some g' ->
        let moved := afterMovement canvasSize currentTime g in
        let passed := afterBulletPass random moved in
        Game.state moved = PLAYING
        /\ Game.checkCollisions random canvasSize today fuel moved = Some g'
        /\ Game.bullets g' = Game.bullets passed
        /\ Game.score g' = Game.score passed
        /\ (Game.asteroids passed <> [] ->
            Game.asteroids g' = Game.asteroids passed)).
Proof.
  split; [|split; [|split; [apply scanBullets_in_range; lia|]]].
  - intros bullet i Eb g'.
    destruct (scanAsteroids_first_hit random bullet i
                (length (Game.asteroids g)) g)
      as [[Heq Hno] | (j & a & Hj & Ha & Hc & Hno & Heq)].
    + left. split; [exact Heq|]. intros a Hin.
      apply In_nth_error in Hin. destruct Hin as [j Hj].
      apply (Hno j); [|exact Hj].
      apply nth_error_Some. congruence.
    + right. destruct (hitResult_spec random i j a g) as (frags & Hh & Hlen & Hall).
      exists j, a, frags. subst g'. rewrite Heq, Hh.
      split; [exact Ha|]. split; [exact Hc|]. split.
      { intros j' a' Hj' Ha'. apply (Hno j'); [|exact Ha'].
        split; [exact Hj'|]. apply nth_error_Some. congruence. }
      split; [reflexivity|]. split.
      { cbn. eapply splice1_length. exact Eb. }
      split; [reflexivity|]. split.
      { cbn. destruct (Asteroid.size a); reflexivity. }
      split.
      { rewrite Hlen. destruct (Asteroid.size a); reflexivity. }
      eapply Forall_impl; [|exact Hall]. intros f [Hp Hs].
      split; [exact Hp|]. rewrite Hs. destruct (Asteroid.size a); reflexivity.
  - intros g'. subst g'. unfold afterBulletPass.
    destruct (scanBullets_summary random (length (Game.bullets g)) g)
      as (hits & Hall & Hb & Hin & Hs & Has & Hfr).
    exists hits.
    frame_field Hfr Game.ship as Hsh.
    frame_field Hfr Game.lives as Hli.
    frame_field Hfr Game.level as Hle.
    frame_field Hfr Game.state as Hst.
    repeat (split; [assumption|]). assumption.
  - intros fuel currentTime g' Hs Hup. cbv zeta.
    destruct (playing_tick fuel currentTime g Hs)
      as (Hsm & _ & _ & _ & Hcc & Htick).
    cbv zeta in Hcc, Htick. rewrite Htick in Hup.
    destruct (afterShipPass_keeps
                (afterBulletPass random
                   (afterMovement canvasSize currentTime g)))
      as (Ha & Hb & Hsc & _).
    split; [exact Hsm|]. split; [rewrite <- Hcc; rewrite Htick; exact Hup|].
    destruct (Game.asteroids
                (afterShipPass canvasSize today
                   (afterBulletPass random
                      (afterMovement canvasSize currentTime g))))
      eqn:Hfield.
    + unfold Game.nextLevel in Hup. apply createAsteroids_some in Hup.
      destruct Hup as (Hfr & _).
      frame_field Hfr Game.bullets as Hb'.
      frame_field Hfr Game.score as Hsc'.
      split; [congruence|]. split; [congruence|].
      intros Hne. exfalso. apply Hne. symmetry. exact Ha.
    + injection Hup as <-.
      split; [exact Hb|]. split; [exact Hsc|]. intros _.
      rewrite Hfield. exact Ha.
Qed.

(** C4. The ship-asteroid pass of a frame, run on the game [g] that the
    bullet-asteroid pass leaves. When the ship collides with at least one
    asteroid of the collection, the pass takes exactly one life, however
    many asteroids overlap the ship, and removes no asteroid; when lives
    remain, the ship is at the centre of the canvas with velocity (0, 0)
    and rotation 0, and asteroids, bullets, score, level and state are as
    before. When the ship collides with no asteroid the pass changes
    nothing. A whole frame takes one life or none. A frame in PLAYING
    runs this pass in [checkCollisions], on the game as the bullet-asteroid
    pass of the frame leaves it: when the ship then collides with an
    asteroid, the frame ends with the game that the pass leaves, one life
    less than at the start of the frame, with the asteroids, bullets and
    score that the bullet-asteroid pass left and the level unchanged, and
    with the ship at the centre when lives remain; when it collides with
    none, the frame takes no life and leaves the ship where the movement
    put it. *)
Theorem ship_asteroid_pass (g : Game.t) :
  ((exists a, In a (Game.asteroids g)
              /\ collidesWith (Game.ship g) a = true) ->
   let g' := afterShipPass canvasSize today g in
   Game.lives g' = (Game.lives g - 1)%Z
   /\ Game.asteroids g' = Game.asteroids g
   /\ Game.bullets g' = Game.bullets g
   /\ Game.score g' = Game.score g
   /\ Game.level g' = Game.level g
   /\ ((0 < Game.lives g')%Z ->
       Ship.position (Game.ship g')
       = mkVector2D (x canvasSize / 2) (y canvasSize / 2)
       /\ Ship.velocity (Game.ship g') = mkVector2D 0 0
       /\ Ship.rotation (Game.ship g') = 0
       /\ Game.state g' = Game.state g))
  /\ ((forall a, In a (Game.asteroids g) ->
                 collidesWith (Game.ship g) a = false) ->
      afterShipPass canvasSize today g = g)
  /\ (forall fuel currentTime g',
        Game.update random canvasSize today fuel currentTime g = Some g' ->
        Game.lives g' = Game.lives g
        \/ Game.lives g' = (Game.lives g - 1)%Z)
  /\ (forall fuel currentTime g',
        Game.state g = PLAYING ->
        Game.update random canvasSize today fuel currentTime g = Some g' ->
        let passed :=
          afterBulletPass random (afterMovement canvasSize currentTime g) in
        ((exists a, In a (Game.asteroids passed)
                    /\ collidesWith (Game.ship passed) a = true) ->
         g' = afterShipPass canvasSize today passed
         /\ Game.lives g' = (Game.lives g - 1)%Z
         /\ Game.asteroids g' = Game.asteroids passed
         /\ Game.bullets g' = Game.bullets passed
         /\ Game.score g' = Game.score passed
         /\ Game.level g' = Game.level g
         /\ ((0 < Game.lives g')%Z ->
             Ship.position (Game.ship g')
             = mkVector2D (x canvasSize / 2) (y canvasSize / 2)
             /\ Ship.velocity (Game.ship g') = mkVector2D 0 0
             /\ Ship.rotation (Game.ship g') = 0
             /\ Game.state g' = PLAYING))
        /\ ((forall a, In a (Game.asteroids passed) ->
                       collidesWith (Game.ship passed) a = false) ->
            Game.lives g' = Game.lives g
            /\ Game.ship g' = Game.ship passed)).
Proof.
  split; [|split; [|split]].
  - apply scanShip_once.
  - apply scanShip_miss.
  - intros fuel currentTime g'. apply update_lives.
  - intros fuel currentTime g' Hs Hup. cbv zeta.
    destruct (playing_tick fuel currentTime g Hs)
      as (_ & Hli & Hle & Hsp & _ & Htick).
    cbv zeta in Hli, Hle, Hsp, Htick. rewrite Htick in Hup.
    set (passed := afterBulletPass random
                     (afterMovement canvasSize currentTime g)) in *.
    split.
    + intros Hhit.
      destruct (scanShip_once canvasSize today passed Hhit)
        as (Hl & Ha & Hb & Hsc & Hlev & Hpos).
      cbv zeta in Hl, Ha, Hb, Hsc, Hlev, Hpos.
      destruct (Game.asteroids (afterShipPass canvasSize today passed))
        eqn:Hfield.
      { exfalso. destruct Hhit as (a & Hin & _).
        rewrite <- Ha in Hin. destruct Hin. }
      injection Hup as <-.
      split; [reflexivity|]. split; [rewrite Hl, Hli; reflexivity|].
      split; [rewrite Hfield; exact Ha|]. split; [exact Hb|]. split; [exact Hsc|].
      split; [rewrite Hlev; exact Hle|].
      intros Hpos'. destruct (Hpos Hpos') as (P1 & P2 & P3 & P4).
      split; [exact P1|]. split; [exact P2|]. split; [exact P3|].
      rewrite P4. exact Hsp.
    + intros Hmiss.
      unfold afterShipPass in Hup.
      rewrite (scanShip_miss canvasSize today (Game.asteroids passed)
                 passed Hmiss) in Hup.
      destruct (Game.asteroids passed).
      * unfold Game.nextLevel in Hup. apply createAsteroids_some in Hup.
        destruct Hup as (Hfr & _).
        frame_field Hfr Game.lives as Hl'. frame_field Hfr Game.ship as Hsh'.
        split; [rewrite Hl'; exact Hli|exact Hsh'].
      * injection Hup as <-. split; [exact Hli|reflexivity].
Qed.

End LifeLoss.

(** ** Bullet lifetime *)

(** C9. [Bullet.update] adds [deltaTime] to the lifetime; if the lifetime
    is then above 2 s the bullet is deactivated where it stands, and else
    its position gains velocity * deltaTime and is wrapped. In a PLAYING
    frame the update phase keeps exactly the updated bullets that are
    still active, so every bullet of the collection that the collision
    phase of the same frame works on is active with a lifetime of at most
    2 s, and an updated bullet that is inactive is not in it. *)
Theorem bullet_lifetime (canvasSize : Vector2D) (deltaTime : R) :
  (forall b : Bullet.t,
     let b' := Bullet.update deltaTime canvasSize b in
     Bullet.lifeTime b' = Bullet.lifeTime b + deltaTime
     /\ Bullet.velocity b' = Bullet.velocity b
     /\ (Bullet.lifeTime b + deltaTime > 2 ->
         Bullet.active b' = false
         /\ Bullet.position b' = Bullet.position b)
     /\ (Bullet.lifeTime b + deltaTime <= 2 ->
         Bullet.active b' = Bullet.active b
         /\ Bullet.position b'
            = wrapPoint canvasSize
                (mkVector2D
                   (x (Bullet.position b)
                    + x (Bullet.velocity b) * deltaTime)
                   (y (Bullet.position b)
                    + y (Bullet.velocity b) * deltaTime))))
  /\ (forall g : Game.t,
        Game.state g = PLAYING ->
        let g' := Game.updateGameObjects canvasSize deltaTime g in
        Game.bullets g'
        = filter Bullet.active
            (map (Bullet.update deltaTime canvasSize) (Game.bullets g))
        /\ Forall (fun b' => Bullet.active b' = true
                             /\ Bullet.lifeTime b' <= 2) (Game.bullets g')
        /\ (forall b, In b (Game.bullets g) ->
              Bullet.active (Bullet.update deltaTime canvasSize b) = false ->
              ~ In (Bullet.update deltaTime canvasSize b) (Game.bullets g')))
  /\ (forall random today fuel currentTime (g : Game.t),
        deltaTime = (currentTime - Game.lastTime g) / 1000 ->
        Game.update random canvasSize today fuel currentTime g
        = Game.checkCollisions random canvasSize today fuel
            (Game.updateGameObjects canvasSize deltaTime
               (Game.handleInput deltaTime
                  (Game.set_lastTime currentTime g)))).
Proof.
  split; [|split].
  - intros b b'. subst b'. rewrite Bullet_update_cases.
    unfold Bullet.maxLifeTime.
    destruct (Bullet.lifeTime b + deltaTime >? 2) eqn:E;
      [apply Rgtb_true in E | apply Rgtb_false in E];
      (split; [reflexivity|]); (split; [reflexivity|]); split; intros H;
      try lra; split; reflexivity.
  - intros g Hs g'. subst g'. unfold Game.updateGameObjects. rewrite Hs.
    cbn [GameState_eqb negb Game.bullets Game.set_bullets Game.set_asteroids
         Game.set_ship].
    split; [reflexivity|]. split.
    + apply Forall_forall. intros b' Hin. apply filter_In in Hin.
      destruct Hin as [Hin Hact]. split; [exact Hact|].
      apply in_map_iff in Hin. destruct Hin as (b & <- & _).
      apply Bullet_update_active in Hact. destruct Hact as [_ Hle].
      rewrite Bullet_update_cases.
      destruct (_ >? Bullet.maxLifeTime); exact Hle.
    + intros b _ Hact Hin. apply filter_In in Hin. destruct Hin as [_ Hin].
      congruence.
  - intros random today fuel currentTime g ->. reflexivity.
Qed.

(** ** Resize of the window *)

Lemma pushStars_calls (random : nat -> R) (canvasSize : Vector2D)
    (n : nat) (stars : list Star.t) (k : nat) :
  snd (VectorRenderer.pushStars random canvasSize n stars k)
  = (k + 4 * n)%nat.
Proof.
  revert stars k. induction n as [|n IH]; intros stars k.
  - cbn. lia.
  - cbn [VectorRenderer.pushStars]. cbv zeta. rewrite IH. lia.
Qed.

(** A resize gives the canvas its new size and uses 600 random numbers;
    the game is otherwise as it was. *)
Lemma onResize_spec (random : nat -> R) (innerWidth innerHeight : R)
    (g : Game.t) :
  Game.onResize random innerWidth innerHeight g
  = (VectorRenderer.setupCanvas innerWidth innerHeight,
     Game.set_randomCalls (Game.randomCalls g + 600) g).
Proof.
  unfold Game.onResize, VectorRenderer.resize,
    VectorRenderer.generateStarfield. cbv zeta.
  pose proof (pushStars_calls random
                (VectorRenderer.setupCanvas innerWidth innerHeight)
                150 [] (Game.randomCalls g)) as Hk.
  destruct (VectorRenderer.pushStars random
              (VectorRenderer.setupCanvas innerWidth innerHeight)
              150 [] (Game.randomCalls g)) as [stars k].
  cbn [snd] in Hk. subst k. reflexivity.
Qed.

(** A session without a resize is a session. *)
Lemma unresized_reachable (random : nat -> R) (canvasSize : Vector2D)
    (today : string) (g : Game.t) :
  reachableUnresized random canvasSize today g ->
  Game.reachable random canvasSize today g.
Proof.
  induction 1 as [fuel st stored k now g Hnew | fuel e g g' _ IH Hstep].
  - eapply Game.reachable_start. exact Hnew.
  - eapply Game.reachable_step; eassumption.
Qed.

(** ** Positions stay within the canvas *)

Section Bounds.

Variable random : nat -> R.
Variable canvasSize : Vector2D.
Variable today : string.

Hypothesis width_nonneg : 0 <= x canvasSize.
Hypothesis height_nonneg : 0 <= y canvasSize.
(** [Math.random()] is at least 0 and below 1. *)
Hypothesis random_range : forall k : nat, 0 <= random k < 1.

Lemma centre_in_bounds :
  inBounds canvasSize (mkVector2D (x canvasSize / 2) (y canvasSize / 2)).
Proof. unfold inBounds. simpl. lra. Qed.

Lemma drawn_in_bounds (m : nat) :
  inBounds canvasSize
    (mkVector2D (random m * x canvasSize) (random (m + 1) * y canvasSize)).
Proof.
  pose proof (random_range m). pose proof (random_range (m + 1)).
  unfold inBounds. simpl. nra.
Qed.

Lemma createAsteroids_in_bounds (fuel : nat) (g g' : Game.t) :
  Game.createAsteroids random canvasSize fuel g = Some g' ->
  inBounds canvasSize (Ship.position (Game.ship g)) ->
  Forall (fun b => inBounds canvasSize (Bullet.position b)) (Game.bullets g) ->
  allInBounds canvasSize g'.
Proof.
  intros H Hship Hbul. apply createAsteroids_some in H.
  destruct H as (Hfr & _ & Hall).
  frame_field Hfr Game.ship as Hs. frame_field Hfr Game.bullets as Hb.
  unfold allInBounds. rewrite Hs, Hb. repeat split; try assumption;
    try apply Hship.
  eapply Forall_impl; [|exact Hall].
  intros a (_ & m & -> & _). apply drawn_in_bounds.
Qed.

Lemma new_in_bounds (fuel : nat) (statusText0 : string)
    (stored : HighScoreManager.Storage) (k : nat) (g : Game.t) :
  Game.new random canvasSize fuel statusText0 stored k = Some g ->
  allInBounds canvasSize g.
Proof.
  unfold Game.new, Game.setupGame. intros H.
  apply createAsteroids_in_bounds in H; [exact H | | constructor].
  apply centre_in_bounds.
Qed.

Lemma keydown_in_bounds (fuel : nat) (code : string) (g g' : Game.t) :
  Game.keydown random canvasSize fuel code g = Some g' ->
  allInBounds canvasSize g -> allInBounds canvasSize g'.
Proof.
  unfold Game.keydown. intros H Hinv.
  destruct (String.eqb code "Space").
  - unfold Game.onSpace in H. cbn [Game.state Game.set_keys] in H.
    destruct (Game.state g); try (injection H as <-; exact Hinv).
    unfold Game.resetGame, Game.setupGame in H.
    apply createAsteroids_in_bounds in H; [exact H | | constructor].
    apply centre_in_bounds.
  - destruct (String.eqb code "KeyP"); injection H as <-; [|exact Hinv].
    unfold Game.onKeyP. cbn [Game.state Game.set_keys].
    destruct (Game.state g); exact Hinv.
Qed.

Lemma handleInput_in_bounds (deltaTime : R) (g : Game.t) :
  allInBounds canvasSize g ->
  allInBounds canvasSize (Game.handleInput deltaTime g).
Proof.
  intros Hinv. destruct (GameState_eqb (Game.state g) PLAYING) eqn:Es.
  - assert (Hs : Game.state g = PLAYING)
      by (destruct (Game.state g); try discriminate; reflexivity).
    destruct (handleInput_playing deltaTime g Hs)
      as (_ & _ & _ & Ha & _ & _ & _ & Hp & _ & Hb).
    destruct Hinv as (H1 & H2 & H3).
    unfold allInBounds. rewrite Hp, Ha, Hb.
    split; [exact H1|]. split; [exact H2|].
    destruct (_ && _); [|exact H3].
    apply Forall_app. split; [exact H3|].
    constructor; [|constructor].
    destruct (Ship.position (Game.ship g)). exact H1.
  - rewrite handleInput_idle; [exact Hinv|].
    intros H. rewrite H in Es. discriminate.
Qed.

Lemma updateGameObjects_in_bounds (deltaTime : R) (g : Game.t) :
  allInBounds canvasSize g ->
  allInBounds canvasSize (Game.updateGameObjects canvasSize deltaTime g).
Proof.
  intros (H1 & H2 & H3). unfold Game.updateGameObjects.
  destruct (negb _); [exact (conj H1 (conj H2 H3))|].
  unfold allInBounds.
  cbn [Game.ship Game.asteroids Game.bullets Game.set_ship
       Game.set_asteroids Game.set_bullets].
  split; [|split].
  - apply Ship_update_in_bounds; assumption.
  - apply Forall_forall. intros a Hin. apply in_map_iff in Hin.
    destruct Hin as (a0 & <- & _).
    apply Asteroid_update_in_bounds; assumption.
  - apply Forall_forall. intros b Hin. apply filter_In in Hin.
    destruct Hin as [Hin _]. apply in_map_iff in Hin.
    destruct Hin as (b0 & <- & Hin0).
    apply Bullet_update_in_bounds; try assumption.
    rewrite Forall_forall in H3. apply H3. exact Hin0.
Qed.

Lemma scanBullets_in_bounds (i1 : nat) (g : Game.t) :
  allInBounds canvasSize g ->
  allInBounds canvasSize (Game.scanBullets random i1 g).
Proof.
  revert g. induction i1 as [|i IH]; intros g Hinv; [exact Hinv|].
  cbn [Game.scanBullets].
  destruct (nth_error (Game.bullets g) i) as [bullet|]; [|apply IH; exact Hinv].
  apply IH.
  destruct (scanAsteroids_first_hit random bullet i
              (length (Game.asteroids g)) g)
    as [[-> _] | (j & a & _ & Ha & _ & _ & ->)]; [exact Hinv|].
  destruct (hitResult_spec random i j a g) as (frags & -> & _ & Hall).
  destruct Hinv as (H1 & H2 & H3). unfold allInBounds.
  cbn [Game.ship Game.asteroids Game.bullets Game.set_randomCalls
       Game.set_asteroids Game.set_score Game.set_bullets].
  rewrite Forall_forall in H2, H3.
  split; [exact H1|]. split.
  - apply Forall_app. split.
    + apply Forall_forall. intros a' Hin. apply H2.
      eapply splice1_In. exact Hin.
    + eapply Forall_impl; [|exact Hall]. intros f [-> _].
      apply H2. eapply nth_error_In. exact Ha.
  - apply Forall_forall. intros b Hin. apply H3.
    eapply splice1_In. exact Hin.
Qed.

Lemma loseLife_in_bounds (g : Game.t) :
  allInBounds canvasSize g ->
  allInBounds canvasSize (Game.loseLife canvasSize today g).
Proof.
  intros (H1 & H2 & H3).
  destruct (loseLife_spec canvasSize today g)
    as (_ & Ha & Hb & _ & _ & _ & _ & _ & Hpos & Hover).
  unfold allInBounds. rewrite Ha, Hb.
  split; [|split; assumption].
  destruct (Z_lt_le_dec 0 (Game.lives g - 1)) as [Hl | Hl].
  - rewrite (Hpos Hl). apply centre_in_bounds.
  - rewrite (Hover Hl).
    destruct (gameOver_frame today (Game.set_lives (Game.lives g - 1) g))
      as [_ Hfr].
    frame_field Hfr Game.ship as Hs. rewrite Hs. exact H1.
Qed.

Lemma checkCollisions_in_bounds (fuel : nat) (g g' : Game.t) :
  Game.checkCollisions random canvasSize today fuel g = Some g' ->
  allInBounds canvasSize g -> allInBounds canvasSize g'.
Proof.
  intros H Hinv. destruct (GameState_eqb (Game.state g) PLAYING) eqn:Es.
  - assert (Hs : Game.state g = PLAYING)
      by (destruct (Game.state g); try discriminate; reflexivity).
    rewrite (checkCollisions_playing random canvasSize today fuel g Hs) in H.
    cbv zeta in H.
    assert (H2 : allInBounds canvasSize
                   (afterShipPass canvasSize today
                      (afterBulletPass random g))).
    { unfold afterShipPass.
      pose proof (scanBullets_in_bounds (length (Game.bullets g)) g Hinv)
        as H1. fold (afterBulletPass random g) in H1.
      destruct (scanShip_cases canvasSize today
                  (Game.asteroids (afterBulletPass random g))
                  (afterBulletPass random g)) as [-> | [_ ->]];
        [exact H1|].
      apply loseLife_in_bounds. exact H1. }
    destruct (Game.asteroids (afterShipPass canvasSize today
                                (afterBulletPass random g))).
    + unfold Game.nextLevel in H.
      apply createAsteroids_in_bounds in H; [exact H | apply H2 | apply H2].
    + injection H as <-. exact H2.
  - unfold Game.checkCollisions in H. rewrite Es in H. cbn [negb] in H.
    injection H as <-. exact Hinv.
Qed.

Lemma step_in_bounds (fuel : nat) (e : Game.Event) (g g' : Game.t) :
  Game.step random canvasSize today fuel e g = Some g' ->
  allInBounds canvasSize g -> allInBounds canvasSize g'.
Proof.
  destruct e as [code | code | currentTime]; cbn [Game.step]; intros H Hinv.
  - eapply keydown_in_bounds; eassumption.
  - injection H as <-. exact Hinv.
  - unfold Game.update in H. cbv zeta in H.
    eapply checkCollisions_in_bounds; [exact H|].
    apply updateGameObjects_in_bounds. apply handleInput_in_bounds.
    exact Hinv.
Qed.

(** A frame in PLAYING moves and wraps every entity, wherever it was. *)
Lemma updateGameObjects_playing_in_bounds (deltaTime : R) (g : Game.t) :
  Game.state g = PLAYING ->
  allInBounds canvasSize (Game.updateGameObjects canvasSize deltaTime g).
Proof.
  intros Hs. unfold Game.updateGameObjects. rewrite Hs.
  cbn [GameState_eqb negb]. unfold allInBounds.
  cbn [Game.ship Game.asteroids Game.bullets Game.set_ship
       Game.set_asteroids Game.set_bullets].
  split; [|split].
  - apply Ship_update_in_bounds; assumption.
  - apply Forall_forall. intros a Hin. apply in_map_iff in Hin.
    destruct Hin as (a0 & <- & _).
    apply Asteroid_update_in_bounds; assumption.
  - apply Forall_forall. intros b Hin. apply filter_In in Hin.
    destruct Hin as [Hin Hact]. apply in_map_iff in Hin.
    destruct Hin as (b0 & <- & _).
    apply Bullet_update_active in Hact. destruct Hact as [_ Hlife].
    rewrite Bullet_update_cases.
    replace (Bullet.lifeTime b0 + deltaTime >? Bullet.maxLifeTime)
      with false
      by (symmetry; apply Rgtb_false; unfold Bullet.maxLifeTime;
          exact Hlife).
    apply (wrapPoint_in_bounds canvasSize (mkVector2D _ _));
      assumption.
Qed.

Lemma playing_frame_in_bounds (fuel : nat) (currentTime : R)
    (g g' : Game.t) :
  Game.state g = PLAYING ->
  Game.update random canvasSize today fuel currentTime g = Some g' ->
  allInBounds canvasSize g'.
Proof.
  intros Hs H. unfold Game.update in H. cbv zeta in H.
  eapply checkCollisions_in_bounds; [exact H|].
  apply updateGameObjects_playing_in_bounds.
  apply handleInput_playing. exact Hs.
Qed.

Lemma unresized_in_bounds (g : Game.t) :
  reachableUnresized random canvasSize today g -> allInBounds canvasSize g.
Proof.
  induction 1 as [fuel st stored k now g Hnew | fuel e g g' _ IH Hstep].
  - apply new_in_bounds in Hnew. exact Hnew.
  - eapply step_in_bounds; eassumption.
Qed.

(** C10. On a canvas of width and height at least 0, whatever the
    [deltaTime], also a negative or a very large one: the position of a
    ship or an asteroid after [update] is within the canvas rectangle,
    edges included; so is that of a bullet when the update moves it, and a
    bullet that the update does not move stays where it was; [wrapAxis]
    sends every coordinate into [[0, bound]]. With [Math.random()] in
    [[0, 1)], every entity is within the canvas rectangle in every state
    of a session as long as the window is not resized: the game starts
    that way and every key event and every frame keeps it that way. A
    resize changes the canvas and moves no entity, so it may leave
    entities outside; the next frame in PLAYING brings every entity of
    the game inside the canvas as it then is. *)
Theorem positions_stay_in_bounds :
  (forall deltaTime (s : Ship.t),
     inBounds canvasSize
       (Ship.position (Ship.update deltaTime canvasSize s)))
  /\ (forall deltaTime (a : Asteroid.t),
        inBounds canvasSize
          (Asteroid.position (Asteroid.update deltaTime canvasSize a)))
  /\ (forall deltaTime (b : Bullet.t),
        (Bullet.lifeTime b + deltaTime <= Bullet.maxLifeTime ->
         inBounds canvasSize
           (Bullet.position (Bullet.update deltaTime canvasSize b)))
        /\ (Bullet.lifeTime b + deltaTime > Bullet.maxLifeTime ->
            Bullet.position (Bullet.update deltaTime canvasSize b)
            = Bullet.position b))
  /\ (forall c : R,
        0 <= GameObject.wrapAxis (x canvasSize) c <= x canvasSize
        /\ 0 <= GameObject.wrapAxis (y canvasSize) c <= y canvasSize)
  /\ (forall g : Game.t,
        reachableUnresized random canvasSize today g ->
        allInBounds canvasSize g)
  /\ (forall fuel e g g',
        allInBounds canvasSize g ->
        Game.step random canvasSize today fuel e g = Some g' ->
        allInBounds canvasSize g')
  /\ (forall fuel currentTime g g',
        Game.state g = PLAYING ->
        Game.update random canvasSize today fuel currentTime g = Some g' ->
        allInBounds canvasSize g').
Proof.
  split; [|split; [|split; [|split; [|split; [|split]]]]].
  - intros dt s. apply Ship_update_in_bounds; assumption.
  - intros dt a. apply Asteroid_update_in_bounds; assumption.
  - intros dt b. rewrite Bullet_update_cases. split; intros H.
    + apply Rgtb_false in H. rewrite H.
      apply (wrapPoint_in_bounds canvasSize (mkVector2D _ _));
        assumption.
    + apply Rgtb_true in H. rewrite H. reflexivity.
  - intros c. split; apply wrapAxis_in_bounds; assumption.
  - exact unresized_in_bounds.
  - intros fuel e g g' Hinv Hstep. eapply step_in_bounds; eassumption.
  - exact playing_frame_in_bounds.
Qed.

End Bounds.

(** ** The theorems at sample inputs *)

Lemma zeroRandom_accepted (p : Vector2D) (k : nat) :
  100 <= x p -> accepted zeroRandom sampleCanvas p k.
Proof.
  unfold accepted, zeroRandom, sampleCanvas. simpl. intros Hp [H _].
  apply Rabs_def2 in H. lra.
Qed.

Lemma zeroRandom_spawns (p : Vector2D) :
  100 <= x p -> spawnsEventually zeroRandom sampleCanvas p.
Proof. intros Hp k. exists 0%nat. apply zeroRandom_accepted. exact Hp. Qed.

Lemma same_place_collides {A B : Type} `{Entity A} `{Entity B}
    (this : A) (other : B) :
  positionOf this = positionOf other ->
  0 < getCollisionRadius this + getCollisionRadius other ->
  collidesWith this other = true.
Proof.
  intros Hp Hr. apply collidesWith_iff. rewrite Hp. unfold distance.
  replace ((x (positionOf other) - x (positionOf other))
           * (x (positionOf other) - x (positionOf other))
           + (y (positionOf other) - y (positionOf other))
             * (y (positionOf other) - y (positionOf other)))
    with 0 by ring.
  rewrite sqrt_0. exact Hr.
Qed.



(** On the 800 x 600 canvas a ship is within bounds after an update of
    1000 s, and a session has reachable states. *)
Lemma positions_stay_in_bounds_witness :
  0 <= x sampleCanvas
  /\ 0 <= y sampleCanvas
  /\ (forall k : nat, 0 <= zeroRandom k < 1)
  /\ inBounds sampleCanvas
       (Ship.position
          (Ship.update 1000 sampleCanvas
             (Ship.setThrust 1 (Ship.new 400 300))))
  /\ exists g, reachableUnresized zeroRandom sampleCanvas sampleDate g
               /\ allInBounds sampleCanvas g.
Proof.
  assert (Hx : 0 <= x sampleCanvas) by (simpl; lra).
  assert (Hy : 0 <= y sampleCanvas) by (simpl; lra).
  assert (Hr : forall k : nat, 0 <= zeroRandom k < 1)
    by (intros k; unfold zeroRandom; lra).
  split; [exact Hx|]. split; [exact Hy|]. split; [exact Hr|].
  destruct (positions_stay_in_bounds zeroRandom sampleCanvas sampleDate Hx Hy Hr)
    as (Hship & _ & _ & _ & Hreach & _).
  split; [apply Hship|].
  destruct (new_terminates zeroRandom sampleCanvas "READY" sampleStorage
              0%nat) as (fuel & g & Hg).
  { apply zeroRandom_spawns. simpl. lra. }
  exists (Game.start 0 g).
  assert (Hre : reachableUnresized zeroRandom sampleCanvas sampleDate
                  (Game.start 0 g)).
  { apply (unresized_start zeroRandom sampleCanvas sampleDate fuel
             "READY" sampleStorage 0%nat).
    exact Hg. }
  split; [exact Hre | apply Hreach; exact Hre].
Defined.

(** The claim as it was made, for all reachable states, fails when the
    window is resized: the game starts on a canvas of 800 x 600 with the
    ship at (400, 300); the window shrinks to 400 x 300, the canvas
    becomes 400 x 260, and the ship, which no code has moved, is below
    the lower edge. *)
Lemma resize_leaves_ship_outside :
  let canvasSize' := VectorRenderer.setupCanvas 400 300 in
  0 <= x canvasSize'
  /\ 0 <= y canvasSize'
  /\ (forall k : nat, 0 <= zeroRandom k < 1)
  /\ exists g,
       Game.reachable zeroRandom canvasSize' sampleDate g
       /\ Game.state g = READY
       /\ Ship.position (Game.ship g) = mkVector2D (800 / 2) (600 / 2)
       /\ ~ allInBounds canvasSize' g.
Proof.
  cbv zeta. unfold VectorRenderer.setupCanvas. cbn [x y].
  split; [lra|]. split; [lra|].
  split; [intros k; unfold zeroRandom; lra|].
  destruct (new_terminates zeroRandom sampleCanvas "READY" sampleStorage
              0%nat) as (fuel & g & Hg).
  { apply zeroRandom_spawns. simpl. lra. }
  assert (Hre : Game.reachable zeroRandom sampleCanvas sampleDate
                  (Game.start 0 g)).
  { apply (Game.reachable_start zeroRandom sampleCanvas sampleDate fuel
             "READY" sampleStorage 0%nat).
    exact Hg. }
  pose proof (Game.reachable_resize zeroRandom sampleCanvas sampleDate
                400 300 _ Hre) as Hre'.
  rewrite onResize_spec in Hre'. cbn [fst snd] in Hre'.
  unfold VectorRenderer.setupCanvas in Hre'.
  unfold Game.new, Game.setupGame in Hg.
  apply createAsteroids_some in Hg. destruct Hg as (Hfr & _).
  frame_field Hfr Game.ship as Hship. frame_field Hfr Game.state as Hstate.
  eexists. split; [exact Hre'|].
  split; [exact Hstate|].
  assert (Hpos : Ship.position
                   (Game.ship
                      (Game.set_randomCalls
                         (Game.randomCalls (Game.start 0 g) + 600)
                         (Game.start 0 g)))
                 = mkVector2D (800 / 2) (600 / 2)).
  { cbn [Game.ship Game.set_randomCalls Game.start Game.set_lastTime].
    rewrite Hship. reflexivity. }
  split; [exact Hpos|].
  intros (Hin & _). rewrite Hpos in Hin. destruct Hin as [_ [_ Hy]].
  cbn [x y] in Hy. lra.
Qed.


(** Two bullets, each over an asteroid of its own: both asteroids go in
    the same pass, and the score is the sum 100 + 20. *)
Example two_kills_one_pass :
  let g := sampleGame [sampleAsteroid 100 100 large;
                       sampleAsteroid 500 500 small]
                      [Bullet.new 100 100 0; Bullet.new 500 500 0]
                      PLAYING in
  Game.score (afterBulletPass zeroRandom g) = 120%Z
  /\ Game.bullets (afterBulletPass zeroRandom g) = []
  /\ map Asteroid.size (Game.asteroids (afterBulletPass zeroRandom g))
     = [medium; medium]
  /\ map Asteroid.position (Game.asteroids (afterBulletPass zeroRandom g))
     = [mkVector2D 100 100; mkVector2D 100 100].
Proof.
  intros g.
  assert (Hc1 : collidesWith (Bullet.new 500 500 0)
                  (sampleAsteroid 500 500 small) = true).
  { apply same_place_collides; [reflexivity | simpl; lra]. }
  assert (Hc0 : collidesWith (Bullet.new 100 100 0)
                  (sampleAsteroid 100 100 large) = true).
  { apply same_place_collides; [reflexivity | simpl; lra]. }
  assert (Heq : afterBulletPass zeroRandom g
                = hitResult zeroRandom 0 0 (sampleAsteroid 100 100 large)
                    (hitResult zeroRandom 1 1 (sampleAsteroid 500 500 small)
                       g)).
  { unfold afterBulletPass.
    change (length (Game.bullets g)) with 2%nat.
    rewrite (scanBullets_step zeroRandom 1 g (Bullet.new 500 500 0) eq_refl).
    change (length (Game.asteroids g)) with 2%nat.
    rewrite (scanAsteroids_hit zeroRandom (Bullet.new 500 500 0) 1 1 g
               (sampleAsteroid 500 500 small) eq_refl Hc1).
    set (g1 := hitResult zeroRandom 1 1 (sampleAsteroid 500 500 small) g).
    rewrite (scanBullets_step zeroRandom 0 g1 (Bullet.new 100 100 0) eq_refl).
    change (length (Game.asteroids g1)) with 1%nat.
    rewrite (scanAsteroids_hit zeroRandom (Bullet.new 100 100 0) 0 0 g1
               (sampleAsteroid 100 100 large) eq_refl Hc0).
    reflexivity. }
  rewrite Heq. repeat split.
Qed.

(** ** A frame always completes when the random source is fair *)

Lemma fairRandom_range (k : nat) : 0 <= fairRandom k < 1.
Proof. unfold fairRandom. destruct (Nat.even (k / 2)); lra. Qed.

Lemma fairRandom_alternates (k : nat) :
  (fairRandom k = 0 /\ fairRandom (k + 2) = 99 / 100)
  \/ (fairRandom k = 99 / 100 /\ fairRandom (k + 2) = 0).
Proof.
  unfold fairRandom.
  replace ((k + 2) / 2)%nat with (S (k / 2))%nat.
  - rewrite Nat.even_succ, <- Nat.negb_even.
    destruct (Nat.even (k / 2)); [left | right]; split; reflexivity.
  - replace (k + 2)%nat with (k + 1 * 2)%nat by lia.
    rewrite Nat.div_add by lia. lia.
Qed.

Lemma fairRandom_spawns (p : Vector2D) :
  spawnsEventually fairRandom sampleCanvas p.
Proof.
  intros k.
  destruct (Rlt_dec (Rabs (fairRandom k * x sampleCanvas - x p)) 100)
    as [Hnear | Hfar].
  - exists 1%nat. replace (k + 2 * 1)%nat with (k + 2)%nat by lia.
    unfold accepted. intros [H _].
    apply Rabs_def2 in Hnear. apply Rabs_def2 in H. simpl in *.
    destruct (fairRandom_alternates k) as [[E1 E2] | [E1 E2]];
      rewrite E1 in Hnear; rewrite E2 in H; lra.
  - exists 0%nat. replace (k + 2 * 0)%nat with k by lia.
    unfold accepted. intros [H _]. contradiction.
Qed.

Section Progress.

Variable random : nat -> R.
Variable canvasSize : Vector2D.
Variable today : string.

Hypothesis fair : forall p, spawnsEventually random canvasSize p.

Lemma checkCollisions_terminates (g : Game.t) :
  exists fuel g',
    Game.checkCollisions random canvasSize today fuel g = Some g'.
Proof.
  unfold Game.checkCollisions.
  destruct (negb _); [exists 0%nat; eexists; reflexivity|].
  destruct (_ =? 0)%nat; [|exists 0%nat; eexists; reflexivity].
  unfold Game.nextLevel. apply createAsteroids_terminates. apply fair.
Qed.

Lemma update_terminates (currentTime : R) (g : Game.t) :
  exists fuel g',
    Game.update random canvasSize today fuel currentTime g = Some g'.
Proof. unfold Game.update. apply checkCollisions_terminates. Qed.

Lemma step_terminates (e : Game.Event) (g : Game.t) :
  exists fuel g', Game.step random canvasSize today fuel e g = Some g'.
Proof.
  destruct e as [code | code | currentTime]; cbn [Game.step].
  - unfold Game.keydown. destruct (String.eqb code "Space").
    + unfold Game.onSpace. destruct (Game.state _);
        try (exists 0%nat; eexists; reflexivity).
      unfold Game.resetGame, Game.setupGame.
      apply createAsteroids_terminates. apply fair.
    + destruct (String.eqb code "KeyP"); exists 0%nat; eexists; reflexivity.
  - exists 0%nat. eexists. reflexivity.
  - apply update_terminates.
Qed.

End Progress.

(** With no asteroid in the field no pass changes anything, and the frame
    goes on to the next level. *)
Lemma empty_field_pass (random : nat -> R) (i1 : nat) (g : Game.t) :
  Game.asteroids g = [] -> Game.scanBullets random i1 g = g.
Proof.
  intros He. induction i1 as [|i IH]; [reflexivity|].
  cbn [Game.scanBullets]. rewrite He. cbn [length Game.scanAsteroids].
  destruct (nth_error (Game.bullets g) i); exact IH.
Qed.

Lemma empty_field_update (random : nat -> R) (canvasSize : Vector2D)
    (today : string) (fuel : nat) (currentTime : R) (g g' : Game.t) :
  Game.state g = PLAYING ->
  Game.asteroids g = [] ->
  Game.update random canvasSize today fuel currentTime g = Some g' ->
  Game.state g' = PLAYING /\ Game.level g' = (Game.level g + 1)%Z.
Proof.
  intros Hs He. unfold Game.update. cbv zeta.
  set (dt := (currentTime - Game.lastTime g) / 1000).
  set (g1 := Game.set_lastTime currentTime g).
  destruct (handleInput_playing dt g1 Hs)
    as (Hs2 & _ & _ & Ha2 & _ & _ & Hl2 & _).
  pose proof (updateGameObjects_frame canvasSize dt (Game.handleInput dt g1))
    as Hfr.
  frame_field Hfr Game.state as Hs3. frame_field Hfr Game.level as Hl3.
  assert (Ha3 : Game.asteroids
                  (Game.updateGameObjects canvasSize dt
                     (Game.handleInput dt g1)) = []).
  { unfold Game.updateGameObjects. rewrite Hs2.
    cbn [GameState_eqb negb Game.asteroids Game.set_bullets
         Game.set_asteroids Game.set_ship].
    rewrite Ha2. unfold g1. cbn [Game.asteroids Game.set_lastTime].
    rewrite He. reflexivity. }
  set (g3 := Game.updateGameObjects canvasSize dt (Game.handleInput dt g1))
    in *.
  assert (Hs3' : Game.state g3 = PLAYING) by congruence.
  rewrite (checkCollisions_playing random canvasSize today fuel g3 Hs3').
  unfold afterBulletPass. rewrite (empty_field_pass random _ g3 Ha3).
  unfold afterShipPass. rewrite Ha3. cbn [Game.scanShip]. cbv zeta.
  rewrite Ha3. unfold Game.nextLevel. intros H.
  apply createAsteroids_some in H. destruct H as (Hfr' & _).
  frame_field Hfr' Game.state as Hs4. frame_field Hfr' Game.level as Hl4.
  split; [congruence|]. rewrite Hl4, Hl3, Hl2. reflexivity.
Qed.

(** With the fire key held, a frame at 16 ms spawns a bullet; the next
    frame that can spawn one comes at least 150 ms later, and a frame at
    166 ms does. *)
Lemma fire_rate_limit_witness :
  let g0 := Game.set_keys ["Space"%string] (sampleGame [] [] PLAYING) in
  spawnsBullet 16 g0
  /\ exists fuel g1,
       Game.update fairRandom sampleCanvas sampleDate fuel 16 g0 = Some g1
       /\ ~ spawnsBullet 100 g1
       /\ spawnsBullet 166 g1
       /\ accumulated 16 ([] ++ [166]) >= 15 / 100.
Proof.
  intros g0.
  assert (H0 : spawnsBullet 16 g0).
  { apply spawnsBullet_iff. split; [reflexivity|]. split; [reflexivity|].
    simpl. lra. }
  split; [exact H0|].
  destruct (update_terminates fairRandom sampleCanvas sampleDate fairRandom_spawns
              16 g0) as (fuel & g1 & Hup).
  exists fuel, g1. split; [exact Hup|].
  destruct (empty_field_update fairRandom sampleCanvas sampleDate fuel 16 g0 g1
              eq_refl eq_refl Hup) as [Hs1 _].
  destruct (update_cooldown fairRandom sampleCanvas sampleDate fuel 16 g0 g1 Hup)
    as (Hlt & Hk & Hfd).
  destruct (Hfd Hs1) as [_ Hfd1].
  assert (Hfd1' : Game.fireDelay g1 = 15 / 100).
  { rewrite Hfd1. cbn [g0 Game.keys Game.set_keys InputManager.isFirePressed
                       InputManager.isKeyPressed existsb String.eqb
                       Ascii.eqb Bool.eqb orb andb].
    replace (_ <=? 0) with true; [reflexivity|].
    symmetry. apply Rleb_true. simpl. lra. }
  assert (H2 : spawnsBullet 166 g1).
  { apply spawnsBullet_iff. split; [exact Hs1|]. split.
    - rewrite Hk. reflexivity.
    - rewrite Hfd1', Hlt. lra. }
  split; [|split; [exact H2|]].
  - intros H. apply spawnsBullet_iff in H. destruct H as (_ & _ & H).
    rewrite Hfd1', Hlt in H. lra.
  - destruct (fire_rate_limit fairRandom sampleCanvas sampleDate)
      as (_ & _ & _ & Hrate).
    apply (Hrate fuel 16 g0 g1 [] g1 166 H0 Hup eq_refl H2).
Defined.

(** * More of the code *)

(** ** High scores *)

Section Sorting.

Context {A : Type}.
Variable key : A -> Z.

Lemma insertDesc_perm (e : A) (l : list A) :
  Permutation (HighScoreManager.insertDesc key e l) (e :: l).
Proof.
  induction l as [|h rest IH]; cbn [HighScoreManager.insertDesc].
  - apply Permutation_refl.
  - destruct (key h <=? key e)%Z; [apply Permutation_refl|].
    apply perm_trans with (h :: e :: rest);
      [apply perm_skip; exact IH | apply perm_swap].
Qed.

Lemma sortDesc_perm (l : list A) :
  Permutation (HighScoreManager.sortDesc key l) l.
Proof.
  induction l as [|h rest IH]; [apply Permutation_refl|].
  unfold HighScoreManager.sortDesc in *. cbn [fold_right].
  eapply perm_trans; [apply insertDesc_perm | apply perm_skip; exact IH].
Qed.

Lemma insertDesc_sorted (e : A) (l : list A) :
  StronglySorted (descending key) l ->
  StronglySorted (descending key) (HighScoreManager.insertDesc key e l).
Proof.
  induction 1 as [|h rest Hs IH Hall]; cbn [HighScoreManager.insertDesc].
  - constructor; constructor.
  - destruct (key h <=? key e)%Z eqn:E;
      [apply Z.leb_le in E | apply Z.leb_gt in E].
    + constructor; [constructor; assumption|].
      constructor; [exact E|].
      eapply Forall_impl; [|exact Hall].
      unfold descending. intros a Ha. lia.
    + constructor; [exact IH|].
      apply (Permutation_Forall
               (Permutation_sym (insertDesc_perm e rest))).
      constructor; [unfold descending; lia | exact Hall].
Qed.

Lemma sortDesc_sorted (l : list A) :
  StronglySorted (descending key) (HighScoreManager.sortDesc key l).
Proof.
  induction l as [|h rest IH]; [constructor|].
  unfold HighScoreManager.sortDesc in *. cbn [fold_right].
  apply insertDesc_sorted. exact IH.
Qed.

Lemma sorted_head_insert (h : A) (l : list A) :
  Forall (descending key h) l ->
  HighScoreManager.insertDesc key h l = h :: l.
Proof.
  intros Hall. destruct l as [|h' rest]; [reflexivity|].
  cbn [HighScoreManager.insertDesc].
  inversion Hall as [|? ? Hh' _]; subst. unfold descending in Hh'.
  replace (key h' <=? key h)%Z with true
    by (symmetry; apply Z.leb_le; exact Hh').
  reflexivity.
Qed.

(** Sorting a sorted list changes nothing. *)
Lemma sortDesc_fixed (l : list A) :
  StronglySorted (descending key) l -> HighScoreManager.sortDesc key l = l.
Proof.
  induction 1 as [|h rest Hs IH Hall]; [reflexivity|].
  unfold HighScoreManager.sortDesc in *. cbn [fold_right]. rewrite IH.
  apply sorted_head_insert. exact Hall.
Qed.

Lemma filter_none_below (e h : A) (rest : list A) :
  Forall (descending key h) rest -> (key h < key e)%Z ->
  filter (fun a => (key e <=? key a)%Z) rest = []
  /\ filter (fun a => (key a <? key e)%Z) rest = rest.
Proof.
  intros Hall Hlt. induction Hall as [|r rest' Hr Hall' IH];
    [split; reflexivity|].
  unfold descending in Hr. destruct IH as [IH1 IH2]. cbn [filter].
  replace (key e <=? key r)%Z with false
    by (symmetry; apply Z.leb_gt; lia).
  replace (key r <? key e)%Z with true
    by (symmetry; apply Z.ltb_lt; lia).
  split; [exact IH1 | f_equal; exact IH2].
Qed.

(** Where a new last element lands in a sorted list: behind everything
    that is at least as large, in front of everything smaller. *)
Lemma sortDesc_push (l : list A) (e : A) :
  StronglySorted (descending key) l ->
  HighScoreManager.sortDesc key (l ++ [e])
  = filter (fun a => (key e <=? key a)%Z) l
    ++ e :: filter (fun a => (key a <? key e)%Z) l.
Proof.
  unfold HighScoreManager.sortDesc. rewrite fold_right_app.
  cbn [fold_right HighScoreManager.insertDesc].
  induction 1 as [|h rest Hs IH Hall]; [reflexivity|].
  cbn [fold_right filter]. rewrite IH.
  destruct (key e <=? key h)%Z eqn:E;
    [apply Z.leb_le in E | apply Z.leb_gt in E].
  - replace (key h <? key e)%Z with false
      by (symmetry; apply Z.ltb_ge; exact E).
    cbn [app]. apply sorted_head_insert.
    apply Forall_app. split.
    + apply Forall_forall. intros a Ha. apply filter_In in Ha.
      rewrite Forall_forall in Hall. apply Hall. apply Ha.
    + constructor; [exact E|].
      apply Forall_forall. intros a Ha. apply filter_In in Ha.
      rewrite Forall_forall in Hall. apply Hall. apply Ha.
  - replace (key h <? key e)%Z with true
      by (symmetry; apply Z.ltb_lt; exact E).
    destruct (filter_none_below e h rest Hall E) as [-> ->].
    cbn [app HighScoreManager.insertDesc].
    replace (key e <=? key h)%Z with false
      by (symmetry; apply Z.leb_gt; exact E).
    f_equal. apply sorted_head_insert. exact Hall.
Qed.

End Sorting.

Lemma sorted_map_mark (l : list HighScoreManager.HighScoreEntry) :
  StronglySorted (descending HighScoreManager.score) l ->
  StronglySorted
    (descending (fun p : HighScoreManager.HighScoreEntry * bool =>
                   HighScoreManager.score (fst p)))
    (map (fun e => (e, false)) l).
Proof.
  induction 1 as [|h rest Hs IH Hall]; cbn [map]; constructor.
  - exact IH.
  - apply Forall_forall. intros p Hp. apply in_map_iff in Hp.
    destruct Hp as (e & <- & He). rewrite Forall_forall in Hall.
    apply (Hall e He).
Qed.

Lemma filter_map_mark (f : HighScoreManager.HighScoreEntry -> bool)
    (l : list HighScoreManager.HighScoreEntry) :
  filter (fun p : HighScoreManager.HighScoreEntry * bool => f (fst p))
         (map (fun e => (e, false)) l)
  = map (fun e => (e, false)) (filter f l).
Proof.
  induction l as [|h rest IH]; [reflexivity|].
  cbn [map filter fst]. destruct (f h); cbn [map]; rewrite IH; reflexivity.
Qed.

Lemma map_fst_mark (l : list HighScoreManager.HighScoreEntry) :
  map fst (map (fun e => (e, false)) l) = l.
Proof. rewrite map_map. cbn [fst]. apply map_id. Qed.

Lemma existsb_mark (n : nat) (A : list HighScoreManager.HighScoreEntry)
    (e : HighScoreManager.HighScoreEntry)
    (rest : list (HighScoreManager.HighScoreEntry * bool)) :
  existsb snd (firstn n (map (fun a => (a, false)) A ++ (e, true) :: rest))
  = (length A <? n)%nat.
Proof.
  revert n. induction A as [|a A IH]; intros n.
  - destruct n; reflexivity.
  - destruct n as [|n]; [reflexivity|].
    cbn [map app firstn existsb snd length orb]. rewrite IH. reflexivity.
Qed.

(** What [getHighScores] returns is sorted, best first; it is the stored
    list in that order when the storage can be read, and empty when it
    cannot. *)
Lemma getHighScores_sorted (storage : HighScoreManager.Storage) :
  StronglySorted (descending HighScoreManager.score)
    (HighScoreManager.getHighScores storage).
Proof.
  unfold HighScoreManager.getHighScores.
  destruct (HighScoreManager.getItemThrows storage); [constructor|].
  destruct (HighScoreManager.item storage);
    [constructor | constructor | apply sortDesc_sorted].
Qed.

Lemma getHighScores_read (storage : HighScoreManager.Storage)
    (stored : list HighScoreManager.HighScoreEntry) :
  HighScoreManager.getItemThrows storage = false ->
  HighScoreManager.item storage = HighScoreManager.Scores stored ->
  HighScoreManager.getHighScores storage
  = HighScoreManager.sortDesc HighScoreManager.score stored.
Proof.
  intros Hget Hitem. unfold HighScoreManager.getHighScores.
  rewrite Hget, Hitem. reflexivity.
Qed.

Lemma getHighScores_unread (storage : HighScoreManager.Storage) :
  HighScoreManager.getItemThrows storage = true
  \/ HighScoreManager.item storage = HighScoreManager.Absent
  \/ HighScoreManager.item storage = HighScoreManager.Unreadable ->
  HighScoreManager.getHighScores storage = [].
Proof.
  unfold HighScoreManager.getHighScores.
  intros [H | [H | H]]; rewrite H; [reflexivity| |];
    destruct (HighScoreManager.getItemThrows storage); reflexivity.
Qed.

Lemma getHighScores_setItem (storage : HighScoreManager.Storage)
    (entries : list HighScoreManager.HighScoreEntry) :
  HighScoreManager.getItemThrows storage = false ->
  StronglySorted (descending HighScoreManager.score) entries ->
  HighScoreManager.getHighScores
    (HighScoreManager.setItem entries storage) = entries.
Proof.
  intros Hget Hs. unfold HighScoreManager.getHighScores.
  cbn [HighScoreManager.setItem HighScoreManager.getItemThrows
       HighScoreManager.item].
  rewrite Hget. apply sortDesc_fixed. exact Hs.
Qed.

(** [addScore] in one formula: the new entry goes behind the scores read
    that are at least as high and in front of the lower ones, and the
    first ten are kept; when [setItem] does not throw they are stored and
    the flag tells whether fewer than ten of the scores read are at least
    as high as the new one; when it throws the storage stays and the flag
    is [false]. *)
Lemma addScore_cases (today : string) (sc lv : Z)
    (storage : HighScoreManager.Storage) :
  HighScoreManager.addScore today sc lv storage
  = if HighScoreManager.setItemThrows storage then (storage, false)
    else
      (HighScoreManager.setItem
         (firstn HighScoreManager.MAX_SCORES
            (atLeast sc (HighScoreManager.getHighScores storage)
             ++ HighScoreManager.mkEntry sc today lv
                :: below sc (HighScoreManager.getHighScores storage)))
         storage,
       (length (atLeast sc (HighScoreManager.getHighScores storage))
        <? HighScoreManager.MAX_SCORES)%nat).
Proof.
  unfold HighScoreManager.addScore. cbv zeta.
  destruct (HighScoreManager.setItemThrows storage); [reflexivity|].
  set (sorted := HighScoreManager.getHighScores storage).
  assert (Hs : StronglySorted (descending HighScoreManager.score) sorted)
    by apply getHighScores_sorted.
  rewrite (sortDesc_push _ _ _ (sorted_map_mark sorted Hs)).
  cbn [fst HighScoreManager.score].
  rewrite (filter_map_mark (fun e => (sc <=? HighScoreManager.score e)%Z)).
  rewrite (filter_map_mark (fun e => (HighScoreManager.score e <? sc)%Z)).
  fold (atLeast sc sorted). fold (below sc sorted).
  rewrite existsb_mark. f_equal. f_equal.
  rewrite <- firstn_map, map_app. cbn [map fst].
  rewrite !map_fst_mark. reflexivity.
Qed.

Lemma sorted_split (sc : Z) (l : list HighScoreManager.HighScoreEntry) :
  StronglySorted (descending HighScoreManager.score) l ->
  l = atLeast sc l ++ below sc l.
Proof.
  induction 1 as [|h rest Hs IH Hall]; [reflexivity|].
  unfold atLeast, below in *. cbn [filter].
  destruct (sc <=? HighScoreManager.score h)%Z eqn:E;
    [apply Z.leb_le in E | apply Z.leb_gt in E].
  - replace (HighScoreManager.score h <? sc)%Z with false
      by (symmetry; apply Z.ltb_ge; exact E).
    cbn [app]. f_equal. exact IH.
  - replace (HighScoreManager.score h <? sc)%Z with true
      by (symmetry; apply Z.ltb_lt; exact E).
    destruct (filter_none_below HighScoreManager.score
                (HighScoreManager.mkEntry sc EmptyString 0) h rest Hall E)
      as [H1 H2].
    cbn [HighScoreManager.score] in H1, H2. rewrite H1, H2. reflexivity.
Qed.

Lemma sorted_sublist_app (sc : Z) (A B : list HighScoreManager.HighScoreEntry)
    (e : HighScoreManager.HighScoreEntry) :
  StronglySorted (descending HighScoreManager.score) (A ++ B) ->
  Forall (fun a => (HighScoreManager.score e <= HighScoreManager.score a)%Z) A ->
  Forall (fun b => (HighScoreManager.score b < HighScoreManager.score e)%Z) B ->
  StronglySorted (descending HighScoreManager.score) (A ++ e :: B).
Proof.
  intros Hs HA HB. induction A as [|a A IH]; cbn [app] in *.
  - constructor; [exact Hs|].
    eapply Forall_impl; [|exact HB]. unfold descending. intros b Hb. lia.
  - inversion Hs as [|? ? Hs' Hall]; subst.
    inversion HA as [|? ? Ha HA']; subst.
    constructor; [apply IH; assumption|].
    apply Forall_app in Hall. destruct Hall as [H1 H2].
    apply Forall_app. split; [exact H1|].
    constructor; [exact Ha | exact H2].
Qed.

Lemma firstn_In {A : Type} (n : nat) (l : list A) (e : A) :
  In e (firstn n l) -> In e l.
Proof.
  intros H. rewrite <- (firstn_skipn n l). apply in_or_app. left. exact H.
Qed.

Lemma sorted_firstn {A : Type} (R : A -> A -> Prop) (n : nat) (l : list A) :
  StronglySorted R l -> StronglySorted R (firstn n l).
Proof.
  intros Hs. revert n. induction Hs as [|h rest Hs IH Hall]; intros n.
  - rewrite firstn_nil. constructor.
  - destruct n as [|n]; [constructor|]. cbn [firstn].
    constructor; [apply IH|].
    apply Forall_forall. intros a Ha. rewrite Forall_forall in Hall.
    apply Hall. eapply firstn_In. exact Ha.
Qed.

Lemma atLeast_length_perm (sc : Z)
    (l l' : list HighScoreManager.HighScoreEntry) :
  Permutation l l' -> length (atLeast sc l) = length (atLeast sc l').
Proof.
  unfold atLeast. induction 1 as [| a l l' _ IH | a b l | l l' l'' _ IH1 _ IH2];
    cbn [filter].
  - reflexivity.
  - destruct (sc <=? HighScoreManager.score a)%Z; cbn [length]; lia.
  - destruct (sc <=? HighScoreManager.score a)%Z;
      destruct (sc <=? HighScoreManager.score b)%Z; reflexivity.
  - lia.
Qed.

(** The list that [addScore] makes of a sorted list is sorted. *)
Lemma inserted_sorted (today : string) (sc lv : Z)
    (sorted : list HighScoreManager.HighScoreEntry) :
  StronglySorted (descending HighScoreManager.score) sorted ->
  StronglySorted (descending HighScoreManager.score)
    (atLeast sc sorted
     ++ HighScoreManager.mkEntry sc today lv :: below sc sorted).
Proof.
  intros Hs. apply (sorted_sublist_app sc).
  - rewrite <- sorted_split by exact Hs. exact Hs.
  - apply Forall_forall. intros a Ha. apply filter_In in Ha.
    destruct Ha as [_ Ha]. apply Z.leb_le in Ha. exact Ha.
  - apply Forall_forall. intros b Hb. apply filter_In in Hb.
    destruct Hb as [_ Hb]. apply Z.ltb_lt in Hb. exact Hb.
Qed.

(** X1. What [addScore] stores. When [setItem] throws, the storage is
    left as it was. When it does not, the stored list has at most ten
    entries, best first, one more than [getHighScores] returned unless
    those were ten or more; each entry is the new one or one that
    [getHighScores] returned; and when the storage can be read,
    [getHighScores] gives the same list back in the same order. What
    [getHighScores] returned is a rearrangement of the stored list when
    the storage could be read, and empty when it could not. *)
Theorem addScore_board (today : string) (sc lv : Z)
    (storage : HighScoreManager.Storage) :
  let scores := HighScoreManager.getHighScores storage in
  let storage' := fst (HighScoreManager.addScore today sc lv storage) in
  (HighScoreManager.setItemThrows storage = true -> storage' = storage)
  /\ (HighScoreManager.setItemThrows storage = false ->
      exists saved,
        storage' = HighScoreManager.setItem saved storage
        /\ HighScoreManager.item storage' = HighScoreManager.Scores saved
        /\ board saved
        /\ length saved
           = Nat.min HighScoreManager.MAX_SCORES (S (length scores))
        /\ (forall e, In e saved ->
              e = HighScoreManager.mkEntry sc today lv \/ In e scores)
        /\ (HighScoreManager.getItemThrows storage = false ->
            HighScoreManager.getHighScores storage' = saved))
  /\ (forall stored,
        HighScoreManager.getItemThrows storage = false ->
        HighScoreManager.item storage = HighScoreManager.Scores stored ->
        Permutation scores stored)
  /\ (HighScoreManager.getItemThrows storage = true
      \/ HighScoreManager.item storage = HighScoreManager.Absent
      \/ HighScoreManager.item storage = HighScoreManager.Unreadable ->
      scores = []).
Proof.
  cbv zeta. rewrite addScore_cases.
  set (sorted := HighScoreManager.getHighScores storage).
  assert (Hs : StronglySorted (descending HighScoreManager.score) sorted)
    by apply getHighScores_sorted.
  set (new := HighScoreManager.mkEntry sc today lv).
  pose proof (inserted_sorted today sc lv sorted Hs) as Hfull.
  fold new in Hfull.
  assert (Hlen : length (atLeast sc sorted ++ new :: below sc sorted)
                 = S (length sorted)).
  { rewrite length_app. cbn [length]. rewrite Nat.add_succ_r.
    rewrite <- length_app, <- sorted_split by exact Hs. reflexivity. }
  assert (Hsaved : StronglySorted (descending HighScoreManager.score)
                     (firstn HighScoreManager.MAX_SCORES
                        (atLeast sc sorted ++ new :: below sc sorted)))
    by (apply sorted_firstn; exact Hfull).
  split; [|split; [|split]].
  - intros ->. reflexivity.
  - intros ->. cbn [fst].
    exists (firstn HighScoreManager.MAX_SCORES
              (atLeast sc sorted ++ new :: below sc sorted)).
    split; [reflexivity|]. split; [reflexivity|].
    split; [split; [rewrite length_firstn; lia | exact Hsaved]|].
    split; [rewrite length_firstn, Hlen; reflexivity|].
    split.
    + intros e He. apply firstn_In in He. apply in_app_or in He.
      destruct He as [He | [He | He]].
      * right. apply filter_In in He. destruct He as [He _]. exact He.
      * left. symmetry. exact He.
      * right. apply filter_In in He. destruct He as [He _]. exact He.
    + intros Hget. apply getHighScores_setItem; assumption.
  - intros stored Hget Hitem. unfold sorted.
    rewrite (getHighScores_read storage stored Hget Hitem).
    apply sortDesc_perm.
  - apply getHighScores_unread.
Qed.

(** X2. [addScore] returns [true] exactly when [setItem] does not throw
    and fewer than ten of the scores that [getHighScores] returned are at
    least as high as the new score; the new entry is then on the stored
    board. When [setItem] does not throw and the flag is [false], the
    stored board is the ten best of the scores read. When [setItem]
    throws, the flag is [false] and the storage is as it was. *)
Theorem addScore_flag (today : string) (sc lv : Z)
    (storage : HighScoreManager.Storage) :
  let scores := HighScoreManager.getHighScores storage in
  let storage' := fst (HighScoreManager.addScore today sc lv storage) in
  let made := snd (HighScoreManager.addScore today sc lv storage) in
  (made = true
   <-> HighScoreManager.setItemThrows storage = false
       /\ (length (atLeast sc scores) < 10)%nat)
  /\ (made = true ->
      exists saved,
        HighScoreManager.item storage' = HighScoreManager.Scores saved
        /\ In (HighScoreManager.mkEntry sc today lv) saved)
  /\ (HighScoreManager.setItemThrows storage = false -> made = false ->
      HighScoreManager.item storage'
      = HighScoreManager.Scores (firstn 10 scores))
  /\ (HighScoreManager.setItemThrows storage = true ->
      made = false /\ storage' = storage)
  /\ (forall stored,
        HighScoreManager.getItemThrows storage = false ->
        HighScoreManager.item storage = HighScoreManager.Scores stored ->
        length (atLeast sc scores) = length (atLeast sc stored)).
Proof.
  cbv zeta. rewrite addScore_cases.
  set (sorted := HighScoreManager.getHighScores storage).
  assert (Hs : StronglySorted (descending HighScoreManager.score) sorted)
    by apply getHighScores_sorted.
  unfold HighScoreManager.MAX_SCORES.
  destruct (HighScoreManager.setItemThrows storage) eqn:Hset; cbn [fst snd].
  - split; [split; [discriminate | intros [H _]; discriminate H]|].
    split; [discriminate|]. split; [discriminate|].
    split; [split; reflexivity|].
    intros stored Hget Hitem. unfold sorted.
    rewrite (getHighScores_read storage stored Hget Hitem).
    apply atLeast_length_perm, sortDesc_perm.
  - split.
    { rewrite Nat.ltb_lt. split; [intros H; split; [reflexivity|exact H]|].
      intros [_ H]. exact H. }
    split.
    { intros H. apply Nat.ltb_lt in H.
      eexists. split; [reflexivity|].
      rewrite firstn_app. apply in_or_app. right.
      destruct (10 - length (atLeast sc sorted))%nat as [|k] eqn:Ek; [lia|].
      left. reflexivity. }
    split.
    { intros _ H. apply Nat.ltb_ge in H.
      cbn [HighScoreManager.setItem HighScoreManager.item]. f_equal.
      rewrite firstn_app.
      replace (10 - length (atLeast sc sorted))%nat with 0%nat by lia.
      rewrite firstn_0, app_nil_r.
      rewrite (sorted_split sc sorted Hs) at 2.
      rewrite firstn_app.
      replace (10 - length (atLeast sc sorted))%nat with 0%nat by lia.
      rewrite firstn_0, app_nil_r. reflexivity. }
    split; [discriminate|].
    intros stored Hget Hitem. unfold sorted.
    rewrite (getHighScores_read storage stored Hget Hitem).
    apply atLeast_length_perm, sortDesc_perm.
Qed.

Lemma atLeast_all (sc : Z) (l : list HighScoreManager.HighScoreEntry) :
  (forall e, In e l -> (sc <= HighScoreManager.score e)%Z) ->
  atLeast sc l = l.
Proof.
  intros Hall. unfold atLeast. induction l as [|h rest IH]; [reflexivity|].
  cbn [filter].
  replace (sc <=? HighScoreManager.score h)%Z with true
    by (symmetry; apply Z.leb_le; apply Hall; left; reflexivity).
  f_equal. apply IH. intros e He. apply Hall. right. exact He.
Qed.

(** X3. A score that is not above any entry of a full board of ten leaves
    the storage that holds the board as it is, and [addScore] returns
    [false], whether [setItem] throws or not. *)
Theorem addScore_full_board (today : string) (sc lv : Z)
    (storage : HighScoreManager.Storage)
    (stored : list HighScoreManager.HighScoreEntry) :
  HighScoreManager.getItemThrows storage = false ->
  HighScoreManager.item storage = HighScoreManager.Scores stored ->
  board stored ->
  length stored = 10%nat ->
  (forall e, In e stored -> (sc <= HighScoreManager.score e)%Z) ->
  HighScoreManager.addScore today sc lv storage = (storage, false).
Proof.
  intros Hget Hitem [_ Hs] Hlen Hlow. rewrite addScore_cases.
  destruct (HighScoreManager.setItemThrows storage) eqn:Hset;
    [reflexivity|].
  rewrite (getHighScores_read storage stored Hget Hitem).
  rewrite (sortDesc_fixed _ _ Hs), (atLeast_all sc stored Hlow).
  unfold HighScoreManager.MAX_SCORES. rewrite Hlen. f_equal.
  rewrite firstn_app, Hlen. cbn [Nat.sub]. rewrite firstn_0, app_nil_r.
  replace (firstn 10 stored) with stored
    by (rewrite <- Hlen; symmetry; apply firstn_all).
  destruct storage as [it g s r]. cbn in Hitem. subst it. reflexivity.
Qed.

(** A full board of ten scores of 100, and a new score of 50. *)
Lemma addScore_full_board_witness :
  let stored := repeat (HighScoreManager.mkEntry 100 "1/1/2026" 3) 10 in
  let storage :=
    HighScoreManager.mkStorage (HighScoreManager.Scores stored)
      false false false in
  board stored
  /\ HighScoreManager.addScore "2/1/2026" 50 1 storage = (storage, false).
Proof.
  intros stored storage.
  assert (Hb : board stored).
  { unfold stored. split; [unfold HighScoreManager.MAX_SCORES; cbn; lia|].
    cbn [repeat].
    repeat (constructor; [|repeat constructor; unfold descending; cbn; lia]).
    constructor. }
  split; [exact Hb|].
  apply (addScore_full_board "2/1/2026" 50 1 storage stored
           eq_refl eq_refl Hb eq_refl).
  intros e He. apply repeat_spec in He. subst e. cbn. lia.
Defined.

Lemma sorted_last_min (init : list HighScoreManager.HighScoreEntry)
    (last : HighScoreManager.HighScoreEntry) :
  StronglySorted (descending HighScoreManager.score) (init ++ [last]) ->
  forall e, In e init ->
    (HighScoreManager.score last <= HighScoreManager.score e)%Z.
Proof.
  induction init as [|h rest IH]; intros Hs e He; [destruct He|].
  cbn [app] in Hs. inversion Hs as [|? ? Hs' Hall]; subst.
  destruct He as [<- | He].
  - rewrite Forall_forall in Hall. apply Hall.
    apply in_or_app. right. left. reflexivity.
  - apply IH; assumption.
Qed.

(** For at most ten scores read, [isHighScore] tells whether fewer than
    ten of them are at least as high as the score. *)
Lemma isHighScore_count (sc : Z) (storage : HighScoreManager.Storage) :
  (length (HighScoreManager.getHighScores storage) <= 10)%nat ->
  HighScoreManager.isHighScore sc storage
  = (length (atLeast sc (HighScoreManager.getHighScores storage))
     <? 10)%nat.
Proof.
  intros Hn. unfold HighScoreManager.isHighScore. cbv zeta.
  set (sorted := HighScoreManager.getHighScores storage) in *.
  assert (Hs : StronglySorted (descending HighScoreManager.score) sorted)
    by apply getHighScores_sorted.
  unfold HighScoreManager.MAX_SCORES.
  assert (Hfl : (length (atLeast sc sorted) <= length sorted)%nat)
    by apply filter_length_le.
  destruct (length sorted <? 10)%nat eqn:E;
    [apply Nat.ltb_lt in E | apply Nat.ltb_ge in E]; cbn [orb].
  - symmetry. apply Nat.ltb_lt. lia.
  - destruct (exists_last (l := sorted)) as (init & last & Hsplit).
    { intros H0. rewrite H0 in E. cbn in E. lia. }
    assert (Hinit : length init = 9%nat).
    { rewrite Hsplit, length_app in E, Hn. cbn [length] in E, Hn. lia. }
    clearbody sorted. subst sorted.
    rewrite length_app. cbn [length].
    replace (length init + 1 - 1)%nat with (length init) by lia.
    rewrite nth_error_app2 by lia. rewrite Nat.sub_diag. cbn [nth_error].
    unfold atLeast. rewrite filter_app, length_app. cbn [filter].
    destruct (HighScoreManager.score last <? sc)%Z eqn:El;
      [apply Z.ltb_lt in El | apply Z.ltb_ge in El].
    + replace (sc <=? HighScoreManager.score last)%Z with false
        by (symmetry; apply Z.leb_gt; exact El).
      cbn [length]. symmetry. apply Nat.ltb_lt.
      pose proof (filter_length_le
                    (fun e => (sc <=? HighScoreManager.score e)%Z) init).
      lia.
    + replace (sc <=? HighScoreManager.score last)%Z with true
        by (symmetry; apply Z.leb_le; exact El).
      fold (atLeast sc init). rewrite atLeast_all.
      * cbn [length]. symmetry. apply Nat.ltb_ge. lia.
      * intros e He. pose proof (sorted_last_min init last Hs e He). lia.
Qed.

(** X4. When [getHighScores] returns at most ten entries and [setItem]
    does not throw, [isHighScore(score)] asked before
    [addScore(score, level)] gives the flag that [addScore] returns. When
    [setItem] throws, [addScore] returns [false] whatever [isHighScore]
    says, and when no score can be read [isHighScore] says [true]. *)
Theorem isHighScore_predicts (today : string) (sc lv : Z)
    (storage : HighScoreManager.Storage) :
  (length (HighScoreManager.getHighScores storage) <= 10)%nat ->
  (HighScoreManager.setItemThrows storage = false ->
   HighScoreManager.isHighScore sc storage
   = snd (HighScoreManager.addScore today sc lv storage))
  /\ (HighScoreManager.setItemThrows storage = true ->
      snd (HighScoreManager.addScore today sc lv storage) = false)
  /\ (HighScoreManager.getHighScores storage = [] ->
      HighScoreManager.isHighScore sc storage = true).
Proof.
  intros Hlen. rewrite addScore_cases.
  split; [|split].
  - intros ->. cbn [snd]. apply isHighScore_count. exact Hlen.
  - intros ->. reflexivity.
  - intros Hnil. unfold HighScoreManager.isHighScore. rewrite Hnil.
    reflexivity.
Qed.

(** On an empty store every score is a high score and is kept. *)
Lemma isHighScore_predicts_witness :
  (length (HighScoreManager.getHighScores sampleStorage) <= 10)%nat
  /\ HighScoreManager.isHighScore 0 sampleStorage = true
  /\ snd (HighScoreManager.addScore "1/1/2026" 0 1 sampleStorage) = true.
Proof.
  assert (Hlen : (length (HighScoreManager.getHighScores sampleStorage)
                  <= 10)%nat) by (cbn; lia).
  split; [exact Hlen|].
  destruct (isHighScore_predicts "1/1/2026" 0 1 sampleStorage Hlen)
    as (H & _ & _).
  split; [reflexivity|]. rewrite <- H; reflexivity.
Defined.

(** X5. [getHighScore()] is 0 when [getHighScores] returns nothing: when
    nothing is stored and when the storage cannot be read. Else it is the
    highest of the scores read. After [addScore(score, level)], when the
    storage can be read and written, it is the higher of that score and
    the best score before, and just that score when nothing was read;
    when [setItem] throws it is what it was. *)
Theorem getHighScore_best (today : string) (sc lv : Z)
    (storage : HighScoreManager.Storage) :
  let scores := HighScoreManager.getHighScores storage in
  let storage' := fst (HighScoreManager.addScore today sc lv storage) in
  (scores = [] -> HighScoreManager.getHighScore storage = 0%Z)
  /\ (HighScoreManager.getItemThrows storage = true -> scores = [])
  /\ (forall e, In e scores ->
        (HighScoreManager.score e
         <= HighScoreManager.getHighScore storage)%Z)
  /\ (scores <> [] ->
      exists e, In e scores
                /\ HighScoreManager.getHighScore storage
                   = HighScoreManager.score e)
  /\ (forall stored e,
        HighScoreManager.getItemThrows storage = false ->
        HighScoreManager.item storage = HighScoreManager.Scores stored ->
        In e stored <-> In e scores)
  /\ (HighScoreManager.getItemThrows storage = false ->
      HighScoreManager.setItemThrows storage = false ->
      HighScoreManager.getHighScore storage'
      = match scores with
        | [] => sc
        | _ :: _ => Z.max sc (HighScoreManager.getHighScore storage)
        end)
  /\ (HighScoreManager.setItemThrows storage = true ->
      HighScoreManager.getHighScore storage'
      = HighScoreManager.getHighScore storage).
Proof.
  cbv zeta.
  set (sorted := HighScoreManager.getHighScores storage).
  assert (Hs : StronglySorted (descending HighScoreManager.score) sorted)
    by apply getHighScores_sorted.
  assert (Hbest : HighScoreManager.getHighScore storage
                  = match sorted with
                    | [] => 0%Z
                    | e :: _ => HighScoreManager.score e
                    end) by reflexivity.
  split; [|split; [|split; [|split; [|split; [|split]]]]].
  - intros H. rewrite Hbest, H. reflexivity.
  - intros H. apply getHighScores_unread. left. exact H.
  - intros e He. rewrite Hbest.
    destruct sorted as [|h rest]; [destruct He|].
    inversion Hs as [|? ? _ Hall]; subst.
    destruct He as [<- | He]; [lia|].
    rewrite Forall_forall in Hall. apply (Hall e He).
  - intros Hne. rewrite Hbest. destruct sorted as [|h rest].
    + contradiction.
    + exists h. split; [left|]; reflexivity.
  - intros stored e Hget Hitem. unfold sorted.
    rewrite (getHighScores_read storage stored Hget Hitem).
    split; apply Permutation_in;
      [apply Permutation_sym|]; apply sortDesc_perm.
  - intros Hget Hset. rewrite addScore_cases, Hset. cbn [fst].
    fold sorted. unfold HighScoreManager.getHighScore.
    rewrite getHighScores_setItem;
      [|exact Hget
       |apply sorted_firstn, inserted_sorted; exact Hs].
    fold sorted in Hbest.
    change (match HighScoreManager.getHighScores storage with
            | [] => 0%Z
            | e :: _ => HighScoreManager.score e
            end) with (HighScoreManager.getHighScore storage).
    rewrite Hbest.
    unfold HighScoreManager.MAX_SCORES.
    destruct sorted as [|h rest]; [reflexivity|].
    unfold atLeast, below. cbn [filter].
    destruct (sc <=? HighScoreManager.score h)%Z eqn:E;
      [apply Z.leb_le in E | apply Z.leb_gt in E].
    + cbn [app firstn]. lia.
    + inversion Hs as [|? ? _ Hall]; subst.
      destruct (filter_none_below HighScoreManager.score
                  (HighScoreManager.mkEntry sc EmptyString 0) h rest
                  Hall E) as [H1 _].
      cbn [HighScoreManager.score] in H1. rewrite H1.
      cbn [app firstn HighScoreManager.score]. lia.
  - intros Hset. rewrite addScore_cases, Hset. reflexivity.
Qed.

(** ** Keys *)

Lemma isKeyPressed_In (key : string) (keys : InputManager.t) :
  InputManager.isKeyPressed key keys = true <-> In key keys.
Proof.
  unfold InputManager.isKeyPressed. rewrite existsb_exists. split.
  - intros (k & Hin & Hk). apply String.eqb_eq in Hk. subst k. exact Hin.
  - intros Hin. exists key. split; [exact Hin | apply String.eqb_refl].
Qed.

(** X6. The set of pressed keys. After [keydown] of a code the code is
    pressed, after [keyup] it is not, and neither changes whether another
    code is pressed; a repeated [keydown] of a pressed code changes
    nothing, so one [keyup] releases a key however often the browser
    repeated its [keydown]; the codes stay without repetition. *)
Theorem key_set (code : string) (keys : InputManager.t) :
  InputManager.isKeyPressed code (InputManager.add code keys) = true
  /\ InputManager.isKeyPressed code (InputManager.delete code keys) = false
  /\ (forall other, other <> code ->
        InputManager.isKeyPressed other (InputManager.add code keys)
        = InputManager.isKeyPressed other keys
        /\ InputManager.isKeyPressed other (InputManager.delete code keys)
           = InputManager.isKeyPressed other keys)
  /\ InputManager.add code (InputManager.add code keys)
     = InputManager.add code keys
  /\ InputManager.isKeyPressed code
       (InputManager.delete code
          (InputManager.add code (InputManager.add code keys))) = false
  /\ (NoDup keys ->
      NoDup (InputManager.add code keys)
      /\ NoDup (InputManager.delete code keys)).
Proof.
  assert (Hadd : InputManager.isKeyPressed code (InputManager.add code keys)
                 = true).
  { unfold InputManager.add.
    destruct (InputManager.isKeyPressed code keys) eqn:E; [exact E|].
    apply isKeyPressed_In. apply in_or_app. right. left. reflexivity. }
  assert (Hdel : forall ks,
             InputManager.isKeyPressed code (InputManager.delete code ks)
             = false).
  { intros ks.
    destruct (InputManager.isKeyPressed code (InputManager.delete code ks))
      eqn:E; [|reflexivity].
    apply isKeyPressed_In in E. unfold InputManager.delete in E.
    apply filter_In in E. destruct E as [_ E].
    rewrite String.eqb_refl in E. discriminate. }
  split; [exact Hadd|]. split; [apply Hdel|]. split; [|split; [|split]].
  - intros other Hne. split.
    + unfold InputManager.add.
      destruct (InputManager.isKeyPressed code keys); [reflexivity|].
      unfold InputManager.isKeyPressed. rewrite existsb_app.
      cbn [existsb].
      replace (String.eqb other code) with false
        by (symmetry; apply String.eqb_neq; exact Hne).
      rewrite !orb_false_r. reflexivity.
    + unfold InputManager.delete.
      destruct (InputManager.isKeyPressed other keys) eqn:E.
      * apply isKeyPressed_In. apply filter_In.
        apply isKeyPressed_In in E. split; [exact E|].
        replace (String.eqb code other) with false
          by (symmetry; apply String.eqb_neq; congruence).
        reflexivity.
      * apply not_true_is_false. intros E'.
        apply isKeyPressed_In in E'. apply filter_In in E'.
        destruct E' as [E' _]. apply isKeyPressed_In in E'. congruence.
  - unfold InputManager.add at 1. rewrite Hadd. reflexivity.
  - apply Hdel.
  - intros Hnd. split.
    + unfold InputManager.add.
      destruct (InputManager.isKeyPressed code keys) eqn:E; [exact Hnd|].
      apply NoDup_app; [exact Hnd | constructor; [intros []|constructor] |].
      intros k Hk [<- | []]. apply isKeyPressed_In in Hk. congruence.
    + unfold InputManager.delete. apply NoDup_filter. exact Hnd.
Qed.

(** ** Ship controls and speed *)

(** X7. [setThrust] clamps the level to [[0, 1]]: a level within the range
    is kept, a negative one gives 0 and one above 1 gives 1; position,
    velocity and rotation are not touched, and setting twice is setting
    the last. *)
Theorem setThrust_clamps (level level' : R) (s : Ship.t) :
  0 <= Ship.thrust (Ship.setThrust level s) <= 1
  /\ (0 <= level <= 1 -> Ship.thrust (Ship.setThrust level s) = level)
  /\ (level <= 0 -> Ship.thrust (Ship.setThrust level s) = 0)
  /\ (1 <= level -> Ship.thrust (Ship.setThrust level s) = 1)
  /\ Ship.obj (Ship.setThrust level s) = Ship.obj s
  /\ Ship.setThrust level' (Ship.setThrust level s)
     = Ship.setThrust level' s.
Proof.
  cbn [Ship.setThrust Ship.thrust Ship.obj]. unfold Rmax, Rmin.
  repeat split; try (destruct (Rle_dec 1 level); destruct (Rle_dec 0 _); lra).
Qed.

Lemma rotate_rotation (direction : R) (s : Ship.t) :
  Ship.rotate direction s
  = Ship.mk
      (GameObject.mk (Ship.position s) (Ship.velocity s)
         (Ship.rotation s + direction * Ship.rotationSpeed * (1 / 60))
         (GameObject.scale (Ship.obj s)) (GameObject.active (Ship.obj s)))
      (Ship.thrust s).
Proof. reflexivity. Qed.

Lemma ship_eta (s : Ship.t) :
  s = Ship.mk
        (GameObject.mk (Ship.position s) (Ship.velocity s) (Ship.rotation s)
           (GameObject.scale (Ship.obj s)) (GameObject.active (Ship.obj s)))
        (Ship.thrust s).
Proof. destruct s as [[p v r sc a] t]. reflexivity. Qed.

(** X8. [rotate(direction)] turns the ship by [direction / 12] radians and
    changes nothing else; turns add up, a turn and the opposite turn
    cancel, and in the input phase the left and right keys held together
    leave the rotation as it was. *)
Theorem rotate_turns (d1 d2 : R) (s : Ship.t) (deltaTime : R) (g : Game.t) :
  Ship.rotation (Ship.rotate d1 s) = Ship.rotation s + d1 / 12
  /\ Ship.position (Ship.rotate d1 s) = Ship.position s
  /\ Ship.velocity (Ship.rotate d1 s) = Ship.velocity s
  /\ Ship.thrust (Ship.rotate d1 s) = Ship.thrust s
  /\ Ship.rotate d2 (Ship.rotate d1 s) = Ship.rotate (d1 + d2) s
  /\ Ship.rotate (- d1) (Ship.rotate d1 s) = s
  /\ (Game.state g = PLAYING ->
      InputManager.isLeftPressed (Game.keys g) = true ->
      InputManager.isRightPressed (Game.keys g) = true ->
      Ship.rotation (Game.ship (Game.handleInput deltaTime g))
      = Ship.rotation (Game.ship g)).
Proof.
  split; [|split; [|split; [|split; [|split; [|split]]]]];
    try reflexivity.
  - cbn. unfold Ship.rotationSpeed. lra.
  - rewrite !rotate_rotation. cbn. do 2 f_equal. lra.
  - destruct s as [[p v r sc a] t]. rewrite !rotate_rotation. cbn.
    do 2 f_equal. lra.
  - intros Hs Hl Hr. unfold Game.handleInput. rewrite Hs.
    cbn [GameState_eqb negb].
    destruct (InputManager.isThrustPressed (Game.keys g));
      cbn [Game.keys Game.set_ship]; rewrite Hl;
      cbn [Game.keys Game.set_ship]; rewrite Hr;
      cbn [Game.keys Game.set_ship Game.set_fireDelay Game.fireDelay];
      destruct (_ && _); cbn; unfold Ship.rotationSpeed;
      change (Ship.rotation (Ship.setThrust _ (Game.ship g)))
        with (Ship.rotation (Game.ship g)); lra.
Qed.

Lemma magnitude_scale (c : R) (v : Vector2D) :
  0 <= c -> magnitude (mkVector2D (x v * c) (y v * c)) = c * magnitude v.
Proof.
  intros Hc. unfold magnitude. cbn [x y].
  replace (x v * c * (x v * c) + y v * c * (y v * c))
    with (c * c * (x v * x v + y v * y v)) by ring.
  rewrite sqrt_mult by nra. rewrite sqrt_square by exact Hc. reflexivity.
Qed.

Lemma magnitude_nonneg (v : Vector2D) : 0 <= magnitude v.
Proof. unfold magnitude. apply sqrt_pos. Qed.

Lemma Ship_update_speed (deltaTime : R) (canvasSize : Vector2D)
    (s : Ship.t) :
  magnitude (Ship.velocity (Ship.update deltaTime canvasSize s))
  = Ship.friction
    * magnitude
        (Ship.velocity (Ship.limitSpeed (Ship.applyThrust deltaTime s))).
Proof.
  rewrite Ship_update_velocity.
  apply (magnitude_scale Ship.friction
           (Ship.velocity (Ship.limitSpeed (Ship.applyThrust deltaTime s)))).
  unfold Ship.friction. lra.
Qed.

(** X9. After every [update] the speed of the ship is at most
    [maxSpeed * friction] = 294, whatever the speed, thrust and
    [deltaTime] before. Without thrust the new speed is 0.98 times the
    old speed capped at 300, so a coasting ship never gains speed. *)
Theorem ship_speed_bound (deltaTime : R) (canvasSize : Vector2D)
    (s : Ship.t) :
  magnitude (Ship.velocity (Ship.update deltaTime canvasSize s)) <= 294
  /\ (Ship.thrust s <= 0 ->
      magnitude (Ship.velocity (Ship.update deltaTime canvasSize s))
      = 98 / 100 * Rmin (magnitude (Ship.velocity s)) 300
      /\ magnitude (Ship.velocity (Ship.update deltaTime canvasSize s))
         <= magnitude (Ship.velocity s)).
Proof.
  rewrite Ship_update_speed. split.
  - pose proof (limitSpeed_bound (Ship.applyThrust deltaTime s)) as H.
    unfold Ship.friction, Ship.maxSpeed in *. lra.
  - intros Ht.
    assert (Hs : Ship.applyThrust deltaTime s = s).
    { unfold Ship.applyThrust.
      replace (Ship.thrust s >? 0) with false
        by (symmetry; apply Rgtb_false; exact Ht).
      reflexivity. }
    rewrite Hs, limitSpeed_velocity.
    pose proof (magnitude_nonneg (Ship.velocity s)) as Hn.
    unfold Ship.friction, Ship.maxSpeed.
    destruct (magnitude (Ship.velocity s) >? 300) eqn:E;
      [apply Rgtb_true in E | apply Rgtb_false in E].
    + rewrite rescale_magnitude by lra.
      rewrite Rmin_right by lra. split; lra.
    + rewrite Rmin_left by lra. split; lra.
Qed.

(** ** Constructors *)

Lemma magnitude_polar (angle speed : R) :
  0 <= speed ->
  magnitude (mkVector2D (cos angle * speed) (sin angle * speed)) = speed.
Proof.
  intros Hs. unfold magnitude. cbn [x y].
  replace (cos angle * speed * (cos angle * speed)
           + sin angle * speed * (sin angle * speed))
    with (speed * speed * (Rsqr (sin angle) + Rsqr (cos angle)))
    by (unfold Rsqr; ring).
  rewrite sin2_cos2, Rmult_1_r. apply sqrt_square. exact Hs.
Qed.

Lemma magnitude_heading (angle speed : R) :
  0 <= speed ->
  magnitude (mkVector2D (sin angle * speed) (- cos angle * speed)) = speed.
Proof.
  intros Hs. unfold magnitude. cbn [x y].
  replace (sin angle * speed * (sin angle * speed)
           + - cos angle * speed * (- cos angle * speed))
    with (speed * speed * (Rsqr (sin angle) + Rsqr (cos angle)))
    by (unfold Rsqr; ring).
  rewrite sin2_cos2, Rmult_1_r. apply sqrt_square. exact Hs.
Qed.

(** X10. With [Math.random()] in [[0, 1)], a new asteroid is at the given
    point, active and unrotated, has the scale of its size class, turns at
    a rate in [[-1, 1)] and moves at a speed in [[50, 150)]; the
    constructor draws three random numbers. *)
Theorem asteroid_new_ranges (random : nat -> R) (px py : R)
    (sz : AsteroidSize) (k : nat) :
  (forall i : nat, 0 <= random i < 1) ->
  let a := fst (Asteroid.new random px py sz k) in
  Asteroid.position a = mkVector2D px py
  /\ GameObject.active (Asteroid.obj a) = true
  /\ GameObject.rotation (Asteroid.obj a) = 0
  /\ Asteroid.size a = sz
  /\ GameObject.scale (Asteroid.obj a) = Asteroid.scaleOf sz
  /\ -1 <= Asteroid.rotationSpeed a < 1
  /\ 50 <= magnitude (Asteroid.velocity a) < 150
  /\ snd (Asteroid.new random px py sz k) = (k + 3)%nat.
Proof.
  intros Hr a. subst a. cbn [Asteroid.new fst snd].
  pose proof (Hr k). pose proof (Hr (k + 2)%nat).
  repeat (split; [reflexivity|]). split; [|split; [|reflexivity]].
  - cbn. lra.
  - unfold Asteroid.velocity. cbn [Asteroid.obj GameObject.set_scale
      GameObject.set_velocity GameObject.velocity].
    rewrite magnitude_polar by lra. lra.
Qed.

(** An asteroid made from three draws of 1/2. *)
Lemma asteroid_new_ranges_witness :
  (forall i : nat, 0 <= (fun _ : nat => 1 / 2) i < 1)
  /\ 50 <= magnitude
             (Asteroid.velocity
                (fst (Asteroid.new (fun _ => 1 / 2) 10 20 medium 0))) < 150.
Proof.
  assert (Hr : forall i : nat, 0 <= (fun _ : nat => 1 / 2) i < 1)
    by (intros i; lra).
  split; [exact Hr|].
  apply (asteroid_new_ranges (fun _ => 1 / 2) 10 20 medium 0 Hr).
Defined.

(** ** What a session keeps *)

Lemma totalPoints_tens (hits : list (Bullet.t * Asteroid.t)) :
  (0 <= totalPoints hits)%Z /\ exists n : Z, (totalPoints hits = 10 * n)%Z.
Proof.
  induction hits as [|[b a] hits [IH1 [n IH2]]].
  - split; [cbn; lia | exists 0%Z; reflexivity].
  - cbn [totalPoints fold_right snd]. fold (totalPoints hits).
    destruct (Asteroid.size a); cbn [points]; split; try lia.
    + exists (2 + n)%Z. lia.
    + exists (5 + n)%Z. lia.
    + exists (10 + n)%Z. lia.
Qed.

Section Session.

Variable random : nat -> R.
Variable canvasSize : Vector2D.
Variable today : string.

Lemma gameOver_status (g : Game.t) :
  Game.statusText (Game.gameOver today g) = "GAME OVER"%string
  \/ Game.statusText (Game.gameOver today g) = "NEW HIGH SCORE!"%string.
Proof.
  unfold Game.gameOver.
  destruct (HighScoreManager.addScore _ _ _ _) as [stored isNew].
  destruct isNew; [right | left]; reflexivity.
Qed.

Lemma createAsteroids_session (fuel : nat) (g g' : Game.t) :
  Game.createAsteroids random canvasSize fuel g = Some g' ->
  (1 <= Game.level g)%Z ->
  Game.asteroids g' <> []
  /\ Game.set_randomCalls (Game.randomCalls g)
       (Game.set_asteroids (Game.asteroids g) g') = g.
Proof.
  intros H Hl. apply createAsteroids_some in H.
  destruct H as (Hfr & Hlen & _). split; [|exact Hfr].
  intros He. rewrite He in Hlen. cbn [length] in Hlen. lia.
Qed.

Lemma new_session (fuel : nat) (statusText0 : string)
    (stored : HighScoreManager.Storage) (k : nat) (g : Game.t) :
  Game.new random canvasSize fuel statusText0 stored k = Some g ->
  sessionOk g.
Proof.
  unfold Game.new, Game.setupGame. intros H.
  apply createAsteroids_session in H; [|cbn; lia].
  destruct H as [Hne Hfr].
  frame_field Hfr Game.level as Hl. frame_field Hfr Game.score as Hs.
  frame_field Hfr Game.lives as Hv. frame_field Hfr Game.state as Hst.
  unfold sessionOk. rewrite Hl, Hs, Hv, Hst.
  repeat split; try lia; try discriminate; try exact Hne.
  exists 0%Z. reflexivity.
Qed.

Lemma resetGame_session (fuel : nat) (g g' : Game.t) :
  Game.resetGame random canvasSize fuel g = Some g' -> sessionOk g'.
Proof.
  unfold Game.resetGame, Game.setupGame. intros H.
  apply createAsteroids_session in H; [|cbn; lia].
  destruct H as [Hne Hfr].
  frame_field Hfr Game.level as Hl. frame_field Hfr Game.score as Hs.
  frame_field Hfr Game.lives as Hv. frame_field Hfr Game.state as Hst.
  unfold sessionOk. rewrite Hl, Hs, Hv, Hst.
  repeat split; try lia; try discriminate; try exact Hne.
  exists 0%Z. reflexivity.
Qed.

Lemma keydown_session (fuel : nat) (code : string) (g g' : Game.t) :
  Game.keydown random canvasSize fuel code g = Some g' ->
  sessionOk g -> sessionOk g'.
Proof.
  unfold Game.keydown. intros H Hinv.
  destruct (String.eqb code "Space").
  - unfold Game.onSpace in H. cbn [Game.state Game.set_keys] in H.
    destruct (Game.state g) eqn:Es;
      try (injection H as <-; revert Hinv; unfold sessionOk; cbn;
           rewrite ?Es; intros (H1 & H2 & H3 & H4 & H5 & H6 & H7 & H8 & H9);
           repeat split; try assumption; try discriminate;
           try reflexivity; try (apply H5; discriminate);
           try (exfalso; congruence)).
    eapply resetGame_session. exact H.
  - destruct (String.eqb code "KeyP"); injection H as <-.
    + unfold Game.onKeyP. cbn [Game.state Game.set_keys].
      destruct (Game.state g) eqn:Es;
        revert Hinv; unfold sessionOk; cbn;
        rewrite ?Es; intros (H1 & H2 & H3 & H4 & H5 & H6 & H7 & H8 & H9);
        repeat split; try assumption; try discriminate;
        try reflexivity; try (apply H5; discriminate);
        try (exfalso; congruence).
    + exact Hinv.
Qed.

Lemma checkCollisions_session (fuel : nat) (g g' : Game.t) :
  Game.checkCollisions random canvasSize today fuel g = Some g' ->
  Game.state g = PLAYING ->
  (1 <= Game.level g)%Z -> (0 <= Game.score g)%Z ->
  (exists n : Z, Game.score g = 10 * n)%Z ->
  (1 <= Game.lives g <= 3)%Z ->
  Game.statusText g = "PLAYING"%string ->
  sessionOk g'.
Proof.
  intros H Hs Hlev Hsc [n Hten] Hliv Htxt.
  rewrite (checkCollisions_playing random canvasSize today fuel g Hs) in H.
  cbv zeta in H.
  set (g1 := afterBulletPass random g) in *.
  assert (Hg1 : Game.state g1 = PLAYING /\ Game.level g1 = Game.level g
                /\ Game.lives g1 = Game.lives g
                /\ Game.statusText g1 = "PLAYING"%string
                /\ (0 <= Game.score g1)%Z
                /\ exists m : Z, (Game.score g1 = 10 * m)%Z).
  { unfold g1, afterBulletPass.
    destruct (scanBullets_summary random (length (Game.bullets g)) g)
      as (hits & _ & _ & _ & Hscore & _ & Hfr).
    frame_field Hfr Game.state as A1. frame_field Hfr Game.level as A2.
    frame_field Hfr Game.lives as A3. frame_field Hfr Game.statusText as A4.
    destruct (totalPoints_tens hits) as [Hp [m Hm]].
    rewrite A1, A2, A3, A4, Hscore.
    repeat split; try assumption; try lia.
    exists (n + m)%Z. lia. }
  destruct Hg1 as (B1 & B2 & B3 & B4 & B5 & B6).
  set (g2 := afterShipPass canvasSize today g1) in *.
  assert (Hg2 : (1 <= Game.level g2)%Z /\ (0 <= Game.score g2)%Z
                /\ (exists m : Z, Game.score g2 = 10 * m)%Z
                /\ (Game.state g2 = GAME_OVER -> Game.lives g2 = 0%Z)
                /\ (Game.state g2 <> GAME_OVER ->
                    (1 <= Game.lives g2 <= 3)%Z)
                /\ (Game.state g2 = PLAYING ->
                    Game.statusText g2 = "PLAYING"%string)
                /\ (Game.state g2 = PAUSED ->
                    Game.statusText g2 = "PAUSED"%string)
                /\ (Game.state g2 = GAME_OVER ->
                    Game.statusText g2 = "GAME OVER"%string
                    \/ Game.statusText g2 = "NEW HIGH SCORE!"%string)).
  { unfold g2, afterShipPass.
    destruct (scanShip_cases canvasSize today (Game.asteroids g1) g1)
      as [-> | [_ ->]].
    - rewrite B1, B2, B3, B4.
      repeat split; try assumption; try lia; try discriminate.
    - destruct (loseLife_spec canvasSize today g1)
        as (C1 & _ & _ & C4 & C5 & _ & _ & _ & Cpos & Cover).
      rewrite C1, C4, C5, B2, B3.
      destruct (Z_lt_le_dec 0 (Game.lives g - 1)) as [Hl | Hl].
      + rewrite B3 in Cpos. rewrite (Cpos Hl). cbn. rewrite B1, B4.
        repeat split; try assumption; try lia; try discriminate.
      + rewrite B3 in Cover. rewrite (Cover Hl).
        destruct (gameOver_frame today
                    (Game.set_lives (Game.lives g - 1) g1)) as [Hst _].
        rewrite Hst.
        pose proof (gameOver_status
                      (Game.set_lives (Game.lives g - 1) g1)) as Htx.
        repeat split; try assumption; try lia; try discriminate;
          try (intros; exact Htx).
        intros Hc. contradiction. }
  destruct Hg2 as (D1 & D2 & D3 & D4 & D5 & D7 & D8 & D9).
  destruct (Game.asteroids g2) as [|a0 rest] eqn:Ea.
  - unfold Game.nextLevel in H.
    apply createAsteroids_session in H; [|cbn; lia].
    destruct H as [Hne Hfr].
    frame_field Hfr Game.level as E1. frame_field Hfr Game.score as E2.
    frame_field Hfr Game.lives as E3. frame_field Hfr Game.state as E4.
    frame_field Hfr Game.statusText as E5.
    unfold sessionOk. rewrite E1, E2, E3, E4, E5.
    repeat split; try assumption; try lia.
    + apply D5. assumption.
    + apply D5. assumption.
  - injection H as <-. unfold sessionOk. rewrite Ea.
    repeat split; try assumption; try discriminate.
    + apply D5. assumption.
    + apply D5. assumption.
Qed.

Lemma step_session (fuel : nat) (e : Game.Event) (g g' : Game.t) :
  Game.step random canvasSize today fuel e g = Some g' ->
  sessionOk g -> sessionOk g'.
Proof.
  destruct e as [code | code | currentTime]; cbn [Game.step]; intros H Hinv.
  - eapply keydown_session; eassumption.
  - injection H as <-. exact Hinv.
  - destruct (GameState_eqb (Game.state g) PLAYING) eqn:Es.
    + assert (Hs : Game.state g = PLAYING)
        by (destruct (Game.state g); try discriminate; reflexivity).
      unfold Game.update in H. cbv zeta in H.
      set (dt := (currentTime - Game.lastTime g) / 1000) in *.
      set (g1 := Game.set_lastTime currentTime g) in *.
      destruct Hinv as (H1 & H2 & H3 & H4 & H5 & H6 & H7 & H8 & H9).
      assert (Htxt : Game.statusText (Game.handleInput dt g1)
                     = Game.statusText g).
      { unfold Game.handleInput.
        destruct (negb _); [reflexivity|].
        destruct (InputManager.isThrustPressed _);
          destruct (InputManager.isLeftPressed _);
          destruct (InputManager.isRightPressed _);
          destruct (_ && _); reflexivity. }
      destruct (handleInput_playing dt g1 Hs)
        as (A1 & _ & _ & _ & A5 & A6 & A7 & _).
      pose proof (updateGameObjects_frame canvasSize dt
                    (Game.handleInput dt g1)) as Hfr.
      frame_field Hfr Game.state as F1. frame_field Hfr Game.level as F2.
      frame_field Hfr Game.score as F3. frame_field Hfr Game.lives as F4.
      frame_field Hfr Game.statusText as F5.
      eapply checkCollisions_session; [exact H | | | | | |].
      * rewrite F1. exact A1.
      * rewrite F2, A7. exact H1.
      * rewrite F3, A5. exact H2.
      * rewrite F3, A5. exact H3.
      * rewrite F4, A6. apply H5. rewrite Hs. discriminate.
      * rewrite F5, Htxt. apply H7. exact Hs.
    + rewrite idle_update in H
        by (intros Hc; rewrite Hc in Es; discriminate).
      injection H as <-. exact Hinv.
Qed.

End Session.

Lemma reachable_session (random : nat -> R) (canvasSize : Vector2D)
    (today : string) (g : Game.t) :
  Game.reachable random canvasSize today g -> sessionOk g.
Proof.
  induction 1
    as [size day fuel st stored k now g Hnew
       | size day fuel e g g' _ IH Hstep
       | size day innerWidth innerHeight g _ IH].
  - apply new_session in Hnew. exact Hnew.
  - eapply step_session; eassumption.
  - rewrite onResize_spec. exact IH.
Qed.

(** X11. In every state that a session reaches: the level is at least 1;
    the score is a non-negative multiple of 10; the state is GAME_OVER
    exactly when no life is left, and else 1 to 3 lives are left; the
    asteroid field is not empty; and the status text is PLAYING in
    PLAYING, PAUSED in PAUSED, and GAME OVER or NEW HIGH SCORE! in
    GAME_OVER. *)
Theorem session_invariant (random : nat -> R) (canvasSize : Vector2D)
    (today : string) (g : Game.t) :
  Game.reachable random canvasSize today g ->
  (1 <= Game.level g)%Z
  /\ (0 <= Game.score g)%Z
  /\ (exists n : Z, Game.score g = 10 * n)%Z
  /\ (Game.state g = GAME_OVER <-> Game.lives g = 0%Z)
  /\ (0 <= Game.lives g <= 3)%Z
  /\ Game.asteroids g <> []
  /\ (Game.state g = PLAYING -> Game.statusText g = "PLAYING"%string)
  /\ (Game.state g = PAUSED -> Game.statusText g = "PAUSED"%string)
  /\ (Game.state g = GAME_OVER ->
      Game.statusText g = "GAME OVER"%string
      \/ Game.statusText g = "NEW HIGH SCORE!"%string).
Proof.
  intros Hr.
  pose proof (reachable_session random canvasSize today g Hr) as Hinv.
  destruct Hinv as (H1 & H2 & H3 & H4 & H5 & H6 & H7 & H8 & H9).
  repeat split; try assumption.
  - intros Hl.
    destruct (GameState_eqb (Game.state g) GAME_OVER) eqn:E.
    + destruct (Game.state g); try discriminate; reflexivity.
    + assert (Hne : Game.state g <> GAME_OVER)
        by (intros Hc; rewrite Hc in E; discriminate).
      apply H5 in Hne. lia.
  - destruct (GameState_eqb (Game.state g) GAME_OVER) eqn:E.
    + assert (Hs : Game.state g = GAME_OVER)
        by (destruct (Game.state g); try discriminate; reflexivity).
      rewrite (H4 Hs). lia.
    + assert (Hne : Game.state g <> GAME_OVER)
        by (intros Hc; rewrite Hc in E; discriminate).
      apply H5 in Hne. lia.
  - destruct (GameState_eqb (Game.state g) GAME_OVER) eqn:E.
    + assert (Hs : Game.state g = GAME_OVER)
        by (destruct (Game.state g); try discriminate; reflexivity).
      rewrite (H4 Hs). lia.
    + assert (Hne : Game.state g <> GAME_OVER)
        by (intros Hc; rewrite Hc in E; discriminate).
      apply H5 in Hne. lia.
Qed.


(** A reachable state to try the invariants on. *)
Lemma sample_reachable :
  exists g, Game.reachable zeroRandom sampleCanvas sampleDate g.
Proof.
  destruct (new_terminates zeroRandom sampleCanvas "READY" sampleStorage
              0%nat) as (fuel & g & Hg).
  { apply zeroRandom_spawns. simpl. lra. }
  exists (Game.start 0 g).
  apply (Game.reachable_start zeroRandom sampleCanvas sampleDate fuel
           "READY" sampleStorage 0%nat). exact Hg.
Qed.

Lemma session_invariant_witness :
  exists g, Game.reachable zeroRandom sampleCanvas sampleDate g
            /\ (1 <= Game.level g)%Z /\ Game.asteroids g <> [].
Proof.
  destruct sample_reachable as [g Hg]. exists g. split; [exact Hg|].
  destruct (session_invariant zeroRandom sampleCanvas sampleDate g Hg)
    as (H1 & _ & _ & _ & _ & H6 & _).
  split; assumption.
Defined.

(** ** What the entities keep *)

Lemma Ship_update_speed_294 (deltaTime : R) (canvasSize : Vector2D)
    (s : Ship.t) :
  magnitude (Ship.velocity (Ship.update deltaTime canvasSize s)) <= 294.
Proof.
  rewrite Ship_update_speed.
  pose proof (limitSpeed_bound (Ship.applyThrust deltaTime s)) as H.
  unfold Ship.friction, Ship.maxSpeed in *. lra.
Qed.

Lemma magnitude_zero : magnitude (mkVector2D 0 0) = 0.
Proof.
  unfold magnitude. cbn [x y].
  replace (0 * 0 + 0 * 0) with 0 by ring. apply sqrt_0.
Qed.

Lemma Ship_new_ok (px py : R) : shipOk (Ship.new px py).
Proof.
  unfold shipOk. cbn. fold (magnitude (mkVector2D 0 0)).
  rewrite magnitude_zero. repeat split; lra.
Qed.

Lemma Ship_update_ok (deltaTime : R) (canvasSize : Vector2D) (s : Ship.t) :
  shipOk s -> shipOk (Ship.update deltaTime canvasSize s).
Proof.
  intros (H1 & H2 & H3 & H4). unfold shipOk.
  split; [apply Ship_update_speed_294|].
  unfold Ship.update, Ship.limitSpeed, Ship.applyThrust.
  destruct (Ship.thrust s >? 0); cbv zeta;
    destruct (_ >? Ship.maxSpeed); cbn; repeat split; assumption || lra.
Qed.

Lemma asteroid_new_ok (random : nat -> R) (px py : R) (sz : AsteroidSize)
    (k : nat) :
  (forall i : nat, 0 <= random i < 1) ->
  asteroidOk (fst (Asteroid.new random px py sz k)).
Proof.
  intros Hr. pose proof (Hr k). pose proof (Hr (k + 2)%nat).
  unfold asteroidOk. cbn [Asteroid.new fst].
  split; [reflexivity|]. split; [destruct sz; cbn; lra|].
  split; [|split; [cbn; lra | reflexivity]].
  unfold Asteroid.velocity. cbn [Asteroid.obj GameObject.set_scale
    GameObject.set_velocity GameObject.velocity].
  rewrite magnitude_polar by lra. lra.
Qed.

Lemma Asteroid_update_ok (deltaTime : R) (canvasSize : Vector2D)
    (a : Asteroid.t) :
  asteroidOk a -> asteroidOk (Asteroid.update deltaTime canvasSize a).
Proof. intros H. exact H. Qed.

Lemma Bullet_new_ok (px py angle : R) : bulletOk (Bullet.new px py angle).
Proof.
  unfold bulletOk. split; [reflexivity|]. split; [cbn; lra|].
  unfold Bullet.velocity. cbn [Bullet.new Bullet.obj GameObject.set_velocity
    GameObject.velocity].
  apply magnitude_heading. lra.
Qed.

Lemma Bullet_update_ok (deltaTime : R) (canvasSize : Vector2D)
    (b : Bullet.t) :
  bulletOk b ->
  Bullet.active (Bullet.update deltaTime canvasSize b) = true ->
  bulletOk (Bullet.update deltaTime canvasSize b).
Proof.
  intros (H1 & H2 & H3) Hact. unfold bulletOk. split; [exact Hact|].
  apply Bullet_update_active in Hact. destruct Hact as [_ Hle].
  rewrite Bullet_update_cases.
  destruct (_ >? Bullet.maxLifeTime); split; assumption.
Qed.

Section Entities.

Variable random : nat -> R.
Variable canvasSize : Vector2D.
Variable today : string.

Hypothesis random_range : forall k : nat, 0 <= random k < 1.

Lemma spawnAsteroids_ok (fuel n : nat) (g g' : Game.t) :
  Game.spawnAsteroids random canvasSize fuel n g = Some g' ->
  Forall asteroidOk (Game.asteroids g) ->
  Forall asteroidOk (Game.asteroids g').
Proof.
  revert g. induction n as [|n IH]; intros g; cbn [Game.spawnAsteroids].
  - intros H. injection H as <-. auto.
  - destruct (Game.spawnPoint _ _ _ _ _) as [[[px py] k]|]; [|discriminate].
    intros H Hall. apply IH in H; [exact H|].
    cbn [Game.asteroids Game.set_randomCalls Game.set_asteroids].
    apply Forall_app. split; [exact Hall|].
    constructor; [|constructor].
    apply (asteroid_new_ok random px py large k random_range).
Qed.

Lemma createAsteroids_ok (fuel : nat) (g g' : Game.t) :
  Game.createAsteroids random canvasSize fuel g = Some g' ->
  shipOk (Game.ship g) -> Forall bulletOk (Game.bullets g) ->
  entitiesOk g'.
Proof.
  intros H Hs Hb. unfold Game.createAsteroids in H.
  pose proof (spawnAsteroids_frame _ _ _ _ _ _ H) as Hfr.
  apply spawnAsteroids_ok in H; [|constructor].
  frame_field Hfr Game.ship as A1. frame_field Hfr Game.bullets as A2.
  unfold entitiesOk. rewrite A1, A2. repeat split; try assumption; apply Hs.
Qed.

Lemma pushPieces_ok (n : nat) (px py : R) (sz : AsteroidSize) (g : Game.t) :
  Forall asteroidOk (Game.asteroids g) ->
  Forall asteroidOk (Game.asteroids (Game.pushPieces random n px py sz g))
  /\ Game.bullets (Game.pushPieces random n px py sz g) = Game.bullets g
  /\ Game.ship (Game.pushPieces random n px py sz g) = Game.ship g.
Proof.
  revert g. induction n as [|n IH]; intros g Hall; [repeat split; exact Hall|].
  cbn [Game.pushPieces].
  destruct (Asteroid.new random px py sz (Game.randomCalls g)) as [a k] eqn:E.
  destruct (IH (Game.set_randomCalls k
                  (Game.set_asteroids (Game.asteroids g ++ [a]) g)))
    as (H1 & H2 & H3).
  - cbn [Game.asteroids Game.set_randomCalls Game.set_asteroids].
    apply Forall_app. split; [exact Hall|]. constructor; [|constructor].
    replace a with (fst (Asteroid.new random px py sz (Game.randomCalls g)))
      by (rewrite E; reflexivity).
    apply asteroid_new_ok. exact random_range.
  - repeat split; assumption.
Qed.

Lemma hitResult_ok (i j : nat) (a : Asteroid.t) (g : Game.t) :
  entitiesOk g -> entitiesOk (hitResult random i j a g).
Proof.
  intros (H1 & H2 & H3). unfold hitResult, Game.breakAsteroid.
  rewrite addScore_spec.
  set (g0 := Game.set_score _ _).
  assert (Ha0 : Forall asteroidOk (Game.asteroids g0)).
  { cbn. apply Forall_forall. intros a' Hin.
    rewrite Forall_forall in H2. apply H2. eapply splice1_In. exact Hin. }
  assert (Hb0 : Forall bulletOk (Game.bullets g0)).
  { cbn. apply Forall_forall. intros b Hin.
    rewrite Forall_forall in H3. apply H3. eapply splice1_In. exact Hin. }
  assert (Hs0 : Game.ship g0 = Game.ship g) by reflexivity.
  destruct (Asteroid.getSize a).
  - destruct (pushPieces_ok 2 (x (Asteroid.position a))
                (y (Asteroid.position a)) medium g0 Ha0) as (A & B & C).
    unfold entitiesOk. rewrite B, C, Hs0. repeat split; assumption || apply H1.
  - destruct (pushPieces_ok 2 (x (Asteroid.position a))
                (y (Asteroid.position a)) small g0 Ha0) as (A & B & C).
    unfold entitiesOk. rewrite B, C, Hs0. repeat split; assumption || apply H1.
  - unfold entitiesOk. rewrite Hs0. repeat split; assumption || apply H1.
Qed.

Lemma scanBullets_ok (i1 : nat) (g : Game.t) :
  entitiesOk g -> entitiesOk (Game.scanBullets random i1 g).
Proof.
  revert g. induction i1 as [|i IH]; intros g Hinv; [exact Hinv|].
  cbn [Game.scanBullets].
  destruct (nth_error (Game.bullets g) i) as [bullet|]; [|apply IH; exact Hinv].
  apply IH.
  destruct (scanAsteroids_first_hit random bullet i
              (length (Game.asteroids g)) g)
    as [[-> _] | (j & a & _ & _ & _ & _ & ->)]; [exact Hinv|].
  apply hitResult_ok. exact Hinv.
Qed.

Lemma loseLife_ok (g : Game.t) :
  entitiesOk g -> entitiesOk (Game.loseLife canvasSize today g).
Proof.
  intros (H1 & H2 & H3).
  destruct (loseLife_spec canvasSize today g)
    as (_ & Ha & Hb & _ & _ & _ & _ & _ & Hpos & Hover).
  unfold entitiesOk. rewrite Ha, Hb. split; [|split; assumption].
  destruct (Z_lt_le_dec 0 (Game.lives g - 1)) as [Hl | Hl].
  - rewrite (Hpos Hl). destruct H1 as (_ & A2 & A3 & A4).
    unfold shipOk. cbn. fold (magnitude (mkVector2D 0 0)).
    rewrite magnitude_zero. repeat split; assumption || lra.
  - rewrite (Hover Hl).
    destruct (gameOver_frame today (Game.set_lives (Game.lives g - 1) g))
      as [_ Hfr].
    frame_field Hfr Game.ship as Hs. rewrite Hs. exact H1.
Qed.

Lemma handleInput_ok (deltaTime : R) (g : Game.t) :
  entitiesOk g -> entitiesOk (Game.handleInput deltaTime g).
Proof.
  intros (H1 & H2 & H3). unfold Game.handleInput.
  destruct (negb _); [exact (conj H1 (conj H2 H3))|].
  destruct H1 as (A1 & A2 & A3 & A4).
  assert (Hthr : forall level, 0 <= level <= 1 ->
            shipOk (Ship.setThrust level (Game.ship g))).
  { intros level Hl. unfold shipOk.
    rewrite (setThrust_level level (Game.ship g) Hl).
    repeat split; assumption || lra. }
  assert (Hrot : forall d s, shipOk s -> shipOk (Ship.rotate d s)).
  { intros d s Hs. exact Hs. }
  destruct (InputManager.isThrustPressed (Game.keys g));
    cbn [Game.keys Game.set_ship Game.ship];
    destruct (InputManager.isLeftPressed (Game.keys g));
    cbn [Game.keys Game.set_ship Game.ship];
    destruct (InputManager.isRightPressed (Game.keys g));
    cbn [Game.keys Game.set_ship Game.ship Game.set_fireDelay
         Game.fireDelay];
    destruct (_ && _); unfold entitiesOk, Game.fireBullet;
    cbn [Game.ship Game.asteroids Game.bullets Game.set_ship
         Game.set_fireDelay Game.set_bullets];
    (split; [repeat apply Hrot; apply Hthr; lra|]);
    (split; [exact H2|]);
    try exact H3;
    (apply Forall_app; split; [exact H3|]);
    (constructor; [apply Bullet_new_ok | constructor]).
Qed.

Lemma updateGameObjects_ok (deltaTime : R) (g : Game.t) :
  entitiesOk g ->
  entitiesOk (Game.updateGameObjects canvasSize deltaTime g).
Proof.
  intros (H1 & H2 & H3). unfold Game.updateGameObjects.
  destruct (negb _); [exact (conj H1 (conj H2 H3))|].
  unfold entitiesOk.
  cbn [Game.ship Game.asteroids Game.bullets Game.set_ship
       Game.set_asteroids Game.set_bullets].
  split; [|split].
  - apply Ship_update_ok. exact H1.
  - apply Forall_forall. intros a Hin. apply in_map_iff in Hin.
    destruct Hin as (a0 & <- & Hin0). apply Asteroid_update_ok.
    rewrite Forall_forall in H2. apply H2. exact Hin0.
  - apply Forall_forall. intros b Hin. apply filter_In in Hin.
    destruct Hin as [Hin Hact]. apply in_map_iff in Hin.
    destruct Hin as (b0 & <- & Hin0).
    apply Bullet_update_ok; [|exact Hact].
    rewrite Forall_forall in H3. apply H3. exact Hin0.
Qed.

Lemma checkCollisions_ok (fuel : nat) (g g' : Game.t) :
  Game.checkCollisions random canvasSize today fuel g = Some g' ->
  entitiesOk g -> entitiesOk g'.
Proof.
  intros H Hinv. destruct (GameState_eqb (Game.state g) PLAYING) eqn:Es.
  - assert (Hs : Game.state g = PLAYING)
      by (destruct (Game.state g); try discriminate; reflexivity).
    rewrite (checkCollisions_playing random canvasSize today fuel g Hs) in H.
    cbv zeta in H.
    assert (H2 : entitiesOk (afterShipPass canvasSize today
                               (afterBulletPass random g))).
    { unfold afterShipPass.
      pose proof (scanBullets_ok (length (Game.bullets g)) g Hinv) as H1.
      fold (afterBulletPass random g) in H1.
      destruct (scanShip_cases canvasSize today
                  (Game.asteroids (afterBulletPass random g))
                  (afterBulletPass random g)) as [-> | [_ ->]];
        [exact H1|].
      apply loseLife_ok. exact H1. }
    destruct (Game.asteroids (afterShipPass canvasSize today
                                (afterBulletPass random g))).
    + unfold Game.nextLevel in H.
      apply createAsteroids_ok in H; [exact H | apply H2 | apply H2].
    + injection H as <-. exact H2.
  - unfold Game.checkCollisions in H. rewrite Es in H. cbn [negb] in H.
    injection H as <-. exact Hinv.
Qed.

Lemma step_ok (fuel : nat) (e : Game.Event) (g g' : Game.t) :
  Game.step random canvasSize today fuel e g = Some g' ->
  entitiesOk g -> entitiesOk g'.
Proof.
  destruct e as [code | code | currentTime]; cbn [Game.step]; intros H Hinv.
  - unfold Game.keydown in H. destruct (String.eqb code "Space").
    + unfold Game.onSpace in H. cbn [Game.state Game.set_keys] in H.
      destruct (Game.state g); try (injection H as <-; exact Hinv).
      unfold Game.resetGame, Game.setupGame in H.
      apply createAsteroids_ok in H; [exact H | apply Ship_new_ok|].
      constructor.
    + destruct (String.eqb code "KeyP"); injection H as <-; [|exact Hinv].
      unfold Game.onKeyP. cbn [Game.state Game.set_keys].
      destruct (Game.state g); exact Hinv.
  - injection H as <-. exact Hinv.
  - unfold Game.update in H. cbv zeta in H.
    eapply checkCollisions_ok; [exact H|].
    apply updateGameObjects_ok. apply handleInput_ok. exact Hinv.
Qed.

End Entities.

Lemma reachable_entities (random : nat -> R) (canvasSize : Vector2D)
    (today : string) (random_range : forall k : nat, 0 <= random k < 1)
    (g : Game.t) :
  Game.reachable random canvasSize today g -> entitiesOk g.
Proof.
  induction 1
    as [size day fuel st stored k now g Hnew
       | size day fuel e g g' _ IH Hstep
       | size day innerWidth innerHeight g _ IH].
  - unfold Game.new, Game.setupGame in Hnew.
    eapply createAsteroids_ok in Hnew;
      [exact Hnew | exact random_range | apply Ship_new_ok | constructor].
  - eapply step_ok; eassumption.
  - rewrite onResize_spec. exact IH.
Qed.

(** X12. With [Math.random()] in [[0, 1)], in every state that a session
    reaches: the ship is active with scale 1, a thrust level in [[0, 1]]
    and a speed of at most 294; every asteroid is active, has the scale
    and so the collision radius (20, 12 or 6) of its size class, a turning
    rate in [[-1, 1)] and a speed in [[50, 150)]; every bullet of the
    collection is active, at most 2 s old and moves at speed 400. *)
Theorem entity_invariant (random : nat -> R) (canvasSize : Vector2D)
    (today : string) (random_range : forall k : nat, 0 <= random k < 1)
    (g : Game.t) :
  Game.reachable random canvasSize today g ->
  (GameObject.active (Ship.obj (Game.ship g)) = true
   /\ GameObject.scale (Ship.obj (Game.ship g)) = 1
   /\ 0 <= Ship.thrust (Game.ship g) <= 1
   /\ magnitude (Ship.velocity (Game.ship g)) <= 294)
  /\ (forall a, In a (Game.asteroids g) ->
        GameObject.active (Asteroid.obj a) = true
        /\ GameObject.scale (Asteroid.obj a)
           = Asteroid.scaleOf (Asteroid.size a)
        /\ getCollisionRadius a
           = match Asteroid.size a with
             | large => 20 | medium => 12 | small => 6
             end
        /\ -1 <= Asteroid.rotationSpeed a < 1
        /\ 50 <= magnitude (Asteroid.velocity a) < 150)
  /\ (forall b, In b (Game.bullets g) ->
        Bullet.active b = true
        /\ Bullet.lifeTime b <= 2
        /\ magnitude (Bullet.velocity b) = 400).
Proof.
  intros Hr.
  pose proof (reachable_entities random canvasSize today random_range g Hr)
    as Hinv.
  destruct Hinv as ((A1 & A2 & A3 & A4) & HA & HB).
  split; [repeat split; assumption || apply A2|]. split.
  - intros a Hin. rewrite Forall_forall in HA.
    destruct (HA a Hin) as (B1 & B2 & B3 & B4 & B5).
    repeat split; assumption || apply B3 || apply B4.
  - intros b Hin. rewrite Forall_forall in HB.
    destruct (HB b Hin) as (C1 & C2 & C3). repeat split; assumption.
Qed.


Lemma entity_invariant_witness :
  (forall k : nat, 0 <= zeroRandom k < 1)
  /\ exists g, Game.reachable zeroRandom sampleCanvas sampleDate g
               /\ magnitude (Ship.velocity (Game.ship g)) <= 294.
Proof.
  assert (Hr : forall k : nat, 0 <= zeroRandom k < 1)
    by (intros k; unfold zeroRandom; lra).
  split; [exact Hr|].
  destruct sample_reachable as [g Hg]. exists g. split; [exact Hg|].
  destruct (entity_invariant zeroRandom sampleCanvas sampleDate Hr g Hg)
    as ((_ & _ & _ & H) & _).
  exact H.
Defined.

(** ** A session goes on *)

Section Fuel.

Variable random : nat -> R.
Variable canvasSize : Vector2D.
Variable today : string.

Lemma checkCollisions_mono (fuel fuel' : nat) (g g' : Game.t) :
  Game.checkCollisions random canvasSize today fuel g = Some g' ->
  (fuel <= fuel')%nat ->
  Game.checkCollisions random canvasSize today fuel' g = Some g'.
Proof.
  unfold Game.checkCollisions. destruct (negb _); [tauto|].
  destruct (_ =? 0)%nat; [|tauto].
  unfold Game.nextLevel, Game.createAsteroids. apply spawnAsteroids_mono.
Qed.

Lemma step_mono (fuel fuel' : nat) (e : Game.Event) (g g' : Game.t) :
  Game.step random canvasSize today fuel e g = Some g' ->
  (fuel <= fuel')%nat ->
  Game.step random canvasSize today fuel' e g = Some g'.
Proof.
  destruct e as [code | code | currentTime]; cbn [Game.step].
  - unfold Game.keydown. destruct (String.eqb code "Space"); [|tauto].
    unfold Game.onSpace. destruct (Game.state _); try tauto.
    unfold Game.resetGame, Game.setupGame, Game.createAsteroids.
    apply spawnAsteroids_mono.
  - tauto.
  - unfold Game.update. apply checkCollisions_mono.
Qed.

Lemma frames_mono (fuel fuel' : nat) (times : list R) (g g' : Game.t) :
  Game.frames random canvasSize today fuel times g = Some g' ->
  (fuel <= fuel')%nat ->
  Game.frames random canvasSize today fuel' times g = Some g'.
Proof.
  revert g. induction times as [|tm times IH]; intros g; cbn [Game.frames];
    [tauto|].
  destruct (Game.step random canvasSize today fuel (Game.Frame tm) g)
    as [g1|] eqn:E; [|discriminate].
  intros H Hle. rewrite (step_mono _ _ _ _ _ E Hle). apply IH; assumption.
Qed.

Hypothesis fair : forall p, spawnsEventually random canvasSize p.

(** X13. When of the points that [Math.random()] gives some point is
    always far enough from the ship, whatever the place of the ship, no
    event makes the game hang: every key event and every frame completes,
    with the same result for any larger bound on the rounds of the
    placement loop, and so does every sequence of frames. *)
Theorem session_progress (g : Game.t) :
  (forall e : Game.Event,
     exists fuel g',
       forall fuel', (fuel <= fuel')%nat ->
         Game.step random canvasSize today fuel' e g = Some g')
  /\ (forall times : list R,
        exists fuel g',
          forall fuel', (fuel <= fuel')%nat ->
            Game.frames random canvasSize today fuel' times g = Some g').
Proof.
  split.
  - intros e.
    destruct (step_terminates random canvasSize today fair e g)
      as (fuel & g' & H).
    exists fuel, g'. intros fuel' Hle. eapply step_mono; eassumption.
  - intros times. revert g.
    induction times as [|tm times IH]; intros g.
    + exists 0%nat, g. intros fuel' _. reflexivity.
    + destruct (step_terminates random canvasSize today fair
                  (Game.Frame tm) g) as (f1 & g1 & H1).
      destruct (IH g1) as (f2 & g' & H2).
      exists (Nat.max f1 f2), g'. intros fuel' Hle. cbn [Game.frames].
      rewrite (step_mono f1 fuel' _ _ _ H1) by lia.
      apply H2. lia.
Qed.

End Fuel.

(** Three frames with the alternating random source. *)
Lemma session_progress_witness :
  (forall p, spawnsEventually fairRandom sampleCanvas p)
  /\ exists fuel g',
       Game.frames fairRandom sampleCanvas sampleDate fuel [16; 33; 50]
         (sampleGame [] [] PLAYING) = Some g'.
Proof.
  split; [exact fairRandom_spawns|].
  destruct (session_progress fairRandom sampleCanvas sampleDate
              fairRandom_spawns (sampleGame [] [] PLAYING)) as [_ H].
  destruct (H [16; 33; 50]) as (fuel & g' & Hg').
  exists fuel, g'. apply Hg'. lia.
Defined.

Lemma spawnPoint_none (random : nat -> R) (canvasSize p : Vector2D)
    (fuel k : nat) :
  (forall m, ~ accepted random canvasSize p m) ->
  Game.spawnPoint random canvasSize fuel p k = None.
Proof.
  intros Hno. revert k. induction fuel as [|fuel IH]; intros k;
    [reflexivity|].
  cbn [Game.spawnPoint]. cbv zeta.
  destruct (_ && _) eqn:E; [apply IH|].
  apply tooClose_false in E. exfalso. apply (Hno k). exact E.
Qed.

(** X14. On a canvas less than 200 wide and less than 200 high the
    constructor of the game does not return: every point that
    [createAsteroids] draws is within 100 of the ship at the centre on
    both axes, so the placement loop goes on whatever bound is put on its
    rounds. *)
Theorem small_canvas_hangs (random : nat -> R) (canvasSize : Vector2D)
    (fuel : nat) (statusText0 : string)
    (stored : HighScoreManager.Storage) (k : nat) :
  (forall i : nat, 0 <= random i < 1) ->
  0 <= x canvasSize < 200 ->
  0 <= y canvasSize < 200 ->
  Game.new random canvasSize fuel statusText0 stored k = None.
Proof.
  intros Hr Hx Hy. unfold Game.new, Game.setupGame, Game.createAsteroids.
  cbn [Game.level Game.set_ship Game.set_asteroids].
  change (Z.to_nat (4 + 1)) with 5%nat. cbn [Game.spawnAsteroids].
  rewrite spawnPoint_none; [reflexivity|].
  intros m Hacc. apply Hacc. cbn.
  pose proof (Hr m). pose proof (Hr (m + 1)%nat).
  split; apply Rabs_def1; nra.
Qed.

(** A canvas of 150 x 150. *)
Lemma small_canvas_hangs_witness :
  (forall i : nat, 0 <= zeroRandom i < 1)
  /\ Game.new zeroRandom (mkVector2D 150 150) 1000 "READY" sampleStorage 0
     = None.
Proof.
  assert (Hr : forall i : nat, 0 <= zeroRandom i < 1)
    by (intros i; unfold zeroRandom; lra).
  split; [exact Hr|].
  apply (small_canvas_hangs zeroRandom (mkVector2D 150 150) 1000 "READY"
           sampleStorage 0 Hr); cbn; lra.
Defined.

(** ** Score accounting *)

Lemma totalWorth_app (l1 l2 : list Asteroid.t) :
  totalWorth (l1 ++ l2) = (totalWorth l1 + totalWorth l2)%Z.
Proof.
  induction l1 as [|a l1 IH]; [reflexivity|].
  cbn [app totalWorth fold_right]. fold (totalWorth (l1 ++ l2)).
  fold (totalWorth l1). lia.
Qed.

Lemma totalHits_app (l1 l2 : list Asteroid.t) :
  totalHitsToClear (l1 ++ l2)
  = (totalHitsToClear l1 + totalHitsToClear l2)%nat.
Proof.
  induction l1 as [|a l1 IH]; [reflexivity|].
  cbn [app totalHitsToClear fold_right]. fold (totalHitsToClear (l1 ++ l2)).
  fold (totalHitsToClear l1). lia.
Qed.

Lemma splice1_split {A : Type} (j : nat) (l : list A) (a : A) :
  nth_error l j = Some a -> l = firstn j l ++ a :: skipn (S j) l.
Proof.
  revert l. induction j as [|j IH]; intros [|h rest] H; try discriminate.
  - injection H as ->. reflexivity.
  - cbn [firstn skipn app]. f_equal. apply IH. exact H.
Qed.

Lemma pieces_worth (a : Asteroid.t) (frags : list Asteroid.t) :
  length frags = fragmentCount (Asteroid.size a) ->
  Forall (fun f => Asteroid.position f = Asteroid.position a
                   /\ Asteroid.size f = fragmentSize (Asteroid.size a))
         frags ->
  (points (Asteroid.size a) + totalWorth frags = worth (Asteroid.size a))%Z
  /\ S (totalHitsToClear frags) = hitsToClear (Asteroid.size a).
Proof.
  intros Hlen Hall.
  destruct (Asteroid.size a); cbn [fragmentCount fragmentSize] in *.
  - destruct frags as [|f1 [|f2 [|f3 rest]]]; try discriminate.
    inversion Hall as [|? ? [_ H1] Hall']; subst.
    inversion Hall' as [|? ? [_ H2] _]; subst.
    cbn. rewrite H1, H2. cbn. split; reflexivity.
  - destruct frags as [|f1 [|f2 [|f3 rest]]]; try discriminate.
    inversion Hall as [|? ? [_ H1] Hall']; subst.
    inversion Hall' as [|? ? [_ H2] _]; subst.
    cbn. rewrite H1, H2. cbn. split; reflexivity.
  - destruct frags; try discriminate. split; reflexivity.
Qed.

Lemma scanBullets_accounts (random : nat -> R) (i1 : nat) (g : Game.t) :
  let g' := Game.scanBullets random i1 g in
  (Game.score g' + totalWorth (Game.asteroids g')
   = Game.score g + totalWorth (Game.asteroids g))%Z
  /\ (totalHitsToClear (Game.asteroids g') + length (Game.bullets g)
      = totalHitsToClear (Game.asteroids g) + length (Game.bullets g'))%nat.
Proof.
  cbv zeta. revert g. induction i1 as [|i IH]; intros g;
    [split; reflexivity|].
  cbn [Game.scanBullets].
  destruct (nth_error (Game.bullets g) i) as [bullet|] eqn:Eb; [|apply IH].
  destruct (scanAsteroids_first_hit random bullet i
              (length (Game.asteroids g)) g)
    as [[-> _] | (j & a & _ & Ha & _ & _ & ->)]; [apply IH|].
  destruct (IH (hitResult random i j a g)) as [IH1 IH2].
  destruct (hitResult_spec random i j a g) as (frags & Hh & Hlen & Hall).
  destruct (pieces_worth a frags Hlen Hall) as [Hw Hc].
  assert (Hast : Game.asteroids (hitResult random i j a g)
                 = splice1 j (Game.asteroids g) ++ frags)
    by (rewrite Hh; reflexivity).
  assert (Hsco : Game.score (hitResult random i j a g)
                 = (Game.score g + points (Asteroid.size a))%Z)
    by (rewrite Hh; reflexivity).
  assert (Hbul : Game.bullets (hitResult random i j a g)
                 = splice1 i (Game.bullets g))
    by (rewrite Hh; reflexivity).
  pose proof (splice1_length _ _ _ Eb) as Hlb.
  rewrite Hast, Hsco in IH1. rewrite Hast, Hbul in IH2.
  rewrite totalWorth_app in IH1. rewrite totalHits_app in IH2.
  assert (HW' : totalWorth (splice1 j (Game.asteroids g))
                = (totalWorth (firstn j (Game.asteroids g))
                   + totalWorth (skipn (S j) (Game.asteroids g)))%Z)
    by apply totalWorth_app.
  assert (HC' : totalHitsToClear (splice1 j (Game.asteroids g))
                = (totalHitsToClear (firstn j (Game.asteroids g))
                   + totalHitsToClear (skipn (S j) (Game.asteroids g)))%nat)
    by apply totalHits_app.
  pose proof (f_equal totalWorth (splice1_split j (Game.asteroids g) a Ha))
    as HW.
  pose proof (f_equal totalHitsToClear
                (splice1_split j (Game.asteroids g) a Ha)) as HC.
  rewrite totalWorth_app in HW. rewrite totalHits_app in HC.
  cbn [totalWorth totalHitsToClear fold_right] in HW, HC.
  fold (totalWorth (skipn (S j) (Game.asteroids g))) in HW.
  fold (totalHitsToClear (skipn (S j) (Game.asteroids g))) in HC.
  split; lia.
Qed.

(** X15. The bullet-asteroid pass keeps the books. Counting a large
    asteroid as worth 520 points (20 + 2 * (50 + 2 * 100)), a medium one
    250 and a small one 100, the score plus the worth of the asteroids in
    the field is the same after the pass as before; counting 7, 3 and 1
    hits to clear them, every bullet that disappears takes one hit off
    the field. A new field for level [L] is worth 520 * (4 + L). *)
Theorem score_accounting (random : nat -> R) (canvasSize : Vector2D)
    (g : Game.t) :
  (let g' := afterBulletPass random g in
   (Game.score g' + totalWorth (Game.asteroids g')
    = Game.score g + totalWorth (Game.asteroids g))%Z
   /\ (totalHitsToClear (Game.asteroids g') + length (Game.bullets g)
       = totalHitsToClear (Game.asteroids g) + length (Game.bullets g'))%nat)
  /\ (forall fuel g',
        (0 <= 4 + Game.level g)%Z ->
        Game.createAsteroids random canvasSize fuel g = Some g' ->
        totalWorth (Game.asteroids g') = (520 * (4 + Game.level g))%Z
        /\ Z.of_nat (totalHitsToClear (Game.asteroids g'))
           = (7 * (4 + Game.level g))%Z).
Proof.
  split; [apply scanBullets_accounts|].
  intros fuel g' Hl H. apply createAsteroids_some in H.
  destruct H as (_ & Hlen & Hall).
  assert (Hgen : forall l : list Asteroid.t,
             Forall (fun a => Asteroid.size a = large) l ->
             totalWorth l = (520 * Z.of_nat (length l))%Z
             /\ Z.of_nat (totalHitsToClear l)
                = (7 * Z.of_nat (length l))%Z).
  { induction 1 as [|a l Ha _ [IH1 IH2]]; [split; reflexivity|].
    cbn [totalWorth totalHitsToClear fold_right length].
    fold (totalWorth l). fold (totalHitsToClear l). rewrite Ha.
    cbn [worth hitsToClear]. split; lia. }
  destruct (Hgen (Game.asteroids g')) as [H1 H2].
  { eapply Forall_impl; [|exact Hall]. intros a [Ha _]. exact Ha. }
  rewrite H1, H2, Hlen. split; lia.
Qed.

(** ** Pause and resume *)

Section Pause.

Variable random : nat -> R.
Variable canvasSize : Vector2D.
Variable today : string.

Lemma paused_step (fuel : nat) (e : Game.Event) (g : Game.t) :
  Game.state g = PAUSED ->
  e <> Game.KeyDown "KeyP" ->
  exists g',
    Game.step random canvasSize today fuel e g = Some g'
    /\ Game.state g' = PAUSED
    /\ Game.set_lastTime (Game.lastTime g)
         (Game.set_keys (Game.keys g) g') = g.
Proof.
  intros Hs He. destruct e as [code|code|currentTime].
  - assert (Hc : String.eqb code "KeyP" = false).
    { apply String.eqb_neq. intros ->. apply He. reflexivity. }
    cbn [Game.step]. unfold Game.keydown, Game.onSpace. cbv zeta.
    rewrite Hc.
    exists (Game.set_keys (InputManager.add code (Game.keys g)) g).
    destruct g as [sh asts bs st sc li le lt fd tx ks hs rc].
    cbn in Hs. subst st. cbn.
    destruct (String.eqb code "Space"); repeat split; reflexivity.
  - exists (Game.keyup code g). cbn [Game.step]. unfold Game.keyup.
    destruct g; cbn in *. repeat split; assumption || reflexivity.
  - exists (Game.set_lastTime currentTime g). cbn [Game.step].
    rewrite idle_update by (rewrite Hs; discriminate).
    destruct g; cbn in *. repeat split; assumption || reflexivity.
Qed.

Lemma paused_run (fuel : nat) (events : list Game.Event) (g : Game.t) :
  Game.state g = PAUSED ->
  Forall (fun e => e <> Game.KeyDown "KeyP") events ->
  exists g',
    run random canvasSize today fuel events g = Some g'
    /\ Game.state g' = PAUSED
    /\ Game.set_lastTime (Game.lastTime g)
         (Game.set_keys (Game.keys g) g') = g.
Proof.
  intros Hs Hev. revert g Hs.
  induction Hev as [|e events He _ IH]; intros g Hs.
  - exists g. cbn [run]. split; [reflexivity|]. split; [exact Hs|].
    destruct g; reflexivity.
  - destruct (paused_step fuel e g Hs He) as (g1 & H1 & Hs1 & Hf1).
    destruct (IH g1 Hs1) as (g2 & H2 & Hs2 & Hf2).
    exists g2. cbn [run]. rewrite H1. split; [exact H2|].
    split; [exact Hs2|].
    rewrite <- Hf1 at 3. rewrite <- Hf2.
    destruct g2; reflexivity.
Qed.

(** X16. The P key pauses a game in PLAYING, and the next P key resumes
    it. Whatever happens in between, frames, key releases and presses of
    other keys (Space too), leaves the game PAUSED, and the resumed game
    is the game as it was paused: same ship, asteroids, bullets, score,
    lives, level, fire delay, stored scores and random numbers used; only
    the set of pressed keys and the time of the last frame have moved
    on, so the first frame after the pause does not span the pause. *)
Theorem pause_resume (fuel : nat) (events : list Game.Event) (g : Game.t) :
  Game.state g = PLAYING ->
  Game.statusText g = "PLAYING"%string ->
  Forall (fun e => e <> Game.KeyDown "KeyP") events ->
  exists g1 g2 g3,
    Game.keydown random canvasSize fuel "KeyP" g = Some g1
    /\ Game.state g1 = PAUSED
    /\ run random canvasSize today fuel events g1 = Some g2
    /\ Game.state g2 = PAUSED
    /\ Game.keydown random canvasSize fuel "KeyP" g2 = Some g3
    /\ Game.state g3 = PLAYING
    /\ Game.lastTime g3 = Game.lastTime g2
    /\ Game.set_lastTime (Game.lastTime g)
         (Game.set_keys (Game.keys g) g3) = g.
Proof.
  intros Hs Htx Hev.
  set (g1 := Game.pauseGame
               (Game.set_keys (InputManager.add "KeyP" (Game.keys g)) g)).
  assert (H1 : Game.keydown random canvasSize fuel "KeyP" g = Some g1).
  { rewrite keydown_KeyP. unfold Game.onKeyP.
    cbn [Game.state Game.set_keys]. rewrite Hs. reflexivity. }
  assert (Hs1 : Game.state g1 = PAUSED) by reflexivity.
  destruct (paused_run fuel events g1 Hs1 Hev) as (g2 & H2 & Hs2 & Hf2).
  set (g3 := Game.resumeGame
               (Game.set_keys (InputManager.add "KeyP" (Game.keys g2)) g2)).
  exists g1, g2, g3.
  split; [exact H1|]. split; [exact Hs1|]. split; [exact H2|].
  split; [exact Hs2|].
  split.
  { rewrite keydown_KeyP. unfold Game.onKeyP.
    cbn [Game.state Game.set_keys]. rewrite Hs2. reflexivity. }
  split; [reflexivity|]. split; [reflexivity|].
  unfold g3. clear g3.
  destruct g2 as [sh2 as2 bs2 st2 sc2 li2 le2 lt2 fd2 tx2 ks2 hs2 rc2].
  destruct g as [sh asts bs st sc li le lt fd tx ks hs rc].
  unfold g1 in Hf2. clear g1 H1 Hs1 H2.
  cbn in Hs, Htx, Hs2. subst st tx st2.
  cbv [Game.pauseGame Game.resumeGame Game.set_statusText Game.set_state
       Game.set_keys Game.set_lastTime
       Game.ship Game.asteroids Game.bullets Game.state Game.score Game.lives
       Game.level Game.lastTime Game.fireDelay Game.statusText Game.keys
       Game.highScores Game.randomCalls] in *.
  injection Hf2; intros; subst; reflexivity.
Qed.

End Pause.

Lemma pause_resume_witness :
  let g := sampleGame [] [] PLAYING in
  let g0 := Game.set_statusText "PLAYING" g in
  let events := [Game.Frame 16; Game.KeyUp "KeyP"; Game.KeyDown "Space";
                 Game.Frame 33] in
  Game.state g0 = PLAYING
  /\ Forall (fun e => e <> Game.KeyDown "KeyP") events
  /\ exists g1 g2 g3,
       Game.keydown zeroRandom sampleCanvas 1 "KeyP" g0 = Some g1
       /\ run zeroRandom sampleCanvas sampleDate 1 events g1 = Some g2
       /\ Game.keydown zeroRandom sampleCanvas 1 "KeyP" g2 = Some g3
       /\ Game.state g3 = PLAYING.
Proof.
  cbv zeta.
  assert (Hev : Forall (fun e => e <> Game.KeyDown "KeyP")
                  [Game.Frame 16; Game.KeyUp "KeyP"; Game.KeyDown "Space";
                   Game.Frame 33]).
  { repeat constructor; discriminate. }
  split; [reflexivity|]. split; [exact Hev|].
  destruct (pause_resume zeroRandom sampleCanvas sampleDate 1
              [Game.Frame 16; Game.KeyUp "KeyP"; Game.KeyDown "Space";
               Game.Frame 33]
              (Game.set_statusText "PLAYING" (sampleGame [] [] PLAYING))
              eq_refl eq_refl Hev)
    as (g1 & g2 & g3 & H1 & _ & H2 & _ & H3 & Hs3 & _).
  exists g1, g2, g3. repeat split; assumption.
Defined.

(** ** The end of a game: status text and banner *)

Lemma in_atLeast (sc : Z) (l : list HighScoreManager.HighScoreEntry)
    (e : HighScoreManager.HighScoreEntry) :
  In e (atLeast sc l) -> (sc <= HighScoreManager.score e)%Z.
Proof.
  unfold atLeast. rewrite filter_In. intros [_ H].
  apply Z.leb_le. exact H.
Qed.

Lemma in_below (sc : Z) (l : list HighScoreManager.HighScoreEntry)
    (e : HighScoreManager.HighScoreEntry) :
  In e (below sc l) -> (HighScoreManager.score e < sc)%Z.
Proof.
  unfold below. rewrite filter_In. intros [_ H].
  apply Z.ltb_lt. exact H.
Qed.

(** Asked after the score has been saved, [isHighScore] compares the
    score with the last entry of a board that may hold the score itself. *)
Lemma isHighScore_after_save (today : string) (sc lv : Z)
    (storage : HighScoreManager.Storage) :
  HighScoreManager.getItemThrows storage = false ->
  HighScoreManager.setItemThrows storage = false ->
  HighScoreManager.isHighScore sc
    (fst (HighScoreManager.addScore today sc lv storage))
  = (length (atLeast sc (HighScoreManager.getHighScores storage))
     <? 9)%nat.
Proof.
  intros Hget Hset. rewrite addScore_cases, Hset. cbn [fst].
  pose proof (getHighScores_sorted storage) as Hs.
  pose proof (sorted_firstn _ HighScoreManager.MAX_SCORES _
                (inserted_sorted today sc lv _ Hs)) as Hsorted.
  unfold HighScoreManager.isHighScore. cbv zeta.
  rewrite (getHighScores_setItem storage _ Hget Hsorted).
  set (A := atLeast sc (HighScoreManager.getHighScores storage)) in *.
  set (B := below sc (HighScoreManager.getHighScores storage)) in *.
  set (e := HighScoreManager.mkEntry sc today lv) in *.
  assert (HA : forall z, In z A -> (sc <= HighScoreManager.score z)%Z)
    by (intros z; apply in_atLeast).
  assert (HB : forall z, In z B -> (HighScoreManager.score z < sc)%Z)
    by (intros z; apply in_below).
  clearbody A B.
  unfold HighScoreManager.MAX_SCORES in *.
  rewrite firstn_app in *.
  destruct (le_lt_dec 10 (length A)) as [Hbig|Hsmall].
  - (* ten stored scores or more are at least [sc] *)
    replace (length A <? 9)%nat with false
      by (symmetry; apply Nat.ltb_ge; lia).
    replace (10 - length A)%nat with 0%nat by lia.
    rewrite firstn_0, app_nil_r.
    assert (Hlen : length (firstn 10 A) = 10%nat)
      by (rewrite length_firstn; lia).
    rewrite Hlen. cbn [Nat.ltb Nat.leb Nat.sub orb].
    destruct (nth_error (firstn 10 A) 9) as [z|] eqn:Hz; [|reflexivity].
    apply nth_error_In, firstn_In, HA in Hz.
    apply Z.ltb_ge. exact Hz.
  - rewrite (firstn_all2 (n := 10) A) by lia.
    destruct (Nat.eq_dec (length A) 9) as [Hnine|Hless].
    + (* exactly nine: the new entry is the last of the board *)
      replace (length A <? 9)%nat with false
        by (symmetry; apply Nat.ltb_ge; lia).
      replace (10 - length A)%nat with 1%nat by lia.
      cbn [firstn]. rewrite length_app. cbn [length].
      rewrite Hnine. cbn [Nat.add Nat.ltb Nat.leb Nat.sub orb].
      rewrite nth_error_app2 by lia. rewrite Hnine.
      cbn [Nat.sub nth_error HighScoreManager.score e].
      unfold e. cbn [HighScoreManager.score].
      rewrite Z.ltb_irrefl. reflexivity.
    + (* fewer than nine *)
      replace (length A <? 9)%nat with true
        by (symmetry; apply Nat.ltb_lt; lia).
      apply orb_true_iff.
      destruct (Nat.ltb_spec
                  (length (A ++ firstn (10 - length A) (e :: B))) 10)
        as [Hshort|Hfull]; [left; reflexivity|right].
      replace (10 - length A)%nat with (S (9 - length A)) in * by lia.
      cbn [firstn] in *.
      rewrite length_app in *. cbn [length] in *.
      rewrite length_firstn in *.
      rewrite nth_error_app2 by lia.
      replace (length A + S (Nat.min (9 - length A) (length B))
               - 1 - length A)%nat
        with (S (Nat.min (9 - length A) (length B) - 1)) by lia.
      cbn [nth_error].
      destruct (nth_error (firstn (9 - length A) B)
                          (Nat.min (9 - length A) (length B) - 1))
        as [z|] eqn:Hz.
      * apply Z.ltb_lt, HB. eapply firstn_In, nth_error_In. exact Hz.
      * apply nth_error_None in Hz. rewrite length_firstn in Hz. lia.
Qed.

Lemma gameOver_fields (today : string) (g : Game.t) :
  let saved := HighScoreManager.addScore today (Game.score g) (Game.level g)
                 (Game.highScores g) in
  Game.state (Game.gameOver today g) = GAME_OVER
  /\ Game.score (Game.gameOver today g) = Game.score g
  /\ Game.highScores (Game.gameOver today g) = fst saved
  /\ Game.statusText (Game.gameOver today g)
     = (if snd saved then "NEW HIGH SCORE!" else "GAME OVER")%string.
Proof.
  unfold Game.gameOver. cbv zeta.
  cbn [Game.score Game.level Game.highScores Game.set_statusText
       Game.set_state].
  destruct (HighScoreManager.addScore today (Game.score g) (Game.level g)
              (Game.highScores g)) as [stored [|]];
    destruct g; cbn; repeat split; reflexivity.
Qed.

Lemma render_text (canvasSize : Vector2D) (g : Game.t)
    (text : string) (position : Vector2D) (color : string) (size : R) :
  Game.state g = GAME_OVER ->
  In (VectorRenderer.DrawText text position color size)
     (Game.render canvasSize g)
  <-> (let made := HighScoreManager.isHighScore (Game.score g)
                     (Game.highScores g) in
       VectorRenderer.DrawText text position color size
       = banner canvasSize
           (if made then "NEW HIGH SCORE!" else "GAME OVER")
           (if made then "#ffff00" else "#ff0000")
       \/ VectorRenderer.DrawText text position color size
          = VectorRenderer.DrawText "PRESS SPACE TO RESTART"
              (mkVector2D (x canvasSize / 2) (y canvasSize / 2 + 40))
              "#ff0000" 18).
Proof.
  intros Hs. unfold Game.render. cbv zeta. rewrite Hs.
  rewrite !in_app_iff. rewrite !in_map_iff. unfold banner. cbn [In].
  split.
  - intros [[H|[]]|[H|[H|[H|[H|[H|[]]]]]]].
    + discriminate H.
    + destruct (GameObject.active (Ship.obj (Game.ship g)));
        [destruct H as [H|[]]; discriminate H|destruct H].
    + destruct H as (a & H & _). discriminate H.
    + destruct H as (b & H & _). discriminate H.
    + left. symmetry. exact H.
    + right. symmetry. exact H.
  - intros [H|H]; right; right; right; right;
      [left|right; left]; symmetry; exact H.
Qed.

(** X17. When the game ends, [gameOver] offers the score to the high
    scores and sets the status text, and the next [render] draws the
    banner after asking [isHighScore] about the storage as [gameOver]
    left it. With [n] the number of scores read from the storage that are
    at least the final score: the status text is NEW HIGH SCORE! exactly
    when [setItem] does not throw and [n < 10], and GAME OVER otherwise.
    The banner is NEW HIGH SCORE! or GAME OVER: when the storage can be
    read and written, NEW HIGH SCORE! exactly when [n < 9], so that with
    nine scores at least as high the status text says NEW HIGH SCORE!
    over a GAME OVER banner; when the storage cannot be read, always NEW
    HIGH SCORE!, whatever the status text; when [setItem] throws, what
    [isHighScore] says of the storage as it was. Losing the last life
    ends the game in this way. *)
Theorem game_over_banner (canvasSize : Vector2D) (today : string)
    (g : Game.t) :
  let g' := Game.gameOver today g in
  let storage := Game.highScores g in
  let n := length (atLeast (Game.score g)
                     (HighScoreManager.getHighScores storage)) in
  let shown := In (banner canvasSize "NEW HIGH SCORE!" "#ffff00")
                  (Game.render canvasSize g') in
  Game.state g' = GAME_OVER
  /\ Game.highScores g'
     = fst (HighScoreManager.addScore today (Game.score g) (Game.level g)
              storage)
  /\ (Game.statusText g' = "NEW HIGH SCORE!"%string
      <-> HighScoreManager.setItemThrows storage = false /\ (n < 10)%nat)
  /\ (Game.statusText g' = "GAME OVER"%string
      <-> HighScoreManager.setItemThrows storage = true \/ (10 <= n)%nat)
  /\ (shown
      <-> HighScoreManager.isHighScore (Game.score g) (Game.highScores g')
          = true)
  /\ (In (banner canvasSize "GAME OVER" "#ff0000")
         (Game.render canvasSize g')
      <-> ~ shown)
  /\ (HighScoreManager.getItemThrows storage = false ->
      HighScoreManager.setItemThrows storage = false ->
      (shown <-> (n < 9)%nat))
  /\ (HighScoreManager.getItemThrows storage = true -> shown)
  /\ (HighScoreManager.setItemThrows storage = true ->
      (shown
       <-> HighScoreManager.isHighScore (Game.score g) storage = true))
  /\ ((Game.lives g <= 1)%Z ->
      Game.loseLife canvasSize today g
      = Game.gameOver today (Game.set_lives (Game.lives g - 1) g)).
Proof.
  cbv zeta.
  destruct (gameOver_fields today g) as (Hst & Hsc & Hhs & Htx).
  cbv zeta in Hhs, Htx.
  set (storage := Game.highScores g) in *.
  set (n := length (atLeast (Game.score g)
                      (HighScoreManager.getHighScores storage))).
  assert (Hflag : snd (HighScoreManager.addScore today (Game.score g)
                         (Game.level g) storage)
                  = negb (HighScoreManager.setItemThrows storage)
                    && (n <? 10)%nat).
  { rewrite addScore_cases.
    destruct (HighScoreManager.setItemThrows storage); reflexivity. }
  assert (Hshown : In (banner canvasSize "NEW HIGH SCORE!" "#ffff00")
                      (Game.render canvasSize (Game.gameOver today g))
                   <-> HighScoreManager.isHighScore (Game.score g)
                         (Game.highScores (Game.gameOver today g)) = true).
  { unfold banner at 1. rewrite (render_text canvasSize _ _ _ _ _ Hst).
    cbv zeta. rewrite Hsc. unfold banner.
    destruct (HighScoreManager.isHighScore (Game.score g)
                (Game.highScores (Game.gameOver today g))); split.
    - reflexivity.
    - intros _. left. reflexivity.
    - intros [H'|H']; discriminate H'.
    - discriminate. }
  split; [exact Hst|]. split; [exact Hhs|].
  rewrite Htx, Hflag.
  split; [|split; [|split; [|split; [|split; [|split; [|split; [|]]]]]]].
  - destruct (HighScoreManager.setItemThrows storage);
      destruct (Nat.ltb_spec n 10); cbn [negb andb];
      split; try (intros [H1 H2]); try intros H';
      try reflexivity; try discriminate; try lia;
      split; reflexivity || assumption.
  - destruct (HighScoreManager.setItemThrows storage);
      destruct (Nat.ltb_spec n 10); cbn [negb andb];
      split; try (intros [H1 | H2]); try intros H';
      try reflexivity; try discriminate; try lia;
      (left; reflexivity) || (right; assumption).
  - exact Hshown.
  - rewrite Hshown. unfold banner.
    rewrite (render_text canvasSize _ _ _ _ _ Hst). cbv zeta.
    rewrite Hsc. unfold banner.
    destruct (HighScoreManager.isHighScore (Game.score g)
                (Game.highScores (Game.gameOver today g))); split.
    + intros [H'|H']; discriminate H'.
    + intros H'. exfalso. apply H'. reflexivity.
    + intros _. discriminate.
    + intros _. left. reflexivity.
  - intros Hget Hset. rewrite Hshown, Hhs.
    rewrite (isHighScore_after_save today _ _ storage Hget Hset).
    fold n. apply Nat.ltb_lt.
  - intros Hget. rewrite Hshown, Hhs. rewrite addScore_cases.
    unfold HighScoreManager.isHighScore. cbv zeta.
    replace (HighScoreManager.getHighScores
               (fst (if HighScoreManager.setItemThrows storage
                     then (storage, false)
                     else _))) with (@nil HighScoreManager.HighScoreEntry);
      [reflexivity|].
    symmetry. apply getHighScores_unread. left.
    destruct (HighScoreManager.setItemThrows storage); exact Hget.
  - intros Hset. rewrite Hshown, Hhs. rewrite addScore_cases, Hset.
    reflexivity.
  - intros Hl.
    destruct (loseLife_spec canvasSize today g)
      as (_ & _ & _ & _ & _ & _ & _ & _ & _ & Hover).
    apply Hover. lia.
Qed.

(** ** The star field *)

Section Starfield.

Variable random : nat -> R.
Variable canvasSize : Vector2D.

Hypothesis random_range : forall i : nat, 0 <= random i < 1.
Hypothesis width_nonneg : 0 <= x canvasSize.
Hypothesis height_nonneg : 0 <= y canvasSize.

Lemma pushStars_spec (n : nat) (stars : list Star.t) (k : nat) :
  Forall (starOk canvasSize) stars ->
  Forall (starOk canvasSize)
         (fst (VectorRenderer.pushStars random canvasSize n stars k))
  /\ length (fst (VectorRenderer.pushStars random canvasSize n stars k))
     = (length stars + n)%nat
  /\ snd (VectorRenderer.pushStars random canvasSize n stars k)
     = (k + 4 * n)%nat.
Proof.
  revert stars k. induction n as [|n IH]; intros stars k Hok.
  - cbn. split; [exact Hok|]. split; lia.
  - cbn [VectorRenderer.pushStars]. cbv zeta.
    match goal with
    | |- context [VectorRenderer.pushStars _ _ n (stars ++ [?s]) ?k'] =>
        destruct (IH (stars ++ [s]) k') as (H1 & H2 & H3)
    end.
    { apply Forall_app. split; [exact Hok|]. constructor; [|constructor].
      unfold starOk. cbn [Star.x Star.y Star.brightness].
      pose proof (random_range k). pose proof (random_range (k + 1)).
      pose proof (random_range (k + 2)).
      repeat split; nra. }
    split; [exact H1|]. rewrite H2, H3. rewrite length_app. cbn [length].
    split; lia.
Qed.

Lemma paintStar_spec (s : Star.t) :
  starOk canvasSize s ->
  Forall (starDisc canvasSize) (VectorRenderer.paintStar s)
  /\ (1 <= length (VectorRenderer.paintStar s) <= 2)%nat.
Proof.
  intros (Hx & Hy & Hb). unfold VectorRenderer.paintStar. cbv zeta.
  pose proof (SIN_bound (Star.twinkle s)) as Hsin.
  set (f := sin (Star.twinkle s) * (3 / 10) + 7 / 10).
  assert (Hf : 4 / 10 <= f <= 1) by (unfold f; lra).
  assert (Halpha : 8 / 100 <= Star.brightness s * f < 1) by nra.
  assert (Hgreen : starDisc canvasSize
            (VectorRenderer.FillDisc
               (VectorRenderer.Rgba 0 255 0
                  (Star.brightness s * f * (8 / 10)))
               (Star.x s) (Star.y s) 1)).
  { exists 0%Z, 255%Z, 0%Z, (Star.brightness s * f * (8 / 10)),
      (Star.x s), (Star.y s), 1.
    split; [reflexivity|]. repeat split; lra. }
  destruct (Star.brightness s >? 7 / 10) eqn:Hbright.
  - split; [|cbn; lia].
    constructor; [exact Hgreen|]. constructor; [|constructor].
    apply Rgtb_true in Hbright.
    exists 255%Z, 255%Z, 255%Z, (Star.brightness s * f * (4 / 10)),
      (Star.x s), (Star.y s), (5 / 10).
    split; [reflexivity|].
    assert (28 / 100 <= Star.brightness s * f) by nra.
    repeat split; lra.
  - split; [|cbn; lia]. constructor; [exact Hgreen|constructor].
Qed.

Lemma drawStarfield_spec (deltaTime : R) (stars : list Star.t) :
  Forall (starOk canvasSize) stars ->
  Forall (starOk canvasSize)
         (fst (VectorRenderer.drawStarfield deltaTime stars))
  /\ map fixedPart (fst (VectorRenderer.drawStarfield deltaTime stars))
     = map fixedPart stars
  /\ Forall (starDisc canvasSize)
            (snd (VectorRenderer.drawStarfield deltaTime stars))
  /\ (length stars
      <= length (snd (VectorRenderer.drawStarfield deltaTime stars))
      <= 2 * length stars)%nat.
Proof.
  induction 1 as [|s stars Hs _ IH].
  - cbn. repeat split; constructor || lia.
  - cbn [VectorRenderer.drawStarfield]. cbv zeta.
    destruct (VectorRenderer.drawStarfield deltaTime stars)
      as [rest1 painted].
    cbn [fst snd] in *. destruct IH as (H1 & H2 & H3 & H4).
    set (s1 := {| Star.x := Star.x s; Star.y := Star.y s;
                  Star.brightness := Star.brightness s;
                  Star.twinkle := Star.twinkle s + deltaTime * 2 |}).
    assert (Hs1 : starOk canvasSize s1) by exact Hs.
    destruct (paintStar_spec s1 Hs1) as (Hp & Hn).
    split; [constructor; assumption|].
    split; [cbn [map]; rewrite H2; reflexivity|].
    split; [apply Forall_app; split; assumption|].
    rewrite length_app. cbn [length]. lia.
Qed.

Lemma clears_spec (deltas : list R) (stars : list Star.t) :
  Forall (starOk canvasSize) stars ->
  Forall (starOk canvasSize) (clears canvasSize deltas stars)
  /\ map fixedPart (clears canvasSize deltas stars) = map fixedPart stars.
Proof.
  revert stars. induction deltas as [|deltaTime rest IH]; intros stars Hok.
  - cbn. split; [exact Hok|reflexivity].
  - cbn [clears]. unfold VectorRenderer.clear.
    destruct (drawStarfield_spec deltaTime stars Hok) as (H1 & H2 & _).
    destruct (VectorRenderer.drawStarfield deltaTime stars)
      as [stars1 painted].
    cbn [fst] in *. destruct (IH stars1 H1) as (H3 & H4).
    split; [exact H3|]. rewrite H4. exact H2.
Qed.

(** X18. With [Math.random()] in [[0, 1)], the star field has 150 stars,
    made with 600 random numbers; the frames' [clear] calls change
    neither the place nor the brightness of a star; and every [clear]
    paints the black background and then, for every star, one disc or
    two (150 to 300 in all), each within the canvas and with an opacity
    from 0.064 up to 0.8: a star is never invisible and never opaque. *)
Theorem starfield (k : nat) (deltas : list R) (deltaTime : R) :
  let stars0 := fst (VectorRenderer.generateStarfield random canvasSize k) in
  let stars := clears canvasSize deltas stars0 in
  length stars0 = 150%nat
  /\ snd (VectorRenderer.generateStarfield random canvasSize k)
     = (k + 600)%nat
  /\ map fixedPart stars = map fixedPart stars0
  /\ exists discs,
       snd (VectorRenderer.clear canvasSize deltaTime stars)
       = VectorRenderer.FillRect (VectorRenderer.Named "#000") 0 0
           (x canvasSize) (y canvasSize) :: discs
       /\ (150 <= length discs <= 300)%nat
       /\ Forall (starDisc canvasSize) discs.
Proof.
  cbv zeta. unfold VectorRenderer.generateStarfield. cbv zeta.
  destruct (pushStars_spec 150 [] k (Forall_nil _)) as (H1 & H2 & H3).
  cbn [length Nat.add] in H2.
  split; [exact H2|]. split; [rewrite H3; lia|].
  destruct (clears_spec deltas _ H1) as (H4 & H5).
  split; [exact H5|].
  unfold VectorRenderer.clear.
  destruct (drawStarfield_spec deltaTime _ H4) as (_ & H6 & H7 & H8).
  assert (Hlen : length (clears canvasSize deltas
                   (fst (VectorRenderer.pushStars random canvasSize 150
                           [] k))) = 150%nat).
  { rewrite <- (length_map fixedPart
                   (clears canvasSize deltas
                      (fst (VectorRenderer.pushStars random canvasSize 150
                              [] k)))).
    rewrite H5, length_map. exact H2. }
  rewrite Hlen in H8.
  destruct (VectorRenderer.drawStarfield deltaTime
              (clears canvasSize deltas
                 (fst (VectorRenderer.pushStars random canvasSize 150
                         [] k)))) as [stars1 painted].
  cbn [snd] in *. exists painted.
  split; [reflexivity|]. split; [lia|exact H7].
Qed.

End Starfield.

Lemma starfield_witness :
  (forall i : nat, 0 <= zeroRandom i < 1)
  /\ 0 <= x sampleCanvas /\ 0 <= y sampleCanvas
  /\ length (fst (VectorRenderer.generateStarfield zeroRandom sampleCanvas 0))
     = 150%nat.
Proof.
  assert (Hr : forall i : nat, 0 <= zeroRandom i < 1)
    by (intros i; unfold zeroRandom; lra).
  assert (Hw : 0 <= x sampleCanvas) by (simpl; lra).
  assert (Hh : 0 <= y sampleCanvas) by (simpl; lra).
  split; [exact Hr|]. split; [exact Hw|]. split; [exact Hh|].
  exact (proj1 (starfield zeroRandom sampleCanvas Hr Hw Hh 0%nat
                  [1 / 60; 1 / 60] (1 / 60))).
Defined.

(** ** What a frame does to the counters *)

Section Counters.

Variable random : nat -> R.
Variable canvasSize : Vector2D.
Variable today : string.

Lemma handleInput_stored (deltaTime : R) (g : Game.t) :
  Game.highScores (Game.handleInput deltaTime g) = Game.highScores g.
Proof.
  unfold Game.handleInput. destruct (negb _); [reflexivity|].
  destruct (InputManager.isThrustPressed (Game.keys g));
    cbn [Game.keys Game.set_ship];
    destruct (InputManager.isLeftPressed (Game.keys g));
    cbn [Game.keys Game.set_ship];
    destruct (InputManager.isRightPressed (Game.keys g));
    cbn [Game.keys Game.set_ship Game.set_fireDelay Game.fireDelay];
    destruct (_ && _); reflexivity.
Qed.

Lemma afterShipPass_counters (g : Game.t) :
  let g' := afterShipPass canvasSize today g in
  Game.score g' = Game.score g
  /\ Game.level g' = Game.level g
  /\ Game.asteroids g' = Game.asteroids g
  /\ ((Game.state g' = Game.state g
       /\ Game.highScores g' = Game.highScores g)
      \/ (Game.state g' = GAME_OVER /\ (Game.lives g' <= 0)%Z)).
Proof.
  cbv zeta. unfold afterShipPass.
  destruct (scanShip_cases canvasSize today (Game.asteroids g) g)
    as [->|[_ ->]].
  - repeat split; try reflexivity. left. split; reflexivity.
  - destruct (loseLife_spec canvasSize today g)
      as (Hl & Ha & _ & Hsc & Hle & _ & _ & _ & Hpos & Hover).
    split; [exact Hsc|]. split; [exact Hle|]. split; [exact Ha|].
    destruct (Z_lt_le_dec 0 (Game.lives g - 1)) as [Hpos'|Hover'].
    + left. rewrite (Hpos Hpos'). split; reflexivity.
    + right. split; [|lia]. rewrite (Hover Hover').
      apply gameOver_frame.
Qed.

(** X19. What one frame does to the counters. The score never goes down.
    The level stays or goes up by one, and when it goes up the frame ends
    with a fresh field of [4 + level] asteroids. The state stays, except
    that PLAYING becomes GAME_OVER in a frame that takes the last life;
    only such a frame writes to the stored high scores. The set of
    pressed keys is not touched. *)
Theorem frame_counters (fuel : nat) (currentTime : R) (g g' : Game.t) :
  Game.update random canvasSize today fuel currentTime g = Some g' ->
  (Game.score g <= Game.score g')%Z
  /\ (Game.level g' = Game.level g
      \/ (Game.level g' = (Game.level g + 1)%Z
          /\ length (Game.asteroids g') = Z.to_nat (4 + Game.level g')))
  /\ ((Game.state g' = Game.state g
       /\ Game.highScores g' = Game.highScores g)
      \/ (Game.state g = PLAYING /\ Game.state g' = GAME_OVER
          /\ (Game.lives g' <= 0)%Z))
  /\ Game.keys g' = Game.keys g.
Proof.
  destruct (GameState_eqb (Game.state g) PLAYING) eqn:Hst.
  2:{ assert (Hs : Game.state g <> PLAYING)
        by (intros E; rewrite E in Hst; discriminate Hst).
      rewrite (idle_update random canvasSize today fuel currentTime g Hs).
      intros H. injection H as <-.
      split; [cbn; lia|]. split; [left; reflexivity|].
      split; [left; split; reflexivity|reflexivity]. }
  assert (Hs : Game.state g = PLAYING)
    by (destruct (Game.state g); try discriminate Hst; reflexivity).
  clear Hst. unfold Game.update. cbv zeta.
  set (dt := (currentTime - Game.lastTime g) / 1000).
  set (g1 := Game.set_lastTime currentTime g).
  destruct (handleInput_playing dt g1 Hs)
    as (Hs2 & _ & Hk2 & _ & Hsc2 & _ & Hl2 & _).
  pose proof (handleInput_stored dt g1) as Hh2.
  pose proof (updateGameObjects_frame canvasSize dt (Game.handleInput dt g1))
    as Hfr.
  frame_field Hfr Game.state as Hs3. frame_field Hfr Game.level as Hl3.
  frame_field Hfr Game.score as Hsc3. frame_field Hfr Game.keys as Hk3.
  frame_field Hfr Game.highScores as Hh3.
  set (g3 := Game.updateGameObjects canvasSize dt (Game.handleInput dt g1))
    in *.
  assert (Hs3' : Game.state g3 = PLAYING) by congruence.
  rewrite (checkCollisions_playing random canvasSize today fuel g3 Hs3').
  cbv zeta.
  destruct (scanBullets_summary random (length (Game.bullets g3)) g3)
    as (hits & _ & _ & _ & Hsc4 & _ & Hfr4).
  fold (afterBulletPass random g3) in Hsc4, Hfr4.
  frame_field Hfr4 Game.state as Hs4. frame_field Hfr4 Game.level as Hl4.
  frame_field Hfr4 Game.keys as Hk4.
  frame_field Hfr4 Game.highScores as Hh4.
  destruct (totalPoints_tens hits) as [Hpts _].
  set (g4 := afterBulletPass random g3) in *.
  destruct (afterShipPass_counters g4) as (Hsc5 & Hl5 & _ & Hs5).
  cbv zeta in Hsc5, Hl5, Hs5.
  assert (Hk5 : Game.keys (afterShipPass canvasSize today g4) = Game.keys g4).
  { unfold afterShipPass.
    destruct (scanShip_cases canvasSize today (Game.asteroids g4) g4)
      as [->|[_ ->]]; [reflexivity|].
    apply loseLife_spec. }
  set (g5 := afterShipPass canvasSize today g4) in *.
  assert (Hscore : (Game.score g <= Game.score g5)%Z).
  { rewrite Hsc5, Hsc4, Hsc3, Hsc2. unfold g1.
    cbn [Game.score Game.set_lastTime]. lia. }
  assert (Hlevel : Game.level g5 = Game.level g).
  { rewrite Hl5, Hl4, Hl3, Hl2. reflexivity. }
  assert (Hkeys : Game.keys g5 = Game.keys g).
  { rewrite Hk5, Hk4, Hk3, Hk2. reflexivity. }
  assert (Hstate : (Game.state g5 = Game.state g
                    /\ Game.highScores g5 = Game.highScores g)
                   \/ (Game.state g = PLAYING /\ Game.state g5 = GAME_OVER
                       /\ (Game.lives g5 <= 0)%Z)).
  { destruct Hs5 as [[Hs5 Hh5]|[Hs5 Hl5']].
    - left. split; [congruence|].
      rewrite Hh5, Hh4, Hh3, Hh2. reflexivity.
    - right. split; [exact Hs|]. split; assumption. }
  destruct (Game.asteroids g5) eqn:Hfield.
  - unfold Game.nextLevel. intros H.
    apply createAsteroids_some in H. destruct H as (Hfr6 & Hlen & _).
    frame_field Hfr6 Game.state as Hs6. frame_field Hfr6 Game.level as Hl6.
    frame_field Hfr6 Game.score as Hsc6. frame_field Hfr6 Game.keys as Hk6.
    frame_field Hfr6 Game.highScores as Hh6.
    frame_field Hfr6 Game.lives as Hli6.
    cbn [Game.level Game.set_level] in Hlen.
    split; [rewrite Hsc6; exact Hscore|].
    split.
    { right. rewrite Hl6, Hlevel. split; [reflexivity|].
      rewrite Hlen, Hlevel. reflexivity. }
    split; [|rewrite Hk6; exact Hkeys].
    rewrite Hs6, Hh6, Hli6. exact Hstate.
  - intros H. injection H as <-.
    split; [exact Hscore|]. split; [left; exact Hlevel|].
    split; [exact Hstate|exact Hkeys].
Qed.

End Counters.

Lemma frame_counters_witness :
  let g := sampleGame [] [] PLAYING in
  exists fuel g',
    Game.update fairRandom sampleCanvas sampleDate fuel 16 g = Some g'
    /\ (Game.score g <= Game.score g')%Z
    /\ Game.keys g' = Game.keys g.
Proof.
  cbv zeta.
  destruct (update_terminates fairRandom sampleCanvas sampleDate
              fairRandom_spawns 16 (sampleGame [] [] PLAYING))
    as (fuel & g' & Hg').
  exists fuel, g'. split; [exact Hg'|].
  destruct (frame_counters fairRandom sampleCanvas sampleDate fuel 16
              (sampleGame [] [] PLAYING) g' Hg') as (H1 & _ & _ & H4).
  split; assumption.
Defined.

(** ** Restart *)

Section Restart.

Variable random : nat -> R.
Variable canvasSize : Vector2D.

Lemma spawnAsteroids_carried (old : Game.t) (fuel n : nat) (g : Game.t) :
  Game.spawnAsteroids random canvasSize fuel n (carriedOver old g)
  = option_map (carriedOver old)
      (Game.spawnAsteroids random canvasSize fuel n g).
Proof.
  revert g. induction n as [|n IH]; intros g; [reflexivity|].
  cbn [Game.spawnAsteroids].
  change (Game.ship (carriedOver old g)) with (Game.ship g).
  change (Game.randomCalls (carriedOver old g)) with (Game.randomCalls g).
  destruct (Game.spawnPoint random canvasSize fuel
              (Ship.position (Game.ship g)) (Game.randomCalls g))
    as [[[px py] k]|]; [|reflexivity].
  destruct (Asteroid.new random px py large k) as [a k'].
  rewrite <- IH. f_equal.
Qed.

(** X20. Restarting after GAME_OVER gives the game that the constructor
    would build now, from the stored high scores and the next random
    numbers, with the status text READY: score 0, three lives, level 1,
    no bullets, the ship new at the centre, five large asteroids. Only
    the time of the last frame, the fire delay and the set of pressed
    keys are carried over from the game before. *)
Theorem reset_is_new (fuel : nat) (g g' : Game.t) :
  Game.resetGame random canvasSize fuel g = Some g' ->
  exists fresh,
    Game.new random canvasSize fuel "READY" (Game.highScores g)
      (Game.randomCalls g) = Some fresh
    /\ g' = carriedOver g fresh.
Proof.
  unfold Game.resetGame, Game.new, Game.setupGame, Game.createAsteroids.
  cbv zeta.
  cbn [Game.level Game.set_ship Game.set_asteroids Game.set_bullets
       Game.set_statusText Game.set_state Game.set_level Game.set_lives
       Game.set_score].
  set (n := Z.to_nat (4 + 1)).
  match goal with
  | |- Game.spawnAsteroids _ _ _ _ ?a = _ ->
       exists fresh, Game.spawnAsteroids _ _ _ _ ?b = _ /\ _ =>
      replace a with (carriedOver g b) by reflexivity
  end.
  rewrite spawnAsteroids_carried.
  match goal with
  | |- option_map _ ?r = _ -> _ => destruct r as [fresh|]
  end; [|discriminate].
  cbn [option_map]. intros H. injection H as <-.
  exists fresh. split; reflexivity.
Qed.

End Restart.

Lemma reset_is_new_witness :
  let g := sampleGame [] [] GAME_OVER in
  exists fuel g' fresh,
    Game.resetGame zeroRandom sampleCanvas fuel g = Some g'
    /\ Game.new zeroRandom sampleCanvas fuel "READY" sampleStorage 0
       = Some fresh
    /\ g' = carriedOver g fresh.
Proof.
  cbv zeta.
  destruct (resetGame_terminates zeroRandom sampleCanvas
              (sampleGame [] [] GAME_OVER)) as (fuel & g' & Hg').
  { apply zeroRandom_spawns. simpl. lra. }
  destruct (reset_is_new zeroRandom sampleCanvas fuel
              (sampleGame [] [] GAME_OVER) g' Hg') as (fresh & H1 & H2).
  exists fuel, g', fresh. split; [exact Hg'|]. split; [exact H1|exact H2].
Defined.

(** ** Drift of asteroids and bullets *)

Lemma magnitude_scale_abs (c : R) (v : Vector2D) :
  magnitude (mkVector2D (x v * c) (y v * c)) = Rabs c * magnitude v.
Proof.
  unfold magnitude. cbn [x y].
  replace (x v * c * (x v * c) + y v * c * (y v * c))
    with (Rabs c * Rabs c * (x v * x v + y v * y v)).
  - rewrite sqrt_mult.
    + rewrite sqrt_square by apply Rabs_pos. reflexivity.
    + apply Rle_0_sqr.
    + pose proof (Rle_0_sqr (x v)). pose proof (Rle_0_sqr (y v)).
      unfold Rsqr in *. lra.
  - replace (Rabs c * Rabs c) with (c * c).
    + ring.
    + unfold Rabs. destruct (Rcase_abs c); ring.
Qed.

Lemma distance_ahead (p v : Vector2D) (deltaTime : R) :
  distance (ahead p v deltaTime) p = magnitude v * Rabs deltaTime.
Proof.
  unfold distance, ahead. cbn [x y].
  rewrite (Rmult_comm (magnitude v)), <- magnitude_scale_abs.
  unfold magnitude. cbn [x y].
  f_equal. ring.
Qed.

Lemma wrap_in_bounds (canvasSize : Vector2D) (o : GameObject.t) :
  inBounds canvasSize (GameObject.position o) ->
  GameObject.wrapPosition canvasSize o = o.
Proof.
  intros [[Hx1 Hx2] [Hy1 Hy2]]. unfold GameObject.wrapPosition.
  rewrite !wrapAxis_cases.
  replace (x (GameObject.position o) <? 0) with false
    by (symmetry; apply Rltb_false; exact Hx1).
  replace (x (GameObject.position o) >? x canvasSize) with false
    by (symmetry; apply Rgtb_false; exact Hx2).
  replace (y (GameObject.position o) <? 0) with false
    by (symmetry; apply Rltb_false; exact Hy1).
  replace (y (GameObject.position o) >? y canvasSize) with false
    by (symmetry; apply Rgtb_false; exact Hy2).
  destruct o as [[px py] v r s a]. reflexivity.
Qed.

(** X21. Asteroids and bullets drift. [update] never changes the
    velocity, the size or the turning rate of an asteroid and turns it by
    [rotationSpeed * deltaTime]; when the point straight ahead is within
    the canvas, the asteroid is there afterwards, [speed * |deltaTime|]
    from where it was. The same holds of a bullet as long as its life
    time stays within two seconds; a bullet whose life time passes two
    seconds does not move any more. *)
Theorem drift (deltaTime : R) (canvasSize : Vector2D) (a : Asteroid.t)
    (b : Bullet.t) :
  let a' := Asteroid.update deltaTime canvasSize a in
  let b' := Bullet.update deltaTime canvasSize b in
  (Asteroid.velocity a' = Asteroid.velocity a
   /\ Asteroid.size a' = Asteroid.size a
   /\ Asteroid.rotationSpeed a' = Asteroid.rotationSpeed a
   /\ GameObject.rotation (Asteroid.obj a')
      = GameObject.rotation (Asteroid.obj a)
        + Asteroid.rotationSpeed a * deltaTime
   /\ (inBounds canvasSize
         (ahead (Asteroid.position a) (Asteroid.velocity a) deltaTime) ->
       Asteroid.position a'
       = ahead (Asteroid.position a) (Asteroid.velocity a) deltaTime
       /\ distance (Asteroid.position a') (Asteroid.position a)
          = magnitude (Asteroid.velocity a) * Rabs deltaTime))
  /\ Bullet.velocity b' = Bullet.velocity b
  /\ Bullet.lifeTime b' = Bullet.lifeTime b + deltaTime
  /\ (Bullet.lifeTime b + deltaTime <= 2 ->
      inBounds canvasSize
        (ahead (Bullet.position b) (Bullet.velocity b) deltaTime) ->
      Bullet.position b'
      = ahead (Bullet.position b) (Bullet.velocity b) deltaTime
      /\ distance (Bullet.position b') (Bullet.position b)
         = magnitude (Bullet.velocity b) * Rabs deltaTime)
  /\ (2 < Bullet.lifeTime b + deltaTime ->
      Bullet.position b' = Bullet.position b
      /\ Bullet.active b' = false).
Proof.
  cbv zeta. split; [|split; [|split; [|split]]].
  - split; [reflexivity|]. split; [reflexivity|]. split; [reflexivity|].
    split; [reflexivity|]. intros Hin.
    assert (Hpos : Asteroid.position
                     (Asteroid.update deltaTime canvasSize a)
                   = ahead (Asteroid.position a) (Asteroid.velocity a)
                       deltaTime).
    { unfold Asteroid.update. cbv zeta. unfold Asteroid.with_obj.
      cbn [Asteroid.obj Asteroid.position].
      rewrite wrap_in_bounds; [reflexivity|exact Hin]. }
    split; [exact Hpos|]. rewrite Hpos. apply distance_ahead.
  - rewrite Bullet_update_cases.
    destruct (Bullet.lifeTime b + deltaTime >? Bullet.maxLifeTime);
      reflexivity.
  - rewrite Bullet_update_cases.
    destruct (Bullet.lifeTime b + deltaTime >? Bullet.maxLifeTime);
      reflexivity.
  - intros Hlife Hin. rewrite Bullet_update_cases.
    replace (Bullet.lifeTime b + deltaTime >? Bullet.maxLifeTime)
      with false
      by (symmetry; apply Rgtb_false; unfold Bullet.maxLifeTime;
          exact Hlife).
    assert (Hpos : Bullet.position
                     {| Bullet.obj :=
                          GameObject.wrapPosition canvasSize
                            (GameObject.integrate deltaTime (Bullet.obj b));
                        Bullet.lifeTime := Bullet.lifeTime b + deltaTime |}
                   = ahead (Bullet.position b) (Bullet.velocity b)
                       deltaTime).
    { unfold Bullet.position. cbn [Bullet.obj].
      rewrite wrap_in_bounds; [reflexivity|exact Hin]. }
    split; [exact Hpos|]. rewrite Hpos. apply distance_ahead.
  - intros Hlife. rewrite Bullet_update_cases.
    replace (Bullet.lifeTime b + deltaTime >? Bullet.maxLifeTime)
      with true
      by (symmetry; apply Rgtb_true; unfold Bullet.maxLifeTime; lra).
    split; reflexivity.
Qed.

(** ** A frame that stands still *)

(** A frame whose time stamp is that of the frame before has [deltaTime]
    0: it moves no entity that is within the canvas. *)
Lemma wrap_at (canvasSize p : Vector2D) (o : GameObject.t) :
  inBounds canvasSize p ->
  GameObject.wrapPosition canvasSize (GameObject.set_position p o)
  = GameObject.set_position p o.
Proof.
  intros Hin. apply wrap_in_bounds. destruct o. exact Hin.
Qed.

Lemma Ship_update_still (canvasSize : Vector2D) (s : Ship.t) :
  inBounds canvasSize (Ship.position s) ->
  Ship.position (Ship.update ((0 - 0) / 1000) canvasSize s)
  = Ship.position s.
Proof.
  intros Hin. rewrite Ship_update_position.
  destruct (limitSpeed_keeps (Ship.applyThrust ((0 - 0) / 1000) s))
    as (-> & _).
  destruct (applyThrust_keeps ((0 - 0) / 1000) s) as (-> & _).
  replace ((0 - 0) / 1000) with 0 by lra.
  rewrite !Rmult_0_r, !Rplus_0_r.
  unfold wrapPoint. cbn [x y]. rewrite !wrapAxis_cases.
  destruct Hin as [[Hx1 Hx2] [Hy1 Hy2]].
  replace (x (Ship.position s) <? 0) with false
    by (symmetry; apply Rltb_false; exact Hx1).
  replace (x (Ship.position s) >? x canvasSize) with false
    by (symmetry; apply Rgtb_false; exact Hx2).
  replace (y (Ship.position s) <? 0) with false
    by (symmetry; apply Rltb_false; exact Hy1).
  replace (y (Ship.position s) >? y canvasSize) with false
    by (symmetry; apply Rgtb_false; exact Hy2).
  destruct (Ship.position s) as [px py]. reflexivity.
Qed.

Lemma Asteroid_update_still (canvasSize : Vector2D) (a : Asteroid.t) :
  inBounds canvasSize (Asteroid.position a) ->
  Asteroid.position (Asteroid.update ((0 - 0) / 1000) canvasSize a)
  = Asteroid.position a.
Proof.
  intros Hin. unfold Asteroid.update. cbv zeta. unfold Asteroid.with_obj.
  cbn [Asteroid.obj Asteroid.position]. unfold GameObject.integrate.
  cbn [GameObject.position GameObject.velocity GameObject.set_rotation].
  assert (Hp : mkVector2D
                 (x (GameObject.position (Asteroid.obj a))
                  + x (GameObject.velocity (Asteroid.obj a))
                    * ((0 - 0) / 1000))
                 (y (GameObject.position (Asteroid.obj a))
                  + y (GameObject.velocity (Asteroid.obj a))
                    * ((0 - 0) / 1000))
               = GameObject.position (Asteroid.obj a)).
  { destruct (GameObject.position (Asteroid.obj a)) as [px py]. cbn [x y].
    f_equal; lra. }
  rewrite Hp. rewrite wrap_at by exact Hin. reflexivity.
Qed.

Lemma Bullet_update_still (canvasSize : Vector2D) (b : Bullet.t) :
  inBounds canvasSize (Bullet.position b) ->
  Bullet.lifeTime b <= 2 ->
  Bullet.position (Bullet.update ((0 - 0) / 1000) canvasSize b)
  = Bullet.position b
  /\ Bullet.active (Bullet.update ((0 - 0) / 1000) canvasSize b)
     = Bullet.active b.
Proof.
  intros Hin Hlife. rewrite Bullet_update_cases.
  replace (Bullet.lifeTime b + (0 - 0) / 1000 >? Bullet.maxLifeTime)
    with false
    by (symmetry; apply Rgtb_false; unfold Bullet.maxLifeTime; lra).
  unfold Bullet.position, Bullet.active. cbn [Bullet.obj].
  unfold GameObject.integrate.
  assert (Hp : mkVector2D
                 (x (GameObject.position (Bullet.obj b))
                  + x (GameObject.velocity (Bullet.obj b))
                    * ((0 - 0) / 1000))
                 (y (GameObject.position (Bullet.obj b))
                  + y (GameObject.velocity (Bullet.obj b))
                    * ((0 - 0) / 1000))
               = GameObject.position (Bullet.obj b)).
  { destruct (GameObject.position (Bullet.obj b)) as [px py]. cbn [x y].
    f_equal; lra. }
  rewrite Hp. rewrite wrap_at by exact Hin. split; reflexivity.
Qed.

(** The game after the movement of a frame in PLAYING with no key
    pressed. *)
Lemma afterMovement_idle_keys (canvasSize : Vector2D) (currentTime : R)
    (g : Game.t) :
  Game.state g = PLAYING ->
  Game.keys g = [] ->
  let deltaTime := (currentTime - Game.lastTime g) / 1000 in
  let moved := afterMovement canvasSize currentTime g in
  Game.ship moved
  = Ship.update deltaTime canvasSize (Ship.setThrust 0 (Game.ship g))
  /\ Game.asteroids moved
     = map (Asteroid.update deltaTime canvasSize) (Game.asteroids g)
  /\ Game.bullets moved
     = filter Bullet.active
         (map (Bullet.update deltaTime canvasSize) (Game.bullets g)).
Proof.
  intros Hs Hk.
  destruct g as [sh asts bs st sc li le lt fd tx ks hs rc].
  cbn in Hs, Hk. subst st ks. cbv zeta. repeat split.
Qed.

(** The ship on two asteroids: the pass, and a whole frame, take one life
    and leave both asteroids. *)
Lemma ship_asteroid_pass_witness :
  let g := sampleGame [sampleAsteroid 400 300 large;
                       sampleAsteroid 400 300 medium] [] PLAYING in
  (exists a, In a (Game.asteroids g)
             /\ collidesWith (Game.ship g) a = true)
  /\ Game.lives (afterShipPass sampleCanvas sampleDate g) = 2%Z
  /\ length (Game.asteroids (afterShipPass sampleCanvas sampleDate g)) = 2%nat
  /\ exists g',
       Game.update zeroRandom sampleCanvas sampleDate 0 0 g = Some g'
       /\ Game.lives g' = 2%Z
       /\ length (Game.asteroids g') = 2%nat
       /\ Ship.position (Game.ship g')
          = mkVector2D (x sampleCanvas / 2) (y sampleCanvas / 2).
Proof.
  intros g.
  assert (Hhit : exists a, In a (Game.asteroids g)
                           /\ collidesWith (Game.ship g) a = true).
  { exists (sampleAsteroid 400 300 large). split; [left; reflexivity|].
    apply same_place_collides; [reflexivity | simpl; lra]. }
  split; [exact Hhit|].
  destruct (ship_asteroid_pass zeroRandom sampleCanvas sampleDate g)
    as (Hpass & _ & _ & Htick).
  destruct (Hpass Hhit) as (Hl & Ha & _).
  split; [exact Hl|]. split; [rewrite Ha; reflexivity|].
  (* the frame at the time of the frame before *)
  destruct (afterMovement_idle_keys sampleCanvas 0 g eq_refl eq_refl)
    as (Hsh & Has & Hbs).
  cbv zeta in Hsh, Has, Hbs.
  change (Game.lastTime g) with 0 in Hsh, Has, Hbs.
  change (Game.bullets g) with (@nil Bullet.t) in Hbs.
  cbn [map filter] in Hbs.
  set (moved := afterMovement sampleCanvas 0 g) in *.
  assert (Hpassed : afterBulletPass zeroRandom moved = moved).
  { unfold afterBulletPass. rewrite Hbs. reflexivity. }
  assert (Hhit' : exists a,
             In a (Game.asteroids (afterBulletPass zeroRandom moved))
             /\ collidesWith (Game.ship (afterBulletPass zeroRandom moved)) a
                = true).
  { rewrite Hpassed.
    exists (Asteroid.update ((0 - 0) / 1000) sampleCanvas
              (sampleAsteroid 400 300 large)).
    split; [rewrite Has; left; reflexivity|].
    apply same_place_collides; [|simpl; lra].
    change (Ship.position (Game.ship moved)
            = Asteroid.position
                (Asteroid.update ((0 - 0) / 1000) sampleCanvas
                   (sampleAsteroid 400 300 large))).
    rewrite Hsh, Ship_update_still, Asteroid_update_still.
    - reflexivity.
    - unfold inBounds. cbn. lra.
    - unfold inBounds. cbn. lra. }
  destruct (playing_tick zeroRandom sampleCanvas sampleDate 0 0 g eq_refl)
    as (_ & _ & _ & _ & _ & Hup).
  cbv zeta in Hup. fold moved in Hup.
  destruct (afterShipPass_keeps sampleCanvas sampleDate
              (afterBulletPass zeroRandom moved)) as (Hkeep & _).
  rewrite Hkeep, Hpassed, Has in Hup. cbn [map] in Hup.
  destruct (Htick 0%nat 0 _ eq_refl Hup) as [Hcase _].
  destruct (Hcase Hhit') as (_ & Hl' & Ha' & _ & _ & _ & Hpos).
  fold moved in Ha'.
  eexists. split; [exact Hup|].
  split; [rewrite Hl'; reflexivity|].
  split; [rewrite Ha', Hpassed, Has; reflexivity|].
  apply Hpos. rewrite Hl'. reflexivity.
Defined.

(** A bullet on two large asteroids: the pass, and a whole frame, destroy
    one of them, score 20 and leave its two pieces. *)
Lemma bullet_asteroid_pass_witness :
  let g := sampleGame [sampleAsteroid 100 100 large;
                       sampleAsteroid 100 100 large]
                      [Bullet.new 100 100 0] PLAYING in
  Game.score (afterBulletPass zeroRandom g) = 20%Z
  /\ Game.bullets (afterBulletPass zeroRandom g) = []
  /\ length (Game.asteroids (afterBulletPass zeroRandom g)) = 3%nat
  /\ exists g',
       Game.update zeroRandom sampleCanvas sampleDate 0 0 g = Some g'
       /\ Game.score g' = 20%Z
       /\ Game.bullets g' = []
       /\ length (Game.asteroids g') = 3%nat.
Proof.
  intros g.
  (* what the theorem says of a game with one bullet that lies on both
     of its two large asteroids *)
  assert (Hsample : forall h b a1 a2,
            Game.bullets h = [b] -> Game.asteroids h = [a1; a2] ->
            Game.score h = 0%Z ->
            Asteroid.size a1 = large -> Asteroid.size a2 = large ->
            collidesWith b a1 = true ->
            Game.score (afterBulletPass zeroRandom h) = 20%Z
            /\ Game.bullets (afterBulletPass zeroRandom h) = []
            /\ length (Game.asteroids (afterBulletPass zeroRandom h))
               = 3%nat).
  { intros h b a1 a2 Hb Ha Hsc Hs1 Hs2 Hc.
    assert (Hpass : afterBulletPass zeroRandom h
                    = Game.scanAsteroids zeroRandom b 0
                        (length (Game.asteroids h)) h).
    { unfold afterBulletPass. rewrite Hb. cbn [length].
      rewrite (scanBullets_step zeroRandom 0 h b)
        by (rewrite Hb; reflexivity).
      reflexivity. }
    rewrite Hpass.
    destruct (bullet_asteroid_pass zeroRandom sampleCanvas sampleDate h)
      as (Hscan & _ & _).
    assert (Hn : nth_error (Game.bullets h) 0 = Some b)
      by (rewrite Hb; reflexivity).
    destruct (Hscan b 0%nat Hn)
      as [[_ Hno]
         | (j & a & frags & Hj & _ & _ & Hbs & _ & Has & Hs & Hlen & _)].
    - exfalso. rewrite (Hno a1) in Hc;
        [discriminate | rewrite Ha; left; reflexivity].
    - assert (Hsz : Asteroid.size a = large).
      { apply nth_error_In in Hj. rewrite Ha in Hj.
        destruct Hj as [<- | [<- | []]]; assumption. }
      rewrite Hs, Hbs, Has, length_app, Hlen, Hsz, Hsc, Hb.
      split; [reflexivity|]. split; [reflexivity|].
      assert (Hj2 : (j < 2)%nat).
      { rewrite Ha in Hj. apply (nth_error_Some [a1; a2] j). intros E.
        rewrite E in Hj. discriminate Hj. }
      rewrite Ha.
      destruct j as [|[|j]]; [reflexivity | reflexivity | lia]. }
  assert (Hc : collidesWith (Bullet.new 100 100 0)
                 (sampleAsteroid 100 100 large) = true).
  { apply same_place_collides; [reflexivity | simpl; lra]. }
  destruct (Hsample g (Bullet.new 100 100 0) (sampleAsteroid 100 100 large)
              (sampleAsteroid 100 100 large) eq_refl eq_refl eq_refl
              eq_refl eq_refl Hc) as (G1 & G2 & G3).
  split; [exact G1|]. split; [exact G2|]. split; [exact G3|].
  (* the frame at the time of the frame before *)
  destruct (afterMovement_idle_keys sampleCanvas 0 g eq_refl eq_refl)
    as (_ & Has & Hbs).
  cbv zeta in Has, Hbs.
  change (Game.lastTime g) with 0 in Has, Hbs.
  change (Game.bullets g) with [Bullet.new 100 100 0] in Hbs.
  change (Game.asteroids g)
    with [sampleAsteroid 100 100 large; sampleAsteroid 100 100 large]
    in Has.
  cbn [map filter] in Has, Hbs.
  destruct (Bullet_update_still sampleCanvas (Bullet.new 100 100 0))
    as (Hbp & Hba).
  { unfold inBounds. cbn. lra. }
  { cbn. lra. }
  rewrite Hba in Hbs. cbn [Bullet.active Bullet.new Bullet.obj
    GameObject.active GameObject.set_velocity GameObject.new] in Hbs.
  set (moved := afterMovement sampleCanvas 0 g) in *.
  assert (Hc' : collidesWith
                  (Bullet.update ((0 - 0) / 1000) sampleCanvas
                     (Bullet.new 100 100 0))
                  (Asteroid.update ((0 - 0) / 1000) sampleCanvas
                     (sampleAsteroid 100 100 large)) = true).
  { apply same_place_collides; [|simpl; lra].
    change (Bullet.position
              (Bullet.update ((0 - 0) / 1000) sampleCanvas
                 (Bullet.new 100 100 0))
            = Asteroid.position
                (Asteroid.update ((0 - 0) / 1000) sampleCanvas
                   (sampleAsteroid 100 100 large))).
    rewrite Hbp, Asteroid_update_still; [reflexivity|].
    unfold inBounds. cbn. lra. }
  destruct (Hsample moved _ _ _ Hbs Has eq_refl eq_refl eq_refl Hc')
    as (M1 & M2 & M3).
  destruct (playing_tick zeroRandom sampleCanvas sampleDate 0 0 g eq_refl)
    as (_ & _ & _ & _ & _ & Hup).
  cbv zeta in Hup. fold moved in Hup.
  destruct (afterShipPass_keeps sampleCanvas sampleDate
              (afterBulletPass zeroRandom moved)) as (Hkeep & _).
  rewrite Hkeep in Hup.
  destruct (Game.asteroids (afterBulletPass zeroRandom moved))
    as [|a rest] eqn:Hfield; [discriminate M3|].
  destruct (bullet_asteroid_pass zeroRandom sampleCanvas sampleDate g)
    as (_ & _ & _ & Htick).
  destruct (Htick 0%nat 0 _ eq_refl Hup) as (_ & _ & T1 & T2 & T3).
  fold moved in T1, T2, T3.
  eexists. split; [exact Hup|].
  split; [rewrite T2; exact M1|]. split; [rewrite T1; exact M2|].
  rewrite T3; [rewrite Hfield; exact M3 | rewrite Hfield; discriminate].
Defined.
